(** * ProjectGPT: folder-scoped retrieval and context assembly

    A shallow embedding of the retrieval-augmented context engine of
    ProjectGPT: the rolling context window of [lib/context-manager.ts], the
    chunker, vector search and knowledge graph of the folder RAG service, and
    the folder context manager of [lib/folder-context-manager.ts].

    Conventions of the embedding.
    - JavaScript strings are [string]s (code units below 256); lengths,
      offsets, token counts, limits and folder ids are integers in [Z].
    - Similarities and embedding vectors are IEEE binary64 numbers
      ([PrimFloat.float]), the representation of a JavaScript [number].
    - [crypto.randomUUID()] and [Math.random()] are inputs of the model: the
      identifiers and the query vector are passed explicitly.
    - Timestamps ([createdAt], [updatedAt]) and node positions are left out:
      no modelled function reads them. *)

From Stdlib Require Import ZArith Lia Ascii String List Floats.
From Stdlib Require Reals Lra.
From stdpp Require Import prelude strings gmap pretty.

Local Open Scope Z_scope.
Set Warnings "-inexact-float".

(** ** JavaScript string and array primitives *)

Module JS.

Definition chars (s : string) : list ascii := list_ascii_of_string s.
Definition str (l : list ascii) : string := string_of_list_ascii l.

(** [s.length] *)
Definition strlen (s : string) : Z := Z.of_nat (String.length s).

(** The index arguments of [substring] and [slice] are clamped to the
    receiver: a negative index counts as 0, a large one as the length. *)
Definition clamp (len : nat) (i : Z) : nat := Nat.min (Z.to_nat i) len.

(** [s.substring(a, b)]: both indices clamped, swapped when [a > b]. *)
Definition substring (s : string) (a b : Z) : string :=
  let len := String.length s in
  let a' := clamp len a in
  let b' := clamp len b in
  str (take (Nat.max a' b' - Nat.min a' b') (drop (Nat.min a' b') (chars s))).

(** Position of the last occurrence of [c] in a list of characters whose
    first element has index [i]; [-1] when there is none. *)
Fixpoint lastIndexOf_from (c : ascii) (l : list ascii) (i : Z) : Z :=
  match l with
  | [] => -1
  | x :: l' =>
      let r := lastIndexOf_from c l' (i + 1) in
      if 0 <=? r then r else if Ascii.eqb x c then i else -1
  end.

(** [s.lastIndexOf(c)] for a one-character needle. *)
Definition lastIndexOf (s : string) (c : ascii) : Z :=
  lastIndexOf_from c (chars s) 0.

(** White space removed by [trim] (the code units below 256 among them). *)
Definition is_white (c : ascii) : bool :=
  match c with
  | "009" | "010" | "011" | "012" | "013" | " " | "160" => true
  | _ => false
  end%char.

Fixpoint trimStart_chars (l : list ascii) : list ascii :=
  match l with
  | c :: l' => if is_white c then trimStart_chars l' else l
  | [] => []
  end.

Definition trimStart (s : string) : string := str (trimStart_chars (chars s)).
Definition trimEnd (s : string) : string :=
  str (rev (trimStart_chars (rev (chars s)))).

(** [s.trim()] *)
Definition trim (s : string) : string := trimEnd (trimStart s).

(** [l.join(sep)] *)
Fixpoint join (sep : string) (l : list string) : string :=
  match l with
  | [] => ""
  | [x] => x
  | x :: l' => x +:+ sep +:+ join sep l'
  end.

(** [l.slice(start)]: a negative [start] counts from the end. *)
Definition slice_from {A} (l : list A) (start : Z) : list A :=
  if start <? 0
  then drop (Z.to_nat (Z.max (Z.of_nat (length l) + start) 0)) l
  else drop (Z.to_nat start) l.

(** [l.slice(0, stop)]: a negative [stop] counts from the end. *)
Definition slice_to {A} (l : list A) (stop : Z) : list A :=
  if stop <? 0
  then take (Z.to_nat (Z.max (Z.of_nat (length l) + stop) 0)) l
  else take (Z.to_nat stop) l.

(** [Math.ceil(n / 4)] for an integer [n]. *)
Definition ceil_div4 (n : Z) : Z := (n + 3) / 4.

End JS.

(** ** The rolling context window ([lib/context-manager.ts]) *)

Module ContextManager.
Import JS.

Inductive Role := system | user | assistant.

#[export] Instance Role_eq_dec : EqDecision Role.
Proof. solve_decision. Defined.

Definition Role_eqb (a b : Role) : bool :=
  match a, b with
  | system, system | user, user | assistant, assistant => true
  | _, _ => false
  end.

Record OpenRouterMessage := mkMessage {
  role : Role;
  content : string
}.

Record MessageContext := mkContext {
  messages : list OpenRouterMessage;
  totalTokens : Z;
  truncated : bool
}.

Record TokenLimits := mkLimits {
  maxTokens : Z;
  maxMessages : Z;
  reserveTokens : Z
}.

(** [Partial<TokenLimits>]: every field may be absent. *)
Record PartialTokenLimits := mkPartial {
  maxTokens_opt : option Z;
  maxMessages_opt : option Z;
  reserveTokens_opt : option Z
}.

Definition no_limits : PartialTokenLimits := mkPartial None None None.

Definition DEFAULT_LIMITS : TokenLimits :=
  {| maxTokens := 8000; maxMessages := 20; reserveTokens := 1500 |}.

(** [{ ...base, ...over }] *)
Definition spread (base : TokenLimits) (over : PartialTokenLimits) : TokenLimits :=
  {| maxTokens := default (maxTokens base) (maxTokens_opt over);
     maxMessages := default (maxMessages base) (maxMessages_opt over);
     reserveTokens := default (reserveTokens base) (reserveTokens_opt over) |}.

Definition estimateTokens (text : string) : Z := ceil_div4 (strlen text).

Definition estimateMessageTokens (message : OpenRouterMessage) : Z :=
  estimateTokens (content message) + 10.

(** The test [lastSpace > maxChars * 0.8] is written on integers as
    [4 * maxChars < 5 * lastSpace]: [maxChars] is a multiple of 4 and
    [lastSpace] an integer, and the rounded product [maxChars * 0.8] lies in
    the same unit interval as the exact one. *)
Definition truncateText (text : string) (maxTokens : Z) : string :=
  let maxChars := maxTokens * 4 in
  if strlen text <=? maxChars then text
  else
    let truncated := substring text 0 maxChars in
    let lastSpace := lastIndexOf truncated " "%char in
    if 4 * maxChars <? 5 * lastSpace
    then substring truncated 0 lastSpace +:+ "..."
    else truncated +:+ "...".

(** The state of the selection: the selected messages in chronological
    order, the tokens they use, and the truncation flag. *)
Definition Selection : Type := list OpenRouterMessage * Z * bool.

(** The [if] on the latest message: a latest user message is always taken,
    truncated when it does not fit. *)
Definition selectLatest (availableTokens : Z)
    (reversedMessages : list OpenRouterMessage) : Selection :=
  match reversedMessages with
  | latestMessage :: _ =>
      if Role_eqb (role latestMessage) user then
        let tokens := estimateMessageTokens latestMessage in
        if tokens <=? availableTokens
        then ([latestMessage], tokens, false)
        else
          let truncatedContent :=
            truncateText (content latestMessage) (availableTokens - 10) in
          ([mkMessage (role latestMessage) truncatedContent],
           estimateTokens truncatedContent + 10, true)
      else ([], 0, false)
  | [] => ([], 0, false)
  end.

(** The [for] loop over [reversedMessages] from index 1, two messages at a
    time; [rest] is what is left of the reversed history. *)
Fixpoint addPairs (availableTokens maxMsgs : Z) (rest : list OpenRouterMessage)
    (sel : Selection) : Selection :=
  match rest with
  | assistantMessage :: userMessage :: rest' =>
      let '(selectedMessages, usedTokens, truncated) := sel in
      let pairTokens :=
        estimateMessageTokens assistantMessage + estimateMessageTokens userMessage in
      if (usedTokens + pairTokens <=? availableTokens)
         && (Z.of_nat (length selectedMessages) + 2 <=? maxMsgs)
      then addPairs availableTokens maxMsgs rest'
             (userMessage :: assistantMessage :: selectedMessages,
              usedTokens + pairTokens, truncated)
      else (selectedMessages, usedTokens, true)
  | _ => sel
  end.

Definition systemMessageOf (systemPrompt : string) : OpenRouterMessage :=
  mkMessage system systemPrompt.

Definition availableTokensOf (finalLimits : TokenLimits) (systemPrompt : string) : Z :=
  maxTokens finalLimits - reserveTokens finalLimits
  - estimateMessageTokens (systemMessageOf systemPrompt).

Definition buildContext (msgs : list OpenRouterMessage) (systemPrompt : string)
    (limits : PartialTokenLimits) : MessageContext :=
  let finalLimits := spread DEFAULT_LIMITS limits in
  let systemMessage := systemMessageOf systemPrompt in
  let systemTokens := estimateMessageTokens systemMessage in
  let availableTokens := availableTokensOf finalLimits systemPrompt in
  match msgs with
  | [] => mkContext [systemMessage] systemTokens false
  | _ =>
      let reversedMessages := rev msgs in
      let '(selectedMessages, usedTokens, truncated) :=
        addPairs availableTokens (maxMessages finalLimits)
          (tail reversedMessages)
          (selectLatest availableTokens reversedMessages) in
      mkContext (systemMessage :: selectedMessages)
                (systemTokens + usedTokens) truncated
  end.

(** [validateContext] with the limits already looked up. *)
Definition validateContext (context : MessageContext) (limits : TokenLimits) : bool :=
  if limits.(maxTokens) <? totalTokens context then false
  else if limits.(maxMessages) <? Z.of_nat (length (messages context)) then false
  else true.

(** A full [TokenLimits] object handed over where a [Partial<TokenLimits>]
    is expected: every field is present. *)
Definition asPartial (limits : TokenLimits) : PartialTokenLimits :=
  mkPartial (Some (maxTokens limits)) (Some (maxMessages limits))
            (Some (reserveTokens limits)).

(** The table [modelLimits] of [getModelLimits]; a model that is not in it
    contributes no field. *)
Definition modelLimits (model : string) : PartialTokenLimits :=
  if String.eqb model "gpt-4o" then mkPartial (Some 120000) None (Some 4000)
  else if String.eqb model "gpt-4o-mini" then mkPartial (Some 120000) None (Some 1500)
  else if String.eqb model "gpt-4" then mkPartial (Some 8000) None (Some 2000)
  else if String.eqb model "gpt-3.5-turbo" then mkPartial (Some 4000) None (Some 1000)
  else if String.eqb model "claude-3-sonnet" then mkPartial (Some 200000) None (Some 4000)
  else if String.eqb model "claude-3-haiku" then mkPartial (Some 200000) None (Some 2000)
  else if String.eqb model "llama-2-70b" then mkPartial (Some 4000) None (Some 1000)
  else no_limits.

Definition getModelLimits (model : string) : TokenLimits :=
  spread DEFAULT_LIMITS (modelLimits model).

(** The result of [validateContext]: [reason] is absent when valid. *)
Record Validation := mkValidation {
  valid : bool;
  reason : option string
}.

(** [validateContext(context, model)] *)
Definition validateContextFor (context : MessageContext) (model : string) : Validation :=
  let limits := getModelLimits model in
  if maxTokens limits <? totalTokens context then
    mkValidation false
      (Some ("Context too long: " +:+ pretty (totalTokens context)
             +:+ " tokens exceeds " +:+ pretty (maxTokens limits) +:+ " limit"))
  else if maxMessages limits <? Z.of_nat (length (messages context)) then
    mkValidation false
      (Some ("Too many messages: " +:+ pretty (Z.of_nat (length (messages context)))
             +:+ " exceeds " +:+ pretty (maxMessages limits) +:+ " limit"))
  else mkValidation true None.

End ContextManager.

(** ** The folder RAG service *)

Module FolderRAG.
Import JS.

(** *** Numbers

    The vector arithmetic is written once over the operations it uses, so
    that it can be read on binary64 numbers (what the service computes) and
    on real numbers (the arithmetic it approximates). [num_nan] is the value
    of an arithmetic operation on [undefined], reached only when an array is
    read past its end. *)
Class Number (T : Type) := {
  num_zero : T;
  num_add : T -> T -> T;
  num_mul : T -> T -> T;
  num_div : T -> T -> T;
  num_sqrt : T -> T;
  num_nan : T
}.

#[export] Instance Number_float : Number float := {|
  num_zero := 0%float;
  num_add := PrimFloat.add;
  num_mul := PrimFloat.mul;
  num_div := PrimFloat.div;
  num_sqrt := PrimFloat.sqrt;
  num_nan := PrimFloat.nan
|}.

Section VectorMath.
Context {T : Type} `{Number T}.

(** [a.reduce((sum, val, i) => sum + val * b[i], sum0)], with [b] the part
    of the second array from index [i] on. *)
Fixpoint dot_from (sum : T) (a b : list T) : T :=
  match a with
  | [] => sum
  | val :: a' => dot_from (num_add sum (num_mul val (hd num_nan b))) a' (tl b)
  end.

(** [a.reduce((sum, val) => sum + val * val, sum0)] *)
Fixpoint sumSquares_from (sum : T) (a : list T) : T :=
  match a with
  | [] => sum
  | val :: a' => sumSquares_from (num_add sum (num_mul val val)) a'
  end.

Definition magnitude (a : list T) : T := num_sqrt (sumSquares_from num_zero a).

Definition cosineSimilarity (a b : list T) : T :=
  let dotProduct := dot_from num_zero a b in
  let magnitudeA := magnitude a in
  let magnitudeB := magnitude b in
  num_div dotProduct (num_mul magnitudeA magnitudeB).

(** [generateEmbedding]: [draw] is the vector of [Math.random() - 0.5]
    values; the text itself is not read. *)
Definition generateEmbedding (text : string) (draw : list T) : list T :=
  let magnitude := magnitude draw in
  map (fun val => num_div val magnitude) draw.

End VectorMath.

(** *** Data model *)

Inductive DocumentType := text | pdf | md | code | url | json.

Record FolderDocument := mkDocument {
  doc_id : string;
  doc_folderId : Z;
  doc_userId : string;
  doc_name : string;
  doc_type : DocumentType;
  doc_content : string;
  doc_size : Z
}.

Record FolderChunk := mkChunk {
  chunk_id : string;
  chunk_documentId : string;
  chunk_folderId : Z;
  chunk_userId : string;
  chunk_content : string;
  chunk_startOffset : Z;
  chunk_endOffset : Z;
  chunk_chunkIndex : Z;
  chunk_tokenCount : Z;
  chunk_documentName : string;
  chunk_documentType : DocumentType
}.

Record FolderEmbedding := mkEmbedding {
  emb_id : string;
  emb_folderId : Z;
  emb_userId : string;
  emb_vector : list float;
  emb_dimensions : Z;
  emb_model : string
}.

Inductive NodeType := node_concept | node_entity | node_document | node_topic.
Inductive EdgeType := relates_to | contains | references | derived_from.

(** The [metadata] of a node: of a document node, or of a concept node. *)
Inductive NodeMetadata :=
  | DocumentMeta (type : DocumentType) (size : Z)
  | ConceptMeta (chunkIndex : Z).

Record KnowledgeNode := mkNode {
  node_id : string;
  node_type : NodeType;
  node_label : string;
  node_content : string;
  node_documentIds : list string;
  node_chunkIds : list string;
  node_metadata : NodeMetadata
}.

Record KnowledgeEdge := mkEdge {
  edge_id : string;
  edge_sourceId : string;
  edge_targetId : string;
  edge_type : EdgeType;
  edge_weight : float
}.

Record FolderKnowledgeGraph := mkGraph {
  graph_id : string;
  graph_folderId : Z;
  graph_userId : string;
  graph_nodes : list KnowledgeNode;
  graph_edges : list KnowledgeEdge;
  graph_documentCount : Z
}.

Record ChunkConfig := mkChunkConfig {
  maxTokens : Z;
  overlap : Z;
  minChunkSize : Z
}.

Definition CHUNK_CONFIG : ChunkConfig :=
  {| maxTokens := 512; overlap := 50; minChunkSize := 100 |}.

(** *** Utility methods *)

(** [s.split(re)] for a regular expression [re] matching the non-empty runs
    of the characters [sep]: [cur] is the piece being read, [inrun] tells
    that the previous character was a separator. *)
Fixpoint split_go (sep : ascii -> bool) (cur : list ascii) (inrun : bool)
    (l : list ascii) : list string :=
  match l with
  | [] => [str cur]
  | c :: l' =>
      if sep c
      then if inrun then split_go sep [] true l'
           else str cur :: split_go sep [] true l'
      else split_go sep (cur ++ [c]) false l'
  end.

Definition split_runs (sep : ascii -> bool) (s : string) : list string :=
  split_go sep [] false (chars s).

(** The class [[.!?]]. *)
Definition is_terminal (c : ascii) : bool :=
  match c with
  | "."%char | "!"%char | "?"%char => true
  | _ => false
  end.

(** The class [\W]: everything but letters, digits and the underscore. *)
Definition is_nonword (c : ascii) : bool :=
  let n := nat_of_ascii c in
  negb ((48 <=? n)%nat && (n <=? 57)%nat
        || (65 <=? n)%nat && (n <=? 90)%nat
        || (97 <=? n)%nat && (n <=? 122)%nat
        || (n =? 95)%nat).

Definition toLowerCase_char (c : ascii) : ascii :=
  let n := nat_of_ascii c in
  if (65 <=? n)%nat && (n <=? 90)%nat
     || (192 <=? n)%nat && (n <=? 222)%nat && negb (n =? 215)%nat
  then ascii_of_nat (n + 32) else c.

Definition toLowerCase (s : string) : string := str (map toLowerCase_char (chars s)).

Definition nonempty (s : string) : bool :=
  match s with EmptyString => false | _ => true end.

Definition splitIntoSentences (text : string) : list string :=
  List.filter (fun s => 0 <? strlen (trim s)) (split_runs is_terminal text).

Definition estimateTokens (text : string) : Z := ceil_div4 (strlen text).

(** [[...new Set(l)]]: the first occurrence of every element, in order. *)
Fixpoint dedupe_from (seen : list string) (l : list string) : list string :=
  match l with
  | [] => []
  | x :: l' =>
      if existsb (String.eqb x) seen then dedupe_from seen l'
      else x :: dedupe_from (x :: seen) l'
  end.

Definition stopWords : list string :=
  ["the"; "and"; "this"; "that"; "with"; "have"; "will"; "from"; "they";
   "been"; "have"; "their"].

Definition extractConcepts (text : string) : list string :=
  let words := split_runs is_nonword (toLowerCase text) in
  let concepts :=
    List.filter (fun word => (4 <? strlen word)
                             && negb (existsb (String.eqb word) stopWords)) words in
  slice_to (dedupe_from [] concepts) 5.

(** The last piece of [fileName.toLowerCase().split('.')]. *)
Fixpoint lastPiece_go (cur : list ascii) (l : list ascii) : string :=
  match l with
  | [] => str cur
  | c :: l' => if Ascii.eqb c "."%char then lastPiece_go [] l'
               else lastPiece_go (cur ++ [c]) l'
  end.

Definition getDocumentType (fileName content : string) : DocumentType :=
  let extension := lastPiece_go [] (chars (toLowerCase fileName)) in
  if String.eqb extension "pdf" then pdf
  else if String.eqb extension "md" || String.eqb extension "markdown" then md
  else if existsb (String.eqb extension)
            ["js"; "ts"; "jsx"; "tsx"; "py"; "java"; "cpp"; "c"] then code
  else if String.eqb extension "json" then json
  else text.

(** *** Chunking *)

(** The variables of the loop of [chunkDocument]: the buffer, the index and
    start offset of the chunk being filled, and the chunks pushed so far. *)
Record ChunkerState := mkChunkerState {
  currentChunk : string;
  chunkIndex : Z;
  startOffset : Z;
  chunks : list FolderChunk
}.

Section Chunker.
Variable cfg : ChunkConfig.
Variable document : FolderDocument.
(** [uuid i] is the identifier drawn for the chunk of index [i]. *)
Variable uuid : Z -> string.

(** The chunk literal built from the loop variables. *)
Definition makeChunk (st : ChunkerState) : FolderChunk :=
  {| chunk_id := uuid (chunkIndex st);
     chunk_documentId := doc_id document;
     chunk_folderId := doc_folderId document;
     chunk_userId := doc_userId document;
     chunk_content := trim (currentChunk st);
     chunk_startOffset := startOffset st;
     chunk_endOffset := startOffset st + strlen (currentChunk st);
     chunk_chunkIndex := chunkIndex st;
     chunk_tokenCount := estimateTokens (currentChunk st);
     chunk_documentName := doc_name document;
     chunk_documentType := doc_type document |}.

(** One iteration of the [for] loop; [sentences] is the whole array. *)
Definition chunkStep (sentences : list string) (st : ChunkerState)
    (sentence : string) : ChunkerState :=
  let potentialChunk :=
    currentChunk st +:+ (if nonempty (currentChunk st) then " " else "") +:+ sentence in
  if (maxTokens cfg <? estimateTokens potentialChunk) && nonempty (currentChunk st)
  then
    let chunk := makeChunk st in
    let overlapSentences := slice_from sentences (- overlap cfg) in
    {| currentChunk := join " " overlapSentences +:+ " " +:+ sentence;
       chunkIndex := chunkIndex st + 1;
       startOffset := chunk_endOffset chunk - strlen (join " " overlapSentences);
       chunks := chunks st ++ [chunk] |}
  else
    {| currentChunk := potentialChunk;
       chunkIndex := chunkIndex st;
       startOffset := startOffset st;
       chunks := chunks st |}.

Definition chunkLoop (sentences todo : list string) (st : ChunkerState) : ChunkerState :=
  fold_left (chunkStep sentences) todo st.

(** The final [if]: the rest of the buffer becomes a chunk when it is not
    blank and its estimate reaches [minChunkSize]. *)
Definition flushes (st : ChunkerState) : bool :=
  nonempty (trim (currentChunk st))
  && (minChunkSize cfg <=? estimateTokens (currentChunk st)).

Definition chunkFinish (st : ChunkerState) : list FolderChunk :=
  if flushes st then chunks st ++ [makeChunk st] else chunks st.

Definition chunkDocumentWith : list FolderChunk :=
  let sentences := splitIntoSentences (doc_content document) in
  chunkFinish (chunkLoop sentences sentences (mkChunkerState "" 0 0 [])).

End Chunker.

Definition chunkDocument (document : FolderDocument) (uuid : Z -> string)
    : list FolderChunk :=
  chunkDocumentWith CHUNK_CONFIG document uuid.

(** *** Storage

    The service keeps its data either in the [memoryStore] map, under keys
    made of a prefix, the folder id and the user id, or in the IndexedDB
    object stores, keyed by [id] and read through the [by-folder-user]
    and [by-document] indexes. *)

Inductive Stored :=
  | StoredDocuments (l : list FolderDocument)
  | StoredChunks (l : list FolderChunk)
  | StoredEmbeddings (l : list FolderEmbedding)
  | StoredGraph (g : FolderKnowledgeGraph).

Record Database := mkDatabase {
  folderDocuments : gmap string FolderDocument;
  folderChunks : gmap string FolderChunk;
  folderEmbeddings : gmap string FolderEmbedding;
  folderKnowledgeGraphs : gmap string FolderKnowledgeGraph
}.

Definition emptyDatabase : Database := mkDatabase ∅ ∅ ∅ ∅.

(** [database = None] stands for a [getDB()] that rejects. *)
Record Service := mkService {
  fallbackToMemory : bool;
  memoryStore : gmap string Stored;
  database : option Database
}.

(** [new FolderRAGService()] *)
Definition newService (indexedDBAvailable dbOpens : bool) : Service :=
  {| fallbackToMemory := negb indexedDBAvailable;
     memoryStore := ∅;
     database := if dbOpens then Some emptyDatabase else None |}.

Definition withMemory (s : Service) (m : gmap string Stored) : Service :=
  mkService (fallbackToMemory s) m (database s).

Definition withDatabase (s : Service) (d : Database) : Service :=
  mkService (fallbackToMemory s) (memoryStore s) (Some d).

(** The template [`${prefix}${folderId}-${userId}`]. *)
Definition scopeKey (prefix : string) (folderId : Z) (userId : string) : string :=
  prefix +:+ pretty folderId +:+ "-" +:+ userId.

(** [db.add]: refused when the key is taken. *)
Definition db_add {V} (m : gmap string V) (key : string) (v : V)
    : option (gmap string V) :=
  match m !! key with
  | Some _ => None
  | None => Some (<[key := v]> m)
  end.

(** The records of an object store in the order of their primary keys:
    string keys are compared code unit by code unit, a proper prefix coming
    first. *)
Fixpoint insertByKey {V} (x : string * V) (l : list (string * V))
    : list (string * V) :=
  match l with
  | [] => [x]
  | y :: l' => if String.leb x.1 y.1 then x :: l else y :: insertByKey x l'
  end.

Definition recordsByKey {V} (m : gmap string V) : list (string * V) :=
  foldr insertByKey [] (map_to_list m).

(** [db.getAllFromIndex]: the records whose index key is the one asked for;
    records with the same index key come in the order of their primary
    keys. *)
Definition getAllFromIndex {V} (m : gmap string V) (matches : V -> bool) : list V :=
  List.filter matches (recordsByKey m).*2.

Definition in_scope (folderId : Z) (userId : string) (f : Z) (u : string) : bool :=
  (f =? folderId) && String.eqb u userId.

Definition storedDocuments (s : Service) (key : string) : list FolderDocument :=
  match memoryStore s !! key with Some (StoredDocuments l) => l | _ => [] end.
Definition storedChunks (s : Service) (key : string) : list FolderChunk :=
  match memoryStore s !! key with Some (StoredChunks l) => l | _ => [] end.
Definition storedEmbeddings (s : Service) (key : string) : list FolderEmbedding :=
  match memoryStore s !! key with Some (StoredEmbeddings l) => l | _ => [] end.

(** The store operations return [None] when they throw. *)
Definition storeDocument (s : Service) (document : FolderDocument) : option Service :=
  if fallbackToMemory s then
    let key := scopeKey "docs-" (doc_folderId document) (doc_userId document) in
    Some (withMemory s
            (<[key := StoredDocuments (storedDocuments s key ++ [document])]>
               (memoryStore s)))
  else
    db ← database s;
    docs ← db_add (folderDocuments db) (doc_id document) document;
    Some (withDatabase s
            (mkDatabase docs (folderChunks db) (folderEmbeddings db)
                        (folderKnowledgeGraphs db))).

Definition storeChunk (s : Service) (chunk : FolderChunk) : option Service :=
  if fallbackToMemory s then
    let key := scopeKey "chunks-" (chunk_folderId chunk) (chunk_userId chunk) in
    Some (withMemory s
            (<[key := StoredChunks (storedChunks s key ++ [chunk])]> (memoryStore s)))
  else
    db ← database s;
    cs ← db_add (folderChunks db) (chunk_id chunk) chunk;
    Some (withDatabase s
            (mkDatabase (folderDocuments db) cs (folderEmbeddings db)
                        (folderKnowledgeGraphs db))).

Definition storeEmbedding (s : Service) (embedding : FolderEmbedding) : option Service :=
  if fallbackToMemory s then
    let key := scopeKey "embeddings-" (emb_folderId embedding) (emb_userId embedding) in
    Some (withMemory s
            (<[key := StoredEmbeddings (storedEmbeddings s key ++ [embedding])]>
               (memoryStore s)))
  else
    db ← database s;
    es ← db_add (folderEmbeddings db) (emb_id embedding) embedding;
    Some (withDatabase s
            (mkDatabase (folderDocuments db) (folderChunks db) es
                        (folderKnowledgeGraphs db))).

(** [memoryStore.set(key, graph)], or [db.put], which replaces. *)
Definition storeKnowledgeGraph (s : Service) (graph : FolderKnowledgeGraph)
    : option Service :=
  if fallbackToMemory s then
    let key := scopeKey "graph-" (graph_folderId graph) (graph_userId graph) in
    Some (withMemory s (<[key := StoredGraph graph]> (memoryStore s)))
  else
    db ← database s;
    Some (withDatabase s
            (mkDatabase (folderDocuments db) (folderChunks db) (folderEmbeddings db)
                        (<[graph_id graph := graph]> (folderKnowledgeGraphs db)))).

(** The read operations catch their errors and answer with nothing. *)
Definition getDocuments (s : Service) (folderId : Z) (userId : string)
    : list FolderDocument :=
  if fallbackToMemory s then storedDocuments s (scopeKey "docs-" folderId userId)
  else match database s with
       | Some db =>
           getAllFromIndex (folderDocuments db)
             (fun d => in_scope folderId userId (doc_folderId d) (doc_userId d))
       | None => []
       end.

Definition getChunks (s : Service) (folderId : Z) (userId : string)
    : list FolderChunk :=
  if fallbackToMemory s then storedChunks s (scopeKey "chunks-" folderId userId)
  else match database s with
       | Some db =>
           getAllFromIndex (folderChunks db)
             (fun c => in_scope folderId userId (chunk_folderId c) (chunk_userId c))
       | None => []
       end.

Definition getEmbeddings (s : Service) (folderId : Z) (userId : string)
    : list FolderEmbedding :=
  if fallbackToMemory s then storedEmbeddings s (scopeKey "embeddings-" folderId userId)
  else match database s with
       | Some db =>
           getAllFromIndex (folderEmbeddings db)
             (fun e => in_scope folderId userId (emb_folderId e) (emb_userId e))
       | None => []
       end.

Definition getKnowledgeGraph (s : Service) (folderId : Z) (userId : string)
    : option FolderKnowledgeGraph :=
  if fallbackToMemory s then
    match memoryStore s !! scopeKey "graph-" folderId userId with
    | Some (StoredGraph g) => Some g
    | _ => None
    end
  else match database s with
       | Some db =>
           head (getAllFromIndex (folderKnowledgeGraphs db)
                   (fun g => in_scope folderId userId (graph_folderId g) (graph_userId g)))
       | None => None
       end.

(** *** Ingestion *)

(** [generateEmbeddingsForChunks]: a chunk whose embedding cannot be stored
    is skipped. [draw i] is the random vector drawn for the chunk of index
    [i]. *)
Definition embeddingOf (draw : Z -> list float) (chunk : FolderChunk) : FolderEmbedding :=
  let embedding := generateEmbedding (chunk_content chunk) (draw (chunk_chunkIndex chunk)) in
  {| emb_id := chunk_id chunk;
     emb_folderId := chunk_folderId chunk;
     emb_userId := chunk_userId chunk;
     emb_vector := embedding;
     emb_dimensions := Z.of_nat (length embedding);
     emb_model := "local-sentence-transformer" |}.

Definition generateEmbeddingsForChunks (s : Service) (cs : list FolderChunk)
    (draw : Z -> list float) : Service :=
  fold_left (fun s chunk => default s (storeEmbedding s (embeddingOf draw chunk))) cs s.

Definition documentNodeOf (document : FolderDocument) (cs : list FolderChunk)
    : KnowledgeNode :=
  {| node_id := doc_id document;
     node_type := node_document;
     node_label := doc_name document;
     node_content := substring (doc_content document) 0 200 +:+ "...";
     node_documentIds := [doc_id document];
     node_chunkIds := map chunk_id cs;
     node_metadata := DocumentMeta (doc_type document) (doc_size document) |}.

Definition conceptNodeOf (document : FolderDocument) (chunk : FolderChunk)
    (index : Z) (concept : string) : KnowledgeNode :=
  {| node_id := chunk_id chunk +:+ "-concept-" +:+ concept;
     node_type := node_concept;
     node_label := concept;
     node_content := concept;
     node_documentIds := [doc_id document];
     node_chunkIds := [chunk_id chunk];
     node_metadata := ConceptMeta index |}.

Definition containsEdgeOf (document : FolderDocument) (conceptNode : KnowledgeNode)
    : KnowledgeEdge :=
  {| edge_id := doc_id document +:+ "-contains-" +:+ node_id conceptNode;
     edge_sourceId := doc_id document;
     edge_targetId := node_id conceptNode;
     edge_type := contains;
     edge_weight := 0.8%float |}.

(** The concept nodes pushed by [chunks.forEach((chunk, index) => ...)],
    starting at index [index]. *)
Fixpoint conceptNodesOf (document : FolderDocument) (cs : list FolderChunk)
    (index : Z) : list KnowledgeNode :=
  match cs with
  | [] => []
  | chunk :: cs' =>
      map (conceptNodeOf document chunk index) (extractConcepts (chunk_content chunk))
      ++ conceptNodesOf document cs' (index + 1)
  end.

(** The graph object built by [updateKnowledgeGraph]. *)
Definition graphOf (document : FolderDocument) (cs : list FolderChunk)
    : FolderKnowledgeGraph :=
  let conceptNodes := conceptNodesOf document cs 0 in
  {| graph_id := pretty (doc_folderId document) +:+ "-graph";
     graph_folderId := doc_folderId document;
     graph_userId := doc_userId document;
     graph_nodes := documentNodeOf document cs :: conceptNodes;
     graph_edges := map (containsEdgeOf document) conceptNodes;
     graph_documentCount := 1 |}.

Definition updateKnowledgeGraph (s : Service) (document : FolderDocument)
    (cs : list FolderChunk) : option Service :=
  storeKnowledgeGraph s (graphOf document cs).

(** The loop [for (const chunk of chunks) await this.storeChunk(chunk)]:
    the state reached and whether every chunk was stored. *)
Fixpoint storeChunks (s : Service) (cs : list FolderChunk) : Service * bool :=
  match cs with
  | [] => (s, true)
  | chunk :: cs' =>
      match storeChunk s chunk with
      | Some s' => storeChunks s' cs'
      | None => (s, false)
      end
  end.

(** [processDocumentAsync], run to its end: an error stops the pipeline and
    leaves what was stored before it. *)
Definition processDocumentAsync (s : Service) (document : FolderDocument)
    (uuid : Z -> string) (draw : Z -> list float) : Service :=
  let cs := chunkDocument document uuid in
  match storeChunks s cs with
  | (s1, false) => s1
  | (s1, true) =>
      let s2 := generateEmbeddingsForChunks s1 cs draw in
      default s2 (updateKnowledgeGraph s2 document cs)
  end.

(** [new Blob([content]).size]: one byte for a code unit below 128, two for
    the others below 256. *)
Definition blobSize (content : string) : Z :=
  fold_right (fun c n => (if (nat_of_ascii c <? 128)%nat then 1 else 2) + n)
             0 (chars content).

(** The plain-object argument of [addDocument]. *)
Record FileInput := mkFile {
  file_name : string;
  file_content : string;
  file_type : string
}.

Definition documentOf (folderId : Z) (userId : string) (file : FileInput)
    (docId : string) : FolderDocument :=
  {| doc_id := docId;
     doc_folderId := folderId;
     doc_userId := userId;
     doc_name := file_name file;
     doc_type := getDocumentType (file_name file) (file_content file);
     doc_content := file_content file;
     doc_size := blobSize (file_content file) |}.

(** [addDocument] followed by the processing it starts; [None] when storing
    the document throws. *)
Definition addDocument (s : Service) (folderId : Z) (userId : string)
    (file : FileInput) (docId : string) (uuid : Z -> string)
    (draw : Z -> list float) : option (Service * FolderDocument) :=
  let document := documentOf folderId userId file docId in
  s1 ← storeDocument s document;
  Some (processDocumentAsync s1 document uuid draw, document).

(** *** Deletion *)

Definition deleteDocument (s : Service) (documentId : string) : Service :=
  if fallbackToMemory s then s
  else match database s with
       | None => s
       | Some db =>
           let ids :=
             map chunk_id
               (getAllFromIndex (folderChunks db)
                  (fun c => String.eqb (chunk_documentId c) documentId)) in
           withDatabase s
             (mkDatabase (delete documentId (folderDocuments db))
                         (foldr delete (folderChunks db) ids)
                         (foldr delete (folderEmbeddings db) ids)
                         (folderKnowledgeGraphs db))
       end.

Definition cleanupFolder (s : Service) (folderId : Z) (userId : string) : Service :=
  if fallbackToMemory s then
    let patterns :=
      [scopeKey "docs-" folderId userId; scopeKey "chunks-" folderId userId;
       scopeKey "embeddings-" folderId userId; scopeKey "graph-" folderId userId] in
    withMemory s (foldr delete (memoryStore s) patterns)
  else match database s with
       | None => s
       | Some db =>
           let documents := getDocuments s folderId userId in
           let s1 := fold_left (fun s d => deleteDocument s (doc_id d)) documents s in
           match database s1 with
           | None => s1
           | Some db1 =>
               let graphs :=
                 getAllFromIndex (folderKnowledgeGraphs db1)
                   (fun g => in_scope folderId userId (graph_folderId g) (graph_userId g)) in
               withDatabase s1
                 (mkDatabase (folderDocuments db1) (folderChunks db1)
                             (folderEmbeddings db1)
                             (foldr delete (folderKnowledgeGraphs db1)
                                    (map graph_id graphs)))
           end
       end.

(** *** Semantic search *)

Record Similarity := mkSimilarity {
  sim_chunkId : string;
  similarity : float
}.

(** The comparator [(a, b) => b.similarity - a.similarity] is positive when
    [b] has to come first. *)
Definition comesAfter (a b : Similarity) : bool :=
  (0 <? similarity b - similarity a)%float.

(** [Array.prototype.sort] as a stable insertion sort: the order that
    ECMA-262 specifies for a consistent comparator. The comparator of the
    search is not consistent when a similarity is NaN; the order is then
    left to the engine by the language, and this is one such order. *)
Fixpoint sort_insert (x : Similarity) (l : list Similarity) : list Similarity :=
  match l with
  | [] => [x]
  | y :: l' => if comesAfter x y then y :: sort_insert x l' else x :: l
  end.

Definition sortBySimilarity (l : list Similarity) : list Similarity :=
  foldr sort_insert [] l.

Record SearchResult := mkResult {
  res_chunk : FolderChunk;
  res_similarity : float
}.

(** [queryDraw] is the random vector drawn for the query. *)
Definition searchSimilarContent (s : Service) (folderId : Z) (userId : string)
    (query : string) (queryDraw : list float) (limit : Z) : list SearchResult :=
  let queryEmbedding := generateEmbedding query queryDraw in
  let embeddings := getEmbeddings s folderId userId in
  let cs := getChunks s folderId userId in
  let similarities :=
    map (fun embedding =>
           mkSimilarity (emb_id embedding)
                        (cosineSimilarity queryEmbedding (emb_vector embedding)))
        embeddings in
  let topResults := slice_to (sortBySimilarity similarities) limit in
  omap (fun result =>
          match List.find (fun c => String.eqb (chunk_id c) (sim_chunkId result)) cs with
          | Some chunk => Some (mkResult chunk (similarity result))
          | None => None
          end)
       topResults.

Definition newline : string := String "010"%char "".

(** The loop of [buildContextForQuery]; stopping is the [break]. *)
Fixpoint contextLoop (maxTokens : Z) (relevantChunks : list SearchResult)
    (context : string) (totalTokens : Z) : string :=
  match relevantChunks with
  | [] => context
  | r :: rest =>
      let chunkTokens := chunk_tokenCount (res_chunk r) in
      if maxTokens <? totalTokens + chunkTokens then context
      else if (0.7 <? res_similarity r)%float
      then contextLoop maxTokens rest
             (context +:+ newline +:+ "--- " +:+ chunk_documentName (res_chunk r)
              +:+ " ---" +:+ newline +:+ chunk_content (res_chunk r) +:+ newline)
             (totalTokens + chunkTokens)
      else contextLoop maxTokens rest context totalTokens
  end.

Definition buildContextForQuery (s : Service) (folderId : Z) (userId : string)
    (query : string) (queryDraw : list float) (maxTokens : Z) : string :=
  let relevantChunks := searchSimilarContent s folderId userId query queryDraw 10 in
  trim (contextLoop maxTokens relevantChunks "" 0).

(** *** Histories of the service

    One step is one store operation or one deletion; the processing of a
    document is a sequence of such steps, and a search may run between any
    two of them. The knowledge graph is only ever written by
    [updateKnowledgeGraph]. *)
Inductive step : Service -> Service -> Prop :=
  | step_storeDocument s document s' :
      storeDocument s document = Some s' -> step s s'
  | step_storeChunk s chunk s' :
      storeChunk s chunk = Some s' -> step s s'
  | step_storeEmbedding s embedding s' :
      storeEmbedding s embedding = Some s' -> step s s'
  | step_updateKnowledgeGraph s document cs s' :
      updateKnowledgeGraph s document cs = Some s' -> step s s'
  | step_deleteDocument s documentId :
      step s (deleteDocument s documentId)
  | step_cleanupFolder s folderId userId :
      step s (cleanupFolder s folderId userId).

Inductive reachable : Service -> Prop :=
  | reachable_new indexedDBAvailable dbOpens :
      reachable (newService indexedDBAvailable dbOpens)
  | reachable_step s s' : reachable s -> step s s' -> reachable s'.

End FolderRAG.

(** ** The folder context manager ([lib/folder-context-manager.ts]) *)

Module FolderContext.
Import JS ContextManager FolderRAG.

Record FolderContextConfig := mkConfig {
  includeRAGData : bool;
  maxRAGTokens : Z;
  ragSimilarityThreshold : float;
  preserveConversationContext : bool;
  maxConversationTokens : Z
}.

(** [Partial<FolderContextConfig>] *)
Record PartialConfig := mkPartialConfig {
  includeRAGData_opt : option bool;
  maxRAGTokens_opt : option Z;
  ragSimilarityThreshold_opt : option float;
  preserveConversationContext_opt : option bool;
  maxConversationTokens_opt : option Z
}.

Definition DEFAULT_FOLDER_CONFIG : FolderContextConfig :=
  {| includeRAGData := true;
     maxRAGTokens := 2000;
     ragSimilarityThreshold := 0.7%float;
     preserveConversationContext := true;
     maxConversationTokens := 4000 |}.

(** The [folderConfigs] map of the manager. *)
Record FolderContextManager := mkManager {
  folderConfigs : gmap Z FolderContextConfig
}.

Definition getFolderConfig (m : FolderContextManager) (folderId : Z)
    : FolderContextConfig :=
  default DEFAULT_FOLDER_CONFIG (folderConfigs m !! folderId).

Definition setFolderConfig (m : FolderContextManager) (folderId : Z)
    (config : PartialConfig) : FolderContextManager :=
  let currentConfig := getFolderConfig m folderId in
  mkManager
    (<[folderId :=
        {| includeRAGData :=
             default (includeRAGData currentConfig) (includeRAGData_opt config);
           maxRAGTokens :=
             default (maxRAGTokens currentConfig) (maxRAGTokens_opt config);
           ragSimilarityThreshold :=
             default (ragSimilarityThreshold currentConfig)
                     (ragSimilarityThreshold_opt config);
           preserveConversationContext :=
             default (preserveConversationContext currentConfig)
                     (preserveConversationContext_opt config);
           maxConversationTokens :=
             default (maxConversationTokens currentConfig)
                     (maxConversationTokens_opt config) |}]>
       (folderConfigs m)).

Definition buildRAGContext (svc : Service) (folderId : Z) (userId : string)
    (query : string) (queryDraw : list float) (maxTokens : Z)
    (similarityThreshold : float) : string :=
  let ragContent := buildContextForQuery svc folderId userId query queryDraw maxTokens in
  if nonempty ragContent
  then newline +:+ "--- FOLDER CONTEXT (Folder ID: " +:+ pretty folderId +:+ ") ---"
       +:+ newline +:+ ragContent +:+ newline +:+ "--- END FOLDER CONTEXT ---"
       +:+ newline
  else "".

Definition buildFolderSystemPrompt (basePrompt : string) (folderId : Z)
    (ragContext : string) : string :=
  let prompt := basePrompt in
  let prompt := prompt +:+ newline +:+ newline +:+ "## FOLDER CONTEXT ISOLATION" +:+ newline in
  let prompt := prompt +:+ "You are working within a specific folder context (ID: "
                +:+ pretty folderId +:+ "). " in
  let prompt := prompt +:+ "IMPORTANT: Only use information from the provided folder context below. " in
  let prompt := prompt +:+ "Do not reference or contaminate this conversation with information from other folders or external sources." in
  let prompt :=
    if nonempty (trim ragContext) then
      let prompt := prompt +:+ newline +:+ newline +:+ "## AVAILABLE FOLDER RESOURCES" +:+ newline in
      let prompt := prompt +:+ "The following resources are available in this folder for reference:" in
      let prompt := prompt +:+ ragContext in
      let prompt := prompt +:+ newline +:+ newline +:+ "When answering questions, prioritize information from these folder resources. " in
      let prompt := prompt +:+ "If the answer isn't in the provided resources, clearly state that the information " in
      prompt +:+ "is not available in the current folder context."
    else
      let prompt := prompt +:+ newline +:+ newline +:+ "No specific resources are available in this folder context. " in
      prompt +:+ "Provide general assistance while noting that no folder-specific resources are loaded." in
  let prompt := prompt +:+ newline +:+ newline +:+ "## STRICT ISOLATION REQUIREMENT" +:+ newline in
  let prompt := prompt +:+ "Maintain complete separation between this folder's context and any other conversations. " in
  prompt +:+ "Each folder is an independent knowledge space with no cross-contamination.".

(** [baseLimits.reserveTokens || 0]: an absent or zero value counts as 0. *)
Definition applyFolderLimits (baseLimits : PartialTokenLimits)
    (config : FolderContextConfig) : PartialTokenLimits :=
  {| maxTokens_opt := maxTokens_opt baseLimits;
     maxMessages_opt := maxMessages_opt baseLimits;
     reserveTokens_opt :=
       Some (default 0 (reserveTokens_opt baseLimits)
             + (if includeRAGData config then maxRAGTokens config else 0)) |}.

Definition buildFolderContext (m : FolderContextManager) (svc : Service)
    (folderId : Z) (userId : string) (msgs : list OpenRouterMessage)
    (userQuery : string) (queryDraw : list float) (baseSystemPrompt : string)
    (limits : PartialTokenLimits) : MessageContext :=
  let config := getFolderConfig m folderId in
  let ragContext :=
    if includeRAGData config
    then buildRAGContext svc folderId userId userQuery queryDraw
           (maxRAGTokens config) (ragSimilarityThreshold config)
    else "" in
  let enhancedSystemPrompt := buildFolderSystemPrompt baseSystemPrompt folderId ragContext in
  let folderLimits := applyFolderLimits limits config in
  buildContext msgs enhancedSystemPrompt folderLimits.

(** [clearFolderContext]: the configuration of the folder is forgotten. *)
Definition clearFolderContext (m : FolderContextManager) (folderId : Z)
    : FolderContextManager :=
  mkManager (delete folderId (folderConfigs m)).

(** The entries returned by [testRAGRetrieval]. *)
Record RetrievalSample := mkSample {
  sample_content : string;
  sample_similarity : float;
  sample_source : string
}.

(** [testRAGRetrieval]: an empty document name is falsy and reads as
    ['Unknown']. *)
Definition testRAGRetrieval (svc : Service) (folderId : Z) (userId : string)
    (query : string) (queryDraw : list float) (limit : Z) : list RetrievalSample :=
  let results := searchSimilarContent svc folderId userId query queryDraw limit in
  map (fun result =>
         {| sample_content :=
              substring (chunk_content (res_chunk result)) 0 200 +:+ "...";
            sample_similarity := res_similarity result;
            sample_source :=
              if nonempty (chunk_documentName (res_chunk result))
              then chunk_documentName (res_chunk result) else "Unknown" |})
      results.

End FolderContext.

(** ** Inputs used in the examples *)

Module Examples.
Import JS ContextManager FolderRAG.

(** [n] turns of a question and its answer. *)
Fixpoint conversation (n : nat) : list OpenRouterMessage :=
  match n with
  | O => []
  | S n' => conversation n' ++ [mkMessage user "question"; mkMessage assistant "answer"]
  end.

(** Limits that leave 20 tokens to an empty system prompt. *)
Definition tightLimits : PartialTokenLimits := mkPartial (Some 30) None (Some 0).

Definition longQuestion : OpenRouterMessage :=
  mkMessage user "please summarise the quarterly report for me".

Definition twoSpaces : string :=
  "please summarise-the-quarterly-report for me and nobody else".

Definition oneSpace : string :=
  "please summarise-the-quarterly-report-for-me-and-nobody-else".

Definition longPrompt : string :=
  "You are a helpful assistant. Answer briefly, cite the folder resources, and never guess.".

(** [n] copies of [s]. *)
Fixpoint repeatText (n : nat) (s : string) : string :=
  match n with
  | O => ""
  | S n' => s +:+ repeatText n' s
  end.

(** A random draw of 384 values whose first two are [x] and [y]. *)
Definition draw384 (x y : float) : list float := x :: y :: replicate 382 0%float.

Definition unevenDraw : list float :=
  [0.49; 0.001; -0.3; 0.25; 0.17; 0.33]%float ++ replicate 378 0%float.

(** [addDocument] of a text file, every chunk of it drawing [draw]. *)
Definition ingest (s : Service) (folderId : Z) (userId name content docId : string)
    (draw : list float) : Service :=
  match addDocument s folderId userId (mkFile name content "text/plain") docId
          (fun i => docId +:+ "-chunk-" +:+ pretty i) (fun _ => draw) with
  | Some (s', _) => s'
  | None => s
  end.

Definition invoiceText : string := repeatText 20 "invoice total amount due ".
Definition recipeText : string := repeatText 20 "mix flour and sugar then bake ".
Definition minutesText : string := repeatText 20 "meeting minutes and action items ".

(** A service holding, in the folder 1 of alice, an invoice, and in the
    folder 2 of bob, a recipe; in memory, and in IndexedDB. *)
Definition twoScopes (indexedDBAvailable : bool) : Service :=
  let s := newService indexedDBAvailable true in
  let s := ingest s 1 "alice" "invoice.txt" invoiceText "doc-a" (draw384 0.4 0.3) in
  ingest s 2 "bob" "recipe.txt" recipeText "doc-b" (draw384 0.3 0.4).

(** Two long sentences followed by 51 short ones. *)
Definition overlapDocument : FolderDocument :=
  documentOf 1 "alice"
    (mkFile "long.txt"
       (repeatText 1100 "a" +:+ "." +:+ repeatText 1100 "b" +:+ "." +:+ repeatText 51 "c.")
       "text/plain") "doc-l".

Definition helloDocument : FolderDocument :=
  documentOf 1 "alice" (mkFile "hello.txt" "Hello world." "text/plain") "doc-h".

(** Twenty sentences, 480 characters. *)
Definition sentencesDocument : FolderDocument :=
  documentOf 1 "alice"
    (mkFile "invoice.txt" (repeatText 20 "Total amount due: $500. ") "text/plain")
    "doc-s".

Definition invoiceDocument : FolderDocument :=
  documentOf 1 "alice" (mkFile "invoice.txt" invoiceText "text/plain") "doc-a".

Definition minutesDocument : FolderDocument :=
  documentOf 1 "alice" (mkFile "minutes.txt" minutesText "text/plain") "doc-c".

(** A folder with two documents, the invoice ingested before the recipe. *)
Definition twoDocuments (indexedDBAvailable : bool) : Service :=
  let s := newService indexedDBAvailable true in
  let s := ingest s 1 "alice" "invoice.txt" invoiceText "doc-a" (draw384 0.4 0.3) in
  ingest s 1 "alice" "recipe.txt" recipeText "doc-b" (draw384 0.3 0.4).

(** A manager in which folder 1 asks for a similarity of at least 0.9. *)
Definition strictManager : FolderContext.FolderContextManager :=
  FolderContext.setFolderConfig (FolderContext.mkManager ∅) 1
    (FolderContext.mkPartialConfig None None (Some 0.9%float) None None).

(** A folder with three documents. *)
Definition threeDocuments (indexedDBAvailable : bool) : Service :=
  let s := newService indexedDBAvailable true in
  let s := ingest s 1 "alice" "invoice.txt" invoiceText "doc-a" (draw384 0.4 0.3) in
  let s := ingest s 1 "alice" "recipe.txt" recipeText "doc-b" (draw384 0.3 0.4) in
  ingest s 1 "alice" "minutes.txt" minutesText "doc-c" (draw384 0.1 (-0.4)).

End Examples.

(** ** The vocabulary of the properties *)

Module Statements.
Import JS ContextManager FolderRAG.

(** *** Context window *)

(** The claim's wording of the truncation, for comparison: the cut is at
    the last space lying before 80% of the budget of [maxChars] characters,
    and at the budget when there is no such space. *)
Definition truncationBefore80 (text : string) (maxChars : Z) : string :=
  let lastSpace := lastIndexOf (substring text 0 ((4 * maxChars + 4) / 5)) " "%char in
  if 0 <=? lastSpace then substring text 0 lastSpace +:+ "..."
  else substring text 0 maxChars +:+ "...".

(** The sum of the estimates of a list of messages. *)
Definition sumTokens (l : list OpenRouterMessage) : Z :=
  foldr (fun m acc => estimateMessageTokens m + acc) 0 l.

(** *** Storage keys *)

Definition is_digit (c : ascii) : bool :=
  (48 <=? nat_of_ascii c)%nat && (nat_of_ascii c <=? 57)%nat.

Fixpoint all_digits (s : string) : bool :=
  match s with
  | EmptyString => true
  | String c s' => is_digit c && all_digits s'
  end.

(** *** The invariants of the store *)

(** In [memoryStore], a list of chunks sits under the key of the scope of
    each of its chunks. *)
Definition chunks_keyed (s : Service) : Prop :=
  forall k l c,
    memoryStore s !! k = Some (StoredChunks l) -> c ∈ l ->
    k = scopeKey "chunks-" (chunk_folderId c) (chunk_userId c).

(** In IndexedDB, a knowledge graph sits under the key made of its folder. *)
Definition graphs_keyed (s : Service) : Prop :=
  forall db k g,
    database s = Some db -> folderKnowledgeGraphs db !! k = Some g ->
    k = pretty (graph_folderId g) +:+ "-graph".

Definition store_wf (s : Service) : Prop := chunks_keyed s /\ graphs_keyed s.

(** The value kept under a key of [memoryStore] is of the kind that the
    prefix of the key names, so that the casts of the reads are right. *)
Definition kind_matches (k : string) (v : Stored) : Prop :=
  exists folderId userId,
    k = scopeKey (match v with
                  | StoredDocuments _ => "docs-"
                  | StoredChunks _ => "chunks-"
                  | StoredEmbeddings _ => "embeddings-"
                  | StoredGraph _ => "graph-"
                  end) folderId userId.

Definition store_typed (s : Service) : Prop :=
  forall k v, memoryStore s !! k = Some v -> kind_matches k v.

Definition graphsOf (s : Service) : gmap string FolderKnowledgeGraph :=
  match database s with
  | Some db => folderKnowledgeGraphs db
  | None => ∅
  end.

(** *** The shape of the chunks

    [segs] are consecutive runs of sentences, one per buffer. The buffer of
    the first run is the run joined by spaces; the buffer of a later run
    starts with the seeded text [seed] and a space. *)
Definition buffersOf (seed : string) (segs : list (list string)) : list string :=
  match segs with
  | [] => []
  | seg :: rest =>
      join " " seg :: map (fun seg => seed +:+ " " +:+ join " " seg) rest
  end.

(** The last buffer becomes a chunk only when it is not blank and its
    estimate reaches [minChunkSize]. *)
Definition keepFlushed (cfg : ChunkConfig) (buffers : list string) : list string :=
  match last buffers with
  | Some b =>
      if nonempty (trim b) && (minChunkSize cfg <=? estimateTokens b)
      then buffers else removelast buffers
  | None => []
  end.

(** The claim's wording of the reconstruction, for comparison: every chunk
    is a seeded overlap prefix followed by a rest, and the rests, put
    together in order, are the content of the document. *)
Definition reconstructs (content : string) (cs : list FolderChunk) : Prop :=
  exists rests : list string,
    Forall2 (fun c rest => exists prefix, chunk_content c = prefix +:+ rest) cs rests
    /\ join "" rests = content.

(** In IndexedDB, every record sits under its [id], the key path of the
    four object stores. *)
Definition db_keyed (s : Service) : Prop :=
  forall db, database s = Some db ->
    (forall k d, folderDocuments db !! k = Some d -> k = doc_id d)
    /\ (forall k c, folderChunks db !! k = Some c -> k = chunk_id c)
    /\ (forall k e, folderEmbeddings db !! k = Some e -> k = emb_id e)
    /\ (forall k g, folderKnowledgeGraphs db !! k = Some g -> k = graph_id g).

(** The folder [g] of the user [v] reads the same documents, chunks and
    embeddings in [s'] as in [s]. *)
Definition same_reads (s s' : Service) (g : Z) (v : string) : Prop :=
  (forall d, d ∈ getDocuments s' g v <-> d ∈ getDocuments s g v)
  /\ (forall c, c ∈ getChunks s' g v <-> c ∈ getChunks s g v)
  /\ (forall e, e ∈ getEmbeddings s' g v <-> e ∈ getEmbeddings s g v).

(** *** Ranking

    The comparator [(a, b) => b.similarity - a.similarity] is consistent on
    a list of similarities when, on its elements, it never puts two of them
    each before the other and "not before" is transitive: the part of the
    condition of ECMA-262 under which the order of [Array.prototype.sort]
    is specified that the ranking rests on. *)
Definition consistentComparator (l : list float) : bool :=
  forallb (fun x =>
    forallb (fun y =>
      (negb (0 <? y - x)%float || negb (0 <? x - y)%float)
      && forallb (fun z =>
           (0 <? y - x)%float || (0 <? z - y)%float || negb (0 <? z - x)%float) l)
      l) l.

(** No similarity of the list is put before an earlier one by the
    comparator. *)
Fixpoint descending (l : list float) : Prop :=
  match l with
  | [] => True
  | x :: l' => Forall (fun y => (0 <? y - x)%float = false) l' /\ descending l'
  end.

(** The search result made from an entry of the ranking: the chunk found
    under its id, when there is one. *)
Definition chunkOfSimilarity (cs : list FolderChunk) (result : Similarity)
    : option SearchResult :=
  match List.find (fun c => String.eqb (chunk_id c) (sim_chunkId result)) cs with
  | Some chunk => Some (mkResult chunk (similarity result))
  | None => None
  end.

(** The block that [buildContextForQuery] appends for a search result, and
    the tokens of a list of results. *)
Definition contextBlock (r : SearchResult) : string :=
  newline +:+ "--- " +:+ chunk_documentName (res_chunk r) +:+ " ---" +:+ newline
  +:+ chunk_content (res_chunk r) +:+ newline.

Definition chunkTokens (l : list SearchResult) : Z :=
  foldr (fun r n => chunk_tokenCount (res_chunk r) + n) 0 l.

(** The characters a concept is made of: lower-case letters, digits and
    the underscore. *)
Definition is_concept_char (c : ascii) : bool :=
  let n := nat_of_ascii c in
  (48 <=? n)%nat && (n <=? 57)%nat
  || (97 <=? n)%nat && (n <=? 122)%nat
  || (n =? 95)%nat.

(** The end offsets of a list of chunks increase strictly. *)
Definition ends_increase (cs : list FolderChunk) : Prop :=
  forall i j ci cj,
    (i < j)%nat -> cs !! i = Some ci -> cs !! j = Some cj ->
    chunk_endOffset ci < chunk_endOffset cj.

(** What holds of the loop variables after the runs [segsDone] were closed
    and the sentences [seg] were read into the buffer; [seed] is the text
    every buffer after the first starts with. *)
Definition loop_inv (seed : string) (segsDone : list (list string))
    (seg : list string) (st : ChunkerState) : Prop :=
  map chunk_content (chunks st) = map trim (buffersOf seed segsDone)
  /\ currentChunk st
     = match segsDone with
       | [] => join " " seg
       | _ => seed +:+ " " +:+ join " " seg
       end
  /\ (segsDone <> [] -> seg <> [])
  /\ Forall (fun g => g <> []) segsDone
  /\ Forall (fun s => nonempty s = true) seg
  /\ chunkIndex st = Z.of_nat (length (chunks st))
  /\ (forall i c, chunks st !! i = Some c -> chunk_chunkIndex c = Z.of_nat i).

(** *** Binary64 numbers around 1 *)

(** The integer [k] as a binary64 number (exact below 2^53). *)
Fixpoint float_of_pos (p : positive) : float :=
  match p with
  | xH => 1
  | xO p' => 2 * float_of_pos p'
  | xI p' => 2 * float_of_pos p' + 1
  end%float.

Definition float_of_Z (k : Z) : float :=
  match k with
  | Z0 => 0
  | Zpos p => float_of_pos p
  | Zneg p => - float_of_pos p
  end%float.

(** The binary64 numbers [k] units in the last place above and below 1. *)
Definition ulpsAbove (k : Z) : float := (1 + float_of_Z k * 0x1p-52)%float.
Definition ulpsBelow (k : Z) : float := (1 - float_of_Z k * 0x1p-53)%float.

(** [c] is within 2^-52 of 1. *)
Definition nearOne (c : float) : bool :=
  ((1 - 0x1p-52 <=? c) && (c <=? 1 + 0x1p-52))%float.

(** A binary64 vector is normalized when the sum of its squares, as the
    service computes it, is at most 4096 units in the last place away
    from 1. *)
Definition normalized (a : list float) : Prop :=
  exists k, 0 <= k <= 4096
            /\ (sumSquares_from 0%float a = ulpsAbove k
                \/ sumSquares_from 0%float a = ulpsBelow k).

(** The similarity of a vector with itself depends on the sum of its
    squares only. *)
Definition selfSimilarityOf (s : float) : float :=
  (s / (PrimFloat.sqrt s * PrimFloat.sqrt s))%float.

(** *** Real arithmetic: what the binary64 computation approximates *)

Import Reals.

(** There is no NaN among the reals: a read past the end of an array counts
    as 0, and the properties stated on reals compare a vector with itself. *)
#[export] Instance Number_R : Number R := {|
  num_zero := 0%R;
  num_add := Rplus;
  num_mul := Rmult;
  num_div := Rdiv;
  num_sqrt := sqrt;
  num_nan := 0%R
|}.

End Statements.

(** * Properties *)

(** ** Strings and arrays *)

Module JSFacts.
Import JS.

Lemma chars_str l : chars (str l) = l.
Proof. apply list_ascii_of_string_of_list_ascii. Qed.

Lemma str_chars s : str (chars s) = s.
Proof. apply string_of_list_ascii_of_string. Qed.

Lemma chars_app s1 s2 : chars (s1 +:+ s2) = chars s1 ++ chars s2.
Proof.
  induction s1 as [|c s1 IH]; [done|].
  change (chars (String c s1 +:+ s2)) with (c :: chars (s1 +:+ s2)).
  by rewrite IH.
Qed.

Lemma str_app l1 l2 : str (l1 ++ l2) = str l1 +:+ str l2.
Proof.
  induction l1 as [|c l1 IH]; [done|].
  change (str ((c :: l1) ++ l2)) with (String c (str (l1 ++ l2))).
  by rewrite IH.
Qed.

Lemma length_chars s : length (chars s) = String.length s.
Proof.
  induction s as [|c s IH]; [done|].
  change (length (chars (String c s))) with (S (length (chars s))).
  by rewrite IH.
Qed.

Lemma strlen_chars s : strlen s = Z.of_nat (length (chars s)).
Proof. unfold strlen. by rewrite length_chars. Qed.

Lemma strlen_str l : strlen (str l) = Z.of_nat (length l).
Proof. by rewrite strlen_chars, chars_str. Qed.

Lemma strlen_app s1 s2 : strlen (s1 +:+ s2) = strlen s1 + strlen s2.
Proof. rewrite !strlen_chars, chars_app, length_app. lia. Qed.

Lemma strlen_nonneg s : 0 <= strlen s.
Proof. unfold strlen. lia. Qed.

Lemma chars_inj s1 s2 : chars s1 = chars s2 -> s1 = s2.
Proof. intros E. by rewrite <- (str_chars s1), <- (str_chars s2), E. Qed.

Lemma get_chars s n : String.get n s = chars s !! n.
Proof.
  revert n. induction s as [|c s IH]; intros [|n]; simpl; done.
Qed.

(** [substring] from the start of the string is a [take]. *)
Lemma substring_0 s n :
  substring s 0 n = str (take (Z.to_nat n) (chars s)).
Proof.
  unfold substring, clamp. rewrite <- length_chars.
  replace (Z.to_nat 0) with 0%nat by done.
  rewrite Nat.min_0_l, Nat.max_0_l, Nat.sub_0_r. simpl.
  f_equal. rewrite <- take_take. by rewrite firstn_all.
Qed.

Lemma chars_substring_0 s n :
  chars (substring s 0 n) = take (Z.to_nat n) (chars s).
Proof. by rewrite substring_0, chars_str. Qed.

(** What [lastIndexOf_from] returns: [-1] when the character does not
    occur, and else the position of its last occurrence. *)
Lemma lastIndexOf_from_spec c l i :
  0 <= i ->
  let r := lastIndexOf_from c l i in
  (r = -1 /\ c ∉ l)
  \/ (i <= r < i + Z.of_nat (length l)
      /\ l !! Z.to_nat (r - i) = Some c
      /\ forall k, (Z.to_nat (r - i) < k)%nat -> l !! k ≠ Some c).
Proof.
  revert i. induction l as [|x l IH]; intros i Hi; simpl.
  { left. split; [done|]. apply not_elem_of_nil. }
  specialize (IH (i + 1) ltac:(lia)). simpl in IH.
  destruct IH as [[Hr Hnot]|(Hrange & Hget & Hlast)].
  - rewrite Hr. simpl.
    destruct (Ascii.eqb_spec x c) as [->|Hne].
    + right. replace (Z.to_nat (i - i)) with 0%nat by lia.
      split; [lia|]. split; [done|].
      intros [|k] Hk; [lia|]. simpl. intros Hk'.
      apply Hnot. by eapply list_elem_of_lookup_2.
    + left. split; [done|]. rewrite not_elem_of_cons. by split; [congruence|].
  - destruct (0 <=? lastIndexOf_from c l (i + 1)) eqn:E; [|lia].
    right. set (r := lastIndexOf_from c l (i + 1)) in *.
    replace (Z.to_nat (r - i)) with (S (Z.to_nat (r - (i + 1)))) by lia.
    split; [lia|]. split; [done|].
    intros [|k] Hk; [lia|]. simpl. apply Hlast. lia.
Qed.

Lemma lastIndexOf_spec s c :
  let r := lastIndexOf s c in
  (r = -1 /\ c ∉ chars s)
  \/ (0 <= r < strlen s
      /\ chars s !! Z.to_nat r = Some c
      /\ forall k, (Z.to_nat r < k)%nat -> chars s !! k ≠ Some c).
Proof.
  pose proof (lastIndexOf_from_spec c (chars s) 0 ltac:(lia)) as H.
  unfold lastIndexOf. simpl in *. rewrite strlen_chars.
  destruct H as [?|(? & ? & ?)]; [by left|right].
  by rewrite Z.sub_0_r in *.
Qed.

End JSFacts.
(** ** The rolling context window *)

Module ContextManagerFacts.
Import JS JSFacts ContextManager Statements.

(** Induction over a list two elements at a time, as the pair loop reads it. *)
Lemma pair_ind {A} (P : list A -> Prop) :
  P [] -> (forall x, P [x]) -> (forall a u l, P l -> P (a :: u :: l)) ->
  forall l, P l.
Proof.
  intros Hnil Hone Hpair.
  cut (forall l, P l /\ forall x, P (x :: l)); [intros H l; apply H|].
  induction l as [|y l [IH1 IH2]]; split; auto.
Qed.

Lemma ceil_div4_spec n : 4 * (ceil_div4 n - 1) < n <= 4 * ceil_div4 n.
Proof.
  unfold ceil_div4.
  pose proof (Z.div_mod (n + 3) 4 ltac:(lia)).
  pose proof (Z.mod_pos_bound (n + 3) 4 ltac:(lia)). lia.
Qed.

Lemma buildContext_snoc pre latest sys limits :
  buildContext (pre ++ [latest]) sys limits =
  let finalLimits := spread DEFAULT_LIMITS limits in
  let availableTokens := availableTokensOf finalLimits sys in
  let '(selectedMessages, usedTokens, truncated) :=
    addPairs availableTokens (maxMessages finalLimits) (rev pre)
      (selectLatest availableTokens (latest :: rev pre)) in
  mkContext (systemMessageOf sys :: selectedMessages)
            (estimateMessageTokens (systemMessageOf sys) + usedTokens) truncated.
Proof.
  unfold buildContext. rewrite rev_app_distr. simpl.
  by destruct pre.
Qed.

(** The pair walk admits a prefix of what is left of the reversed history,
    and raises the flag only where two more messages were left. *)
Lemma addPairs_shape avail mm rest :
  forall sel used tr sel' used' tr',
  addPairs avail mm rest (sel, used, tr) = (sel', used', tr') ->
  exists taken left,
    rest = taken ++ left /\ sel' = rev taken ++ sel
    /\ (tr' = tr \/ (tr' = true /\ (2 <= length left)%nat)).
Proof.
  induction rest as [| x | a u rest IH] using pair_ind; intros sel used tr sel' used' tr' E.
  - simpl in E. simplify_eq. exists [], []. auto.
  - simpl in E. simplify_eq. exists [], [x]. auto.
  - simpl in E.
    destruct ((used + _ <=? avail) && _) eqn:Hadmit.
    + apply IH in E as (taken & left & -> & -> & Hflag).
      exists (a :: u :: taken), left. split; [done|]. split; [|done].
      simpl. by rewrite <- !app_assoc.
    + simplify_eq. exists [], (a :: u :: rest). simpl. split; [done|].
      split; [done|]. right. split; [done|lia].
Qed.

Lemma addPairs_flag avail mm rest :
  forall sel used sel' used' tr',
  addPairs avail mm rest (sel, used, true) = (sel', used', tr') -> tr' = true.
Proof.
  intros sel used sel' used' tr' E.
  apply addPairs_shape in E as (? & ? & _ & _ & [?|[? _]]); done.
Qed.

(** The token count after the walk: unchanged, or within the budget. *)
Lemma addPairs_tokens avail mm rest :
  forall sel used tr sel' used' tr',
  addPairs avail mm rest (sel, used, tr) = (sel', used', tr') ->
  used' = used \/ used' <= avail.
Proof.
  induction rest as [| x | a u rest IH] using pair_ind; intros sel used tr sel' used' tr' E.
  - simpl in E. simplify_eq. auto.
  - simpl in E. simplify_eq. auto.
  - simpl in E.
    destruct ((used + _ <=? avail) && _) eqn:Hadmit.
    + apply andb_prop in Hadmit as [Hfit _]. apply Z.leb_le in Hfit.
      apply IH in E as [->| ?]; auto.
    + simplify_eq. auto.
Qed.

(** The number of selected messages after the walk: unchanged, or within
    [maxMessages]. *)
Lemma addPairs_count avail mm rest :
  forall sel used tr sel' used' tr',
  addPairs avail mm rest (sel, used, tr) = (sel', used', tr') ->
  length sel' = length sel \/ Z.of_nat (length sel') <= mm.
Proof.
  induction rest as [| x | a u rest IH] using pair_ind; intros sel used tr sel' used' tr' E.
  - simpl in E. simplify_eq. auto.
  - simpl in E. simplify_eq. auto.
  - simpl in E.
    destruct ((used + _ <=? avail) && _) eqn:Hadmit.
    + apply andb_prop in Hadmit as [_ Hfit]. apply Z.leb_le in Hfit.
      apply IH in E as [E| ?]; [|auto]. right. rewrite E. simpl. lia.
    + simplify_eq. auto.
Qed.


(** The characters of a prefix of a text, read in the text. *)
Lemma text_split text k :
  text = str (take k (chars text)) +:+ str (drop k (chars text)).
Proof. by rewrite <- str_app, take_drop, str_chars. Qed.

Lemma strlen_take text k :
  (k <= length (chars text))%nat -> strlen (str (take k (chars text))) = Z.of_nat k.
Proof. intros Hk. rewrite strlen_str, length_take. lia. Qed.

(** What [truncateText] returns for a text longer than its budget of
    [maxChars] characters: a prefix of the text followed by an ellipsis,
    the prefix ending before the last space of the budget when that space
    lies beyond 80% of the budget, and at the budget otherwise. *)
Lemma truncateText_cut text maxTokens :
  let maxChars := maxTokens * 4 in
  maxChars < strlen text ->
  exists kept rest,
    truncateText text maxTokens = kept +:+ "..."
    /\ text = kept +:+ rest
    /\ ((4 * maxChars < 5 * strlen kept /\ strlen kept < maxChars
         /\ String.get (Z.to_nat (strlen kept)) text = Some " "%char
         /\ forall q, strlen kept < q < maxChars ->
                      String.get (Z.to_nat q) text <> Some " "%char)
        \/ (strlen kept = Z.max maxChars 0
            /\ forall q, 0 <= q < maxChars -> 4 * maxChars < 5 * q ->
                         String.get (Z.to_nat q) text <> Some " "%char)).
Proof.
  intros maxChars Hlong. unfold truncateText. fold maxChars.
  destruct (strlen text <=? maxChars) eqn:E; [apply Z.leb_le in E; lia|clear E].
  rewrite strlen_chars in Hlong.
  set (n := Z.to_nat maxChars).
  assert (Hn : (n <= length (chars text))%nat) by lia.
  pose proof (lastIndexOf_spec (substring text 0 maxChars) " "%char) as Hlast.
  simpl in Hlast. rewrite chars_substring_0 in Hlast. fold n in Hlast.
  rewrite (substring_0 text maxChars) in *. fold n in Hlast |- *.
  rewrite strlen_take in Hlast by done.
  set (r := lastIndexOf (str (take n (chars text))) " "%char) in *.
  assert (Hhard : (r = -1 \/ 5 * r <= 4 * maxChars) ->
     strlen (str (take n (chars text))) = Z.max maxChars 0
     /\ forall q, 0 <= q < maxChars -> 4 * maxChars < 5 * q ->
                  String.get (Z.to_nat q) text <> Some " "%char).
  { intros Hr. split; [rewrite strlen_take by done; lia|].
    intros q Hq Hq80. rewrite get_chars. intros Hget.
    assert (Hin : take n (chars text) !! Z.to_nat q = Some " "%char).
    { rewrite lookup_take_lt by lia. done. }
    destruct Hlast as [[_ Hnot]|(Hrange & _ & Hafter)].
    - apply Hnot. by eapply list_elem_of_lookup_2.
    - destruct Hr as [?|Hr]; [lia|].
      apply (Hafter (Z.to_nat q)); [lia|done]. }
  destruct (4 * maxChars <? 5 * r) eqn:Hcmp.
  - apply Z.ltb_lt in Hcmp.
    destruct Hlast as [[Hr _]|(Hrange & Hget & Hafter)].
    + (* no space, and a negative budget: the prefix is empty *)
      rewrite Hr in *. exists "", text. split; [by rewrite substring_0|].
      split; [done|]. right. split; [unfold strlen; simpl; lia|].
      intros q Hq _. lia.
    + exists (str (take (Z.to_nat r) (chars text))), (str (drop (Z.to_nat r) (chars text))).
      rewrite substring_0, chars_str, take_take.
      replace (Z.to_nat r `min` n)%nat with (Z.to_nat r) by lia.
      split; [done|]. split; [apply text_split|]. left.
      rewrite strlen_take by lia. rewrite Z2Nat.id by lia.
      split; [done|]. split; [lia|]. split.
      * rewrite get_chars. rewrite lookup_take_lt in Hget by lia. done.
      * intros q Hq. rewrite get_chars. intros Hq'.
        apply (Hafter (Z.to_nat q)); [lia|]. by rewrite lookup_take_lt by lia.
  - apply Z.ltb_ge in Hcmp.
    exists (str (take n (chars text))), (str (drop n (chars text))).
    split; [done|]. split; [apply text_split|]. right. apply Hhard. lia.
Qed.


Lemma selectLatest_user avail latest rest :
  role latest = user ->
  selectLatest avail (latest :: rest) =
  if estimateMessageTokens latest <=? avail
  then ([latest], estimateMessageTokens latest, false)
  else ([mkMessage user (truncateText (content latest) (avail - 10))],
        estimateTokens (truncateText (content latest) (avail - 10)) + 10, true).
Proof. intros Hrole. unfold selectLatest. by rewrite Hrole. Qed.

Lemma selectLatest_not_user avail latest rest :
  role latest <> user -> selectLatest avail (latest :: rest) = ([], 0, false).
Proof. intros Hrole. unfold selectLatest. by destruct (role latest). Qed.

(** C4, as amended. The most recent message of a history, when its role is
    user, is the last message of the context built: unchanged when its
    estimate fits [availableTokens]; otherwise the flag [truncated] is set
    and the content is a prefix of the original followed by an ellipsis,
    the prefix ending at the last space of the character budget when that
    space lies beyond 80% of the budget, and at the budget otherwise. *)
Theorem buildContext_latest_user pre latest sys limits :
  role latest = user ->
  let availableTokens := availableTokensOf (spread DEFAULT_LIMITS limits) sys in
  let ctx := buildContext (pre ++ [latest]) sys limits in
  let maxChars := (availableTokens - 10) * 4 in
  let text := content latest in
  (estimateMessageTokens latest <= availableTokens ->
     last (messages ctx) = Some latest)
  /\ (availableTokens < estimateMessageTokens latest ->
      truncated ctx = true
      /\ exists kept rest,
           last (messages ctx) = Some (mkMessage user (kept +:+ "..."))
           /\ text = kept +:+ rest
           /\ ((4 * maxChars < 5 * strlen kept /\ strlen kept < maxChars
                /\ String.get (Z.to_nat (strlen kept)) text = Some " "%char
                /\ forall q, strlen kept < q < maxChars ->
                             String.get (Z.to_nat q) text <> Some " "%char)
               \/ (strlen kept = Z.max maxChars 0
                   /\ forall q, 0 <= q < maxChars -> 4 * maxChars < 5 * q ->
                                String.get (Z.to_nat q) text <> Some " "%char))).
Proof.
  intros Hrole avail ctx maxChars text.
  subst ctx. rewrite buildContext_snoc. cbv zeta. fold avail.
  rewrite selectLatest_user by done.
  split.
  - intros Hfit. apply Z.leb_le in Hfit. rewrite Hfit.
    destruct (addPairs _ _ _ _) as [[sel used] tr] eqn:E.
    apply addPairs_shape in E as (taken & left & _ & -> & _). simpl.
    by rewrite app_comm_cons, last_snoc.
  - intros Hover.
    destruct (estimateMessageTokens latest <=? avail) eqn:Hfit;
      [apply Z.leb_le in Hfit; lia|].
    destruct (addPairs _ _ _ _) as [[sel used] tr] eqn:E.
    pose proof (addPairs_flag _ _ _ _ _ _ _ _ E) as ->.
    apply addPairs_shape in E as (taken & left & _ & -> & _). simpl.
    split; [done|].
    destruct (truncateText_cut text (avail - 10)) as (kept & rest & Hcut & Htext & Hwhere).
    { unfold estimateMessageTokens, estimateTokens in Hover.
      pose proof (ceil_div4_spec (strlen (content latest))). subst text. lia. }
    exists kept, rest. fold text. rewrite Hcut.
    split; [by rewrite app_comm_cons, last_snoc|]. done.
Qed.

Lemma buildContext_latest_user_witness :
  role Examples.longQuestion = user
  /\ truncated (buildContext [Examples.longQuestion] "" Examples.tightLimits) = true
  /\ last (messages (buildContext [Examples.longQuestion] "" Examples.tightLimits))
     = Some (mkMessage user "please summarise the quarterly report...").
Proof.
  pose proof (buildContext_latest_user [] Examples.longQuestion ""
                Examples.tightLimits eq_refl) as [_ H].
  split; [reflexivity|].
  split; [apply H; vm_compute; reflexivity|vm_compute; reflexivity].
Defined.

(** C4 as stated fails: with a budget of 40 characters and spaces at
    positions 6 and 37 the code cuts at 37, the last space of the budget,
    which lies beyond 80% of it; the last space before 80% is at 6. With a
    single space at position 6 the code cuts hard at 40. *)
Lemma buildContext_truncation_counterexample :
  availableTokensOf (spread DEFAULT_LIMITS Examples.tightLimits) "" - 10 = 10
  /\ (last (messages (buildContext [mkMessage user Examples.twoSpaces] ""
                                   Examples.tightLimits))
      = Some (mkMessage user "please summarise-the-quarterly-report...")
      /\ truncationBefore80 Examples.twoSpaces 40 = "please..."
      /\ last (messages (buildContext [mkMessage user Examples.twoSpaces] ""
                                      Examples.tightLimits))
         <> Some (mkMessage user (truncationBefore80 Examples.twoSpaces 40)))
  /\ (last (messages (buildContext [mkMessage user Examples.oneSpace] ""
                                   Examples.tightLimits))
      = Some (mkMessage user "please summarise-the-quarterly-report-fo...")
      /\ truncationBefore80 Examples.oneSpace 40 = "please..."
      /\ last (messages (buildContext [mkMessage user Examples.oneSpace] ""
                                      Examples.tightLimits))
         <> Some (mkMessage user (truncationBefore80 Examples.oneSpace 40))).
Proof. vm_compute. repeat split; discriminate. Qed.

(** C10. When the most recent message of a history has role assistant,
    the context built is the system message followed by a suffix of the
    history without that message, so the message itself is never part of
    it; and the flag [truncated] is set only when at least two older
    messages were left out as well. *)
Theorem buildContext_latest_assistant_dropped pre latest sys limits :
  role latest = assistant ->
  let ctx := buildContext (pre ++ [latest]) sys limits in
  exists sel,
    messages ctx = systemMessageOf sys :: sel
    /\ sel `suffix_of` pre
    /\ (truncated ctx = true -> (length sel + 2 <= length pre)%nat).
Proof.
  intros Hrole ctx. subst ctx. rewrite buildContext_snoc. cbv zeta.
  rewrite selectLatest_not_user by (rewrite Hrole; done).
  destruct (addPairs _ _ _ _) as [[sel used] tr] eqn:E.
  apply addPairs_shape in E as (taken & left & Hrev & -> & Hflag). simpl.
  assert (Hpre : pre = rev left ++ rev taken).
  { by rewrite <- rev_app_distr, <- Hrev, rev_involutive. }
  exists (rev taken ++ []). split; [done|]. rewrite app_nil_r. split.
  - exists (rev left). done.
  - intros ->. destruct Hflag as [?|[_ Hleft]]; [done|].
    rewrite Hpre, length_app, !length_rev. lia.
Qed.

Lemma buildContext_latest_assistant_dropped_witness :
  exists sel,
    messages (buildContext (Examples.conversation 2) "sys" no_limits)
    = systemMessageOf "sys" :: sel
    /\ sel `suffix_of` (Examples.conversation 1 ++ [mkMessage user "question"])
    /\ (truncated (buildContext (Examples.conversation 2) "sys" no_limits) = true ->
        (length sel + 2
         <= length (Examples.conversation 1 ++ [mkMessage user "question"]))%nat).
Proof.
  exact (buildContext_latest_assistant_dropped
           (Examples.conversation 1 ++ [mkMessage user "question"])
           (mkMessage assistant "answer") "sys" no_limits eq_refl).
Defined.


(** The pair walk adds the messages two at a time. *)
Lemma addPairs_pairs avail mm rest :
  forall sel used tr sel' used' tr',
  addPairs avail mm rest (sel, used, tr) = (sel', used', tr') ->
  exists n, length sel' = (length sel + 2 * n)%nat.
Proof.
  induction rest as [| x | a u rest IH] using pair_ind; intros sel used tr sel' used' tr' E.
  - simpl in E. simplify_eq. exists 0%nat. lia.
  - simpl in E. simplify_eq. exists 0%nat. lia.
  - simpl in E.
    destruct ((used + _ <=? avail) && _) eqn:Hadmit.
    + apply IH in E as [n E]. exists (S n). rewrite E. simpl. lia.
    + simplify_eq. exists 0%nat. lia.
Qed.

(** C5, as amended. The context built starts with the system message,
    which is always included. When the most recent message is a user
    message and [maxMessages] is even and at least 2, the array of messages,
    the system message included, has at most [maxMessages] entries. And
    [totalTokens] exceeds [maxTokens - reserveTokens] only when the system
    message alone overflows the budget ([availableTokens < 0]) or the most
    recent message is a user message that alone overflows it. *)
Theorem buildContext_bounds msgs sys limits :
  let finalLimits := spread DEFAULT_LIMITS limits in
  let availableTokens := availableTokensOf finalLimits sys in
  let ctx := buildContext msgs sys limits in
  (exists sel, messages ctx = systemMessageOf sys :: sel)
  /\ (forall latest,
        last msgs = Some latest -> role latest = user ->
        Z.even (maxMessages finalLimits) = true -> 2 <= maxMessages finalLimits ->
        Z.of_nat (length (messages ctx)) <= maxMessages finalLimits)
  /\ (maxTokens finalLimits - reserveTokens finalLimits < totalTokens ctx ->
      availableTokens < 0
      \/ exists latest,
           last msgs = Some latest /\ role latest = user
           /\ availableTokens < estimateMessageTokens latest).
Proof.
  intros finalLimits avail ctx. subst ctx.
  destruct msgs as [|latest pre _] using rev_ind.
  { change (buildContext [] sys limits)
      with (mkContext [systemMessageOf sys]
                      (estimateMessageTokens (systemMessageOf sys)) false).
    cbn [messages totalTokens].
    split; [by exists []|]. split; [done|].
    intros Hover. left. subst avail. unfold availableTokensOf. lia. }
  rewrite buildContext_snoc. cbv zeta. fold finalLimits. fold avail.
  rewrite last_snoc.
  assert (Hbudget : maxTokens finalLimits - reserveTokens finalLimits
                    = estimateMessageTokens (systemMessageOf sys) + avail).
  { subst avail. unfold availableTokensOf. lia. }
  destruct (selectLatest avail (latest :: rev pre)) as [[sel0 used0] tr0] eqn:E0.
  assert (H0 : (role latest = user -> length sel0 = 1%nat)
               /\ (avail < used0 ->
                   avail < 0 \/ (role latest = user /\ avail < estimateMessageTokens latest))).
  { destruct (decide (role latest = user)) as [Hrole|Hrole].
    - rewrite selectLatest_user in E0 by done.
      destruct (estimateMessageTokens latest <=? avail) eqn:Hfit; simplify_eq; simpl.
      + apply Z.leb_le in Hfit. split; [done|]. lia.
      + apply Z.leb_gt in Hfit. split; [done|]. auto.
    - rewrite selectLatest_not_user in E0 by done. simplify_eq. simpl.
      split; [done|]. auto. }
  destruct H0 as [Hlen0 Hused0].
  destruct (addPairs _ _ _ _) as [[sel used] tr] eqn:E.
  cbn [messages totalTokens].
  pose proof (addPairs_tokens _ _ _ _ _ _ _ _ _ E) as Htok.
  pose proof (addPairs_count _ _ _ _ _ _ _ _ _ E) as Hcnt.
  pose proof (addPairs_pairs _ _ _ _ _ _ _ _ _ E) as [n Hpairs].
  split; [by exists sel|]. split.
  - intros latest' [= <-] Hrole Heven Hmm.
    apply Z.even_spec in Heven as [k Hk].
    rewrite Hlen0 in Hcnt, Hpairs by done.
    cbn [length]. lia.
  - intros Hover.
    destruct Htok as [->|Hle]; [|lia].
    destruct Hused0 as [?|[? ?]]; [lia|by left|]. right. by exists latest.
Qed.

(** How far the forced case can overflow: the truncated message is at most
    one token above what was available to it, so the context exceeds
    [maxTokens - reserveTokens] by one token at most when at least 10
    tokens were available. *)
Lemma buildContext_forced_overflow pre latest sys limits :
  role latest = user ->
  let finalLimits := spread DEFAULT_LIMITS limits in
  let availableTokens := availableTokensOf finalLimits sys in
  10 <= availableTokens < estimateMessageTokens latest ->
  totalTokens (buildContext (pre ++ [latest]) sys limits)
  <= maxTokens finalLimits - reserveTokens finalLimits + 1.
Proof.
  intros Hrole finalLimits avail [Havail Hover].
  rewrite buildContext_snoc. cbv zeta. fold finalLimits. fold avail.
  rewrite selectLatest_user by done.
  destruct (estimateMessageTokens latest <=? avail) eqn:Hfit;
    [apply Z.leb_le in Hfit; lia|].
  destruct (truncateText_cut (content latest) (avail - 10)) as (kept & rest & Hcut & _ & Hwhere).
  { unfold estimateMessageTokens, estimateTokens in Hover.
    pose proof (ceil_div4_spec (strlen (content latest))). lia. }
  assert (Hlen : strlen (truncateText (content latest) (avail - 10)) <= (avail - 10) * 4 + 3).
  { rewrite Hcut, strlen_app. change (strlen "...") with 3.
    destruct Hwhere as [(_ & ? & _)|[? _]]; lia. }
  assert (Hest : estimateTokens (truncateText (content latest) (avail - 10)) <= avail - 10 + 1).
  { unfold estimateTokens.
    pose proof (ceil_div4_spec (strlen (truncateText (content latest) (avail - 10)))). lia. }
  destruct (addPairs _ _ _ _) as [[sel used] tr] eqn:E.
  cbn [totalTokens].
  apply addPairs_tokens in E.
  subst avail. unfold availableTokensOf in *. fold finalLimits in E, Hest |- *. lia.
Qed.

Lemma buildContext_bounds_witness :
  Z.of_nat (length (messages (buildContext
                                (Examples.conversation 11 ++ [mkMessage user "question"])
                                "sys" no_limits)))
  <= maxMessages (spread DEFAULT_LIMITS no_limits)
  /\ (availableTokensOf (spread DEFAULT_LIMITS Examples.tightLimits) "" < 0
      \/ exists latest,
           last [mkMessage user Examples.oneSpace] = Some latest /\ role latest = user
           /\ availableTokensOf (spread DEFAULT_LIMITS Examples.tightLimits) ""
              < estimateMessageTokens latest).
Proof.
  split.
  - destruct (buildContext_bounds
                (Examples.conversation 11 ++ [mkMessage user "question"]) "sys" no_limits)
      as (_ & Hcount & _).
    apply (Hcount (mkMessage user "question")).
    + apply last_snoc.
    + reflexivity.
    + reflexivity.
    + vm_compute. discriminate.
  - destruct (buildContext_bounds [mkMessage user Examples.oneSpace] ""
                Examples.tightLimits) as (_ & _ & Hover).
    apply Hover. vm_compute. reflexivity.
Defined.

(** C5 as stated fails. With the default limits ([maxMessages = 20]) and a
    history of eleven question and answer turns, the context holds 21
    messages, and [validateContext] rejects it under the same limits. And
    with an empty history, a system prompt larger than the budget gives a
    [totalTokens] above [maxTokens - reserveTokens] although there is no
    user message at all. *)
Lemma buildContext_bounds_counterexample :
  (maxMessages (spread DEFAULT_LIMITS no_limits) = 20
   /\ length (messages (buildContext (Examples.conversation 11) "sys" no_limits)) = 21%nat
   /\ maxMessages (spread DEFAULT_LIMITS no_limits)
      < Z.of_nat (length (messages (buildContext (Examples.conversation 11) "sys"
                                                 no_limits)))
   /\ validateContext (buildContext (Examples.conversation 11) "sys" no_limits)
                      (spread DEFAULT_LIMITS no_limits) = false)
  /\ (maxTokens (spread DEFAULT_LIMITS Examples.tightLimits)
      - reserveTokens (spread DEFAULT_LIMITS Examples.tightLimits) = 30
      /\ totalTokens (buildContext [] Examples.longPrompt Examples.tightLimits) = 32
      /\ maxTokens (spread DEFAULT_LIMITS Examples.tightLimits)
         - reserveTokens (spread DEFAULT_LIMITS Examples.tightLimits)
         < totalTokens (buildContext [] Examples.longPrompt Examples.tightLimits)).
Proof. vm_compute. repeat split. Qed.

End ContextManagerFacts.
(** ** Storage keys *)

Module KeyFacts.
Import JS JSFacts FolderRAG Statements.

Lemma pretty_N_char_digit x : is_digit (pretty_N_char x) = true.
Proof. unfold pretty_N_char. by repeat case_match. Qed.

Lemma all_digits_app d1 d2 :
  all_digits d1 = true -> all_digits d2 = true -> all_digits (d1 +:+ d2) = true.
Proof.
  induction d1 as [|c d1 IH]; [done|].
  change (String c d1 +:+ d2) with (String c (d1 +:+ d2)). simpl.
  intros [? ?]%andb_prop ?. apply andb_true_intro. auto.
Qed.

(** The digits written by [pretty_N_go] in front of its accumulator. *)
Lemma pretty_N_go_digits x :
  forall s, exists d,
    pretty_N_go x s = d +:+ s /\ all_digits d = true
    /\ ((0 < x)%N -> d <> "").
Proof.
  induction (N.lt_wf_0 x) as [x _ IH]; intros s.
  destruct (decide (x = 0%N)) as [->|Hx].
  { exists "". rewrite pretty_N_go_0. split; [done|]. split; [done|]. lia. }
  rewrite pretty_N_go_step by lia.
  destruct (IH (x `div` 10)%N ltac:(apply N.div_lt; lia)
               (String (pretty_N_char (x `mod` 10)) s)) as (d & -> & Hd & _).
  exists (d +:+ String (pretty_N_char (x `mod` 10)) "").
  split; [|split].
  - clear. induction d as [|c d IH]; [done|].
    change (String c d +:+ ?t) with (String c (d +:+ t)). by rewrite IH.
  - apply all_digits_app; [done|]. simpl. by rewrite pretty_N_char_digit.
  - intros _. by destruct d.
Qed.

(** A folder id is printed as a non-empty run of digits, after a minus sign
    when it is negative. *)
Lemma pretty_Z_shape (z : Z) :
  exists d, all_digits d = true /\ d <> ""
            /\ pretty z = (if z <? 0 then "-" +:+ d else d).
Proof.
  assert (Hpos : forall p : positive,
             exists d, all_digits d = true /\ d <> "" /\ pretty p = d).
  { intros p. unfold pretty, pretty_positive, pretty, pretty_N.
    rewrite decide_False by done.
    destruct (pretty_N_go_digits (N.pos p) "") as (d & -> & Hd & Hne).
    exists (d +:+ ""). split; [by apply all_digits_app|]. split; [|done].
    specialize (Hne ltac:(lia)). by destruct d. }
  destruct z as [|p|p]; simpl.
  - exists "0". done.
  - destruct (Hpos p) as (d & ? & ? & ?). by exists d.
  - destruct (Hpos p) as (d & ? & ? & E). exists d.
    split; [done|]. split; [done|].
    unfold pretty, pretty_Z. fold (pretty p). by rewrite E.
Qed.

Lemma digits_dash_inj d1 :
  forall d2 u1 u2,
  all_digits d1 = true -> all_digits d2 = true ->
  d1 +:+ "-" +:+ u1 = d2 +:+ "-" +:+ u2 -> d1 = d2 /\ u1 = u2.
Proof.
  induction d1 as [|c d1 IH]; intros [|c' d2] u1 u2 H1 H2 E.
  - by simplify_eq.
  - exfalso. simpl in H2. apply andb_prop in H2 as [H2 _].
    change (String c' d2 +:+ ?t) with (String c' (d2 +:+ t)) in E.
    change ("" +:+ ?t) with t in E.
    change ("-" +:+ ?t) with (String "-"%char t) in E. by simplify_eq.
  - exfalso. simpl in H1. apply andb_prop in H1 as [H1 _].
    change (String c d1 +:+ ?t) with (String c (d1 +:+ t)) in E.
    change ("" +:+ ?t) with t in E.
    change ("-" +:+ ?t) with (String "-"%char t) in E. by simplify_eq.
  - simpl in H1, H2. apply andb_prop in H1 as [_ H1]. apply andb_prop in H2 as [_ H2].
    change (String c d1 +:+ ?t) with (String c (d1 +:+ t)) in E.
    change (String c' d2 +:+ ?t) with (String c' (d2 +:+ t)) in E.
    injection E as -> E. apply IH in E as [-> ->]; done.
Qed.

(** Two scopes have the same key under a prefix only when they are the
    same scope. *)
Lemma scopeKey_inj prefix f1 u1 f2 u2 :
  scopeKey prefix f1 u1 = scopeKey prefix f2 u2 -> f1 = f2 /\ u1 = u2.
Proof.
  unfold scopeKey. intros E%(inj (String.app prefix)).
  destruct (pretty_Z_shape f1) as (d1 & Hd1 & Hne1 & E1).
  destruct (pretty_Z_shape f2) as (d2 & Hd2 & Hne2 & E2).
  assert (Hsame : pretty f1 = pretty f2 /\ u1 = u2).
  { rewrite E1, E2 in *.
    destruct (f1 <? 0), (f2 <? 0).
    - change (("-" +:+ ?d) +:+ ?t) with (String "-"%char (d +:+ t)) in E.
      injection E as E. apply digits_dash_inj in E as [-> ->]; done.
    - exfalso. destruct d2 as [|c d2]; [done|].
      simpl in Hd2. apply andb_prop in Hd2 as [Hc _].
      change (("-" +:+ ?d) +:+ ?t) with (String "-"%char (d +:+ t)) in E.
      change (String c d2 +:+ ?t) with (String c (d2 +:+ t)) in E.
      by simplify_eq.
    - exfalso. destruct d1 as [|c d1]; [done|].
      simpl in Hd1. apply andb_prop in Hd1 as [Hc _].
      change (("-" +:+ ?d) +:+ ?t) with (String "-"%char (d +:+ t)) in E.
      change (String c d1 +:+ ?t) with (String c (d1 +:+ t)) in E.
      by simplify_eq.
    - apply digits_dash_inj in E as [-> ->]; done. }
  destruct Hsame as [Hp ->]. split; [|done]. by apply (inj pretty).
Qed.

End KeyFacts.
(** ** The folder RAG service: storage and search *)

Module FolderRAGFacts.
Import JS JSFacts FolderRAG Statements KeyFacts.

(** *** The invariants of the store *)

Lemma elem_of_insertByKey {V} (x y : string * V) l :
  y ∈ insertByKey x l <-> y = x \/ y ∈ l.
Proof.
  induction l as [|z l IH]; simpl.
  { rewrite list_elem_of_singleton. split; [by left|]. by intros [?|?%not_elem_of_nil]. }
  destruct (String.leb x.1 z.1).
  - by rewrite elem_of_cons.
  - rewrite !elem_of_cons, IH. tauto.
Qed.

(** The records read from an object store are those of the store. *)
Lemma elem_of_recordsByKey {V} (m : gmap string V) k x :
  (k, x) ∈ recordsByKey m <-> m !! k = Some x.
Proof.
  unfold recordsByKey. rewrite <- elem_of_map_to_list.
  induction (map_to_list m) as [|y l IH]; simpl; [done|].
  rewrite elem_of_insertByKey, elem_of_cons, IH. done.
Qed.

Lemma lookup_foldr_delete {V} (m : gmap string V) ks k v :
  foldr delete m ks !! k = Some v -> m !! k = Some v.
Proof.
  induction ks as [|k' ks IH]; simpl; [done|].
  intros H. apply lookup_delete_Some in H as [_ H]. auto.
Qed.

Lemma graphs_keyed_alt s :
  graphs_keyed s <->
  forall k g, graphsOf s !! k = Some g -> k = pretty (graph_folderId g) +:+ "-graph".
Proof.
  unfold graphs_keyed, graphsOf. split.
  - intros H k g. destruct (database s) as [db|]; [by apply H|done].
  - intros H db k g E. rewrite E in H. apply H.
Qed.

Lemma deleteDocument_memory s documentId :
  memoryStore (deleteDocument s documentId) = memoryStore s.
Proof.
  unfold deleteDocument.
  destruct (fallbackToMemory s); [done|]. by destruct (database s).
Qed.

Lemma deleteDocument_graphs s documentId :
  graphsOf (deleteDocument s documentId) = graphsOf s.
Proof.
  unfold deleteDocument, graphsOf.
  destruct (fallbackToMemory s); [done|].
  destruct (database s) eqn:E; simpl; by rewrite ?E.
Qed.

Lemma deleteDocuments_keep s (ds : list FolderDocument) :
  let s' := fold_left (fun s d => deleteDocument s (doc_id d)) ds s in
  memoryStore s' = memoryStore s /\ graphsOf s' = graphsOf s.
Proof.
  revert s. induction ds as [|d ds IH]; intros s; simpl; [done|].
  destruct (IH (deleteDocument s (doc_id d))) as [-> ->].
  by rewrite deleteDocument_memory, deleteDocument_graphs.
Qed.

Lemma store_wf_new a b : store_wf (newService a b).
Proof.
  split.
  - intros k l c H. simpl in H. by rewrite lookup_empty in H.
  - intros db k g Hdb H. simpl in Hdb.
    destruct b; simplify_eq.
Qed.

Local Ltac unfold_store :=
  unfold storeDocument, storeChunk, storeEmbedding, updateKnowledgeGraph,
    storeKnowledgeGraph, withMemory, withDatabase in *.

Lemma store_wf_step s s' : step s s' -> store_wf s -> store_wf s'.
Proof.
  intros Hstep [Hc Hg].
  destruct Hstep as [s d s' E|s c s' E|s e s' E|s d cs s' E|s i|s f u].
  - (* storeDocument *)
    unfold_store. destruct (fallbackToMemory s) eqn:Hfb; simplify_option_eq.
    + split.
      * intros k l c. simpl. intros Hk. apply lookup_insert_Some in Hk as [[_ ?]|[_ Hk]]; [done|].
        by apply Hc.
      * intros db k g. simpl. apply Hg.
    + split; [done|]. intros db k g. simpl. intros ? Hk. simplify_eq.
      simpl in Hk. by eapply Hg.
  - (* storeChunk *)
    unfold_store. destruct (fallbackToMemory s) eqn:Hfb; simplify_option_eq.
    + split.
      * intros k l c'. simpl. intros Hk.
        apply lookup_insert_Some in Hk as [[<- Hl]|[_ Hk]]; [|by apply Hc].
        simplify_eq. intros [Hin| ->%list_elem_of_singleton]%elem_of_app; [|done].
        unfold storedChunks in Hin.
        destruct (memoryStore s !! _) as [[]|] eqn:Hold;
          try by apply not_elem_of_nil in Hin.
        by eapply Hc.
      * intros db k g. simpl. apply Hg.
    + split; [done|]. intros db k g. simpl. intros ? Hk. simplify_eq.
      simpl in Hk. by eapply Hg.
  - (* storeEmbedding *)
    unfold_store. destruct (fallbackToMemory s) eqn:Hfb; simplify_option_eq.
    + split.
      * intros k l c. simpl. intros Hk. apply lookup_insert_Some in Hk as [[_ ?]|[_ Hk]]; [done|].
        by apply Hc.
      * intros db k g. simpl. apply Hg.
    + split; [done|]. intros db k g. simpl. intros ? Hk. simplify_eq.
      simpl in Hk. by eapply Hg.
  - (* updateKnowledgeGraph *)
    unfold_store. destruct (fallbackToMemory s) eqn:Hfb; simplify_option_eq.
    + split.
      * intros k l c. simpl. intros Hk. apply lookup_insert_Some in Hk as [[_ ?]|[_ Hk]]; [done|].
        by apply Hc.
      * intros db k g. simpl. apply Hg.
    + split; [done|]. intros db k g. simpl. intros ? Hk. simplify_eq.
      simpl in Hk. apply lookup_insert_Some in Hk as [[<- <-]|[_ Hk]]; [done|].
      by eapply Hg.
  - (* deleteDocument *)
    split.
    + unfold chunks_keyed. rewrite deleteDocument_memory. apply Hc.
    + apply graphs_keyed_alt. rewrite deleteDocument_graphs. by apply graphs_keyed_alt.
  - (* cleanupFolder *)
    unfold cleanupFolder. destruct (fallbackToMemory s) eqn:Hfb.
    + split.
      * intros k l c. unfold withMemory. simpl. intros Hk.
        apply Hc. repeat (apply lookup_delete_Some in Hk as [_ Hk]). done.
      * intros db k g. unfold withMemory. simpl. apply Hg.
    + destruct (database s) as [db|] eqn:Hdb; [|done].
      pose proof (deleteDocuments_keep s (getDocuments s f u)) as [Hm Hgr].
      simpl in Hm, Hgr.
      set (s1 := fold_left _ _ s) in *.
      assert (Hg1 : forall k g, graphsOf s1 !! k = Some g ->
                                k = pretty (graph_folderId g) +:+ "-graph").
      { rewrite Hgr. by apply graphs_keyed_alt. }
      destruct (database s1) as [db1|] eqn:Hdb1.
      * split.
        -- unfold chunks_keyed, withDatabase. simpl. rewrite Hm. apply Hc.
        -- intros db' k g. unfold withDatabase. simpl. intros ? Hk. simplify_eq.
           simpl in Hk. apply lookup_foldr_delete in Hk.
           apply Hg1. unfold graphsOf. by rewrite Hdb1.
      * split.
        -- unfold chunks_keyed. rewrite Hm. apply Hc.
        -- apply graphs_keyed_alt. done.
Qed.

Lemma reachable_wf s : reachable s -> store_wf s.
Proof.
  induction 1 as [a b|s s' _ IH Hstep]; [apply store_wf_new|].
  by eapply store_wf_step.
Qed.


Lemma store_typed_step s s' : step s s' -> store_typed s -> store_typed s'.
Proof.
  intros Hstep Ht.
  destruct Hstep as [s d s' E|s c s' E|s e s' E|s d cs s' E|s i|s f u].
  1-4: unfold_store; destruct (fallbackToMemory s) eqn:Hfb; simplify_option_eq;
       intros k v; simpl; try apply Ht;
       (intros [[<- <-]|[_ Hk]]%lookup_insert_Some; [|by apply Ht]);
       by eexists _, _.
  - unfold store_typed. rewrite deleteDocument_memory. apply Ht.
  - unfold cleanupFolder. destruct (fallbackToMemory s) eqn:Hfb.
    + intros k v. unfold withMemory. simpl. intros Hk.
      apply Ht. repeat (apply lookup_delete_Some in Hk as [_ Hk]). done.
    + destruct (database s) as [db|] eqn:Hdb; [|done].
      pose proof (deleteDocuments_keep s (getDocuments s f u)) as [Hm _].
      simpl in Hm. set (s1 := fold_left _ _ s) in *.
      destruct (database s1); unfold store_typed, withDatabase; simpl;
        rewrite Hm; apply Ht.
Qed.

Lemma reachable_typed s : reachable s -> store_typed s.
Proof.
  induction 1 as [a b|s s' _ IH Hstep].
  - intros k v H. simpl in H. by rewrite lookup_empty in H.
  - by eapply store_typed_step.
Qed.

Lemma scopeKey_head c prefix folderId userId :
  scopeKey (String c prefix) folderId userId
  = String c (scopeKey prefix folderId userId).
Proof. reflexivity. Qed.

(** In the states the service can reach, what a read of [memoryStore]
    finds under the key of a kind is a value of that kind. *)
Lemma memoryStore_reads_typed s folderId userId v :
  reachable s ->
  (memoryStore s !! scopeKey "docs-" folderId userId = Some v ->
     exists l, v = StoredDocuments l)
  /\ (memoryStore s !! scopeKey "chunks-" folderId userId = Some v ->
        exists l, v = StoredChunks l)
  /\ (memoryStore s !! scopeKey "embeddings-" folderId userId = Some v ->
        exists l, v = StoredEmbeddings l)
  /\ (memoryStore s !! scopeKey "graph-" folderId userId = Some v ->
        exists g, v = StoredGraph g).
Proof.
  intros Hs. apply reachable_typed in Hs.
  repeat split; intros Hk; apply Hs in Hk as (f & u & Hk);
    destruct v; rewrite !scopeKey_head in Hk; try discriminate; eauto.
Qed.

(** *** Ingestion is a sequence of steps *)

Lemma reachable_steps s s' : reachable s -> rtc step s s' -> reachable s'.
Proof. intros Hs Hsteps. induction Hsteps; eauto using reachable_step. Qed.

Lemma storeChunks_steps cs :
  forall s s' ok, storeChunks s cs = (s', ok) -> rtc step s s'.
Proof.
  induction cs as [|chunk cs IH]; intros s s' ok E; simpl in E.
  { by simplify_eq. }
  destruct (storeChunk s chunk) as [s1|] eqn:E1; [|by simplify_eq].
  eapply rtc_l; [by eapply step_storeChunk|]. by eapply IH.
Qed.

Lemma generateEmbeddingsForChunks_steps cs draw :
  forall s, rtc step s (generateEmbeddingsForChunks s cs draw).
Proof.
  unfold generateEmbeddingsForChunks.
  induction cs as [|chunk cs IH]; intros s; simpl; [done|].
  destruct (storeEmbedding s (embeddingOf draw chunk)) as [s1|] eqn:E1; simpl.
  - eapply rtc_l; [by eapply step_storeEmbedding|]. apply IH.
  - apply IH.
Qed.

Lemma processDocumentAsync_steps s document uuid draw :
  rtc step s (processDocumentAsync s document uuid draw).
Proof.
  unfold processDocumentAsync.
  destruct (storeChunks s _) as [s1 [|]] eqn:E1.
  - etrans; [by eapply storeChunks_steps|].
    etrans; [apply generateEmbeddingsForChunks_steps|].
    destruct (updateKnowledgeGraph _ _ _) as [s3|] eqn:E3; simpl; [|done].
    apply rtc_once. by eapply step_updateKnowledgeGraph.
  - by eapply storeChunks_steps.
Qed.

Lemma addDocument_steps s folderId userId file docId uuid draw s' document :
  addDocument s folderId userId file docId uuid draw = Some (s', document) ->
  rtc step s s'.
Proof.
  unfold addDocument. intros E. simplify_option_eq.
  eapply rtc_l; [by eapply step_storeDocument|].
  apply processDocumentAsync_steps.
Qed.

Lemma ingest_reachable s folderId userId name content docId draw :
  reachable s ->
  reachable (Examples.ingest s folderId userId name content docId draw).
Proof.
  intros Hs. unfold Examples.ingest.
  destruct (addDocument _ _ _ _ _ _ _) as [[s' d]|] eqn:E; [|done].
  eapply reachable_steps; [done|]. by eapply addDocument_steps.
Qed.

Lemma twoScopes_reachable a : reachable (Examples.twoScopes a).
Proof. unfold Examples.twoScopes. repeat apply ingest_reachable. constructor. Qed.

(** *** Search *)

Lemma getChunks_scoped s folderId userId c :
  chunks_keyed s -> c ∈ getChunks s folderId userId ->
  chunk_folderId c = folderId /\ chunk_userId c = userId.
Proof.
  intros Hkeyed. unfold getChunks.
  destruct (fallbackToMemory s).
  - unfold storedChunks.
    destruct (memoryStore s !! _) as [[]|] eqn:Hk;
      try (by intros ?%not_elem_of_nil).
    intros Hin. apply (Hkeyed _ _ _ Hk) in Hin.
    apply scopeKey_inj in Hin as [-> ->]. done.
  - destruct (database s) as [db|]; [|by intros ?%not_elem_of_nil].
    unfold getAllFromIndex. rewrite list_elem_of_In, filter_In.
    intros [_ Hscope]. unfold in_scope in Hscope.
    apply andb_prop in Hscope as [Hf Hu].
    apply Z.eqb_eq in Hf. apply String.eqb_eq in Hu. done.
Qed.

Lemma searchSimilarContent_from_chunks s folderId userId query queryDraw limit r :
  r ∈ searchSimilarContent s folderId userId query queryDraw limit ->
  res_chunk r ∈ getChunks s folderId userId.
Proof.
  unfold searchSimilarContent. rewrite list_elem_of_omap.
  intros (result & _ & Hfind).
  destruct (find _ _) as [chunk|] eqn:E; [|done]. simplify_eq. simpl.
  apply find_some in E as [Hin _]. by apply list_elem_of_In.
Qed.

(** C1. In every state the service can reach, every result of
    [searchSimilarContent] is a chunk of the folder and of the user the
    search was asked for: no chunk stored under another scope is returned. *)
Theorem searchSimilarContent_scoped s folderId userId query queryDraw limit r :
  reachable s ->
  r ∈ searchSimilarContent s folderId userId query queryDraw limit ->
  chunk_folderId (res_chunk r) = folderId /\ chunk_userId (res_chunk r) = userId.
Proof.
  intros Hs Hr. apply reachable_wf in Hs as [Hkeyed _].
  eapply getChunks_scoped; [done|]. by eapply searchSimilarContent_from_chunks.
Qed.

Lemma searchSimilarContent_scoped_witness :
  exists r,
    r ∈ searchSimilarContent (Examples.twoScopes false) 1 "alice"
          "total amount due" (Examples.draw384 0.4 0) 5
    /\ chunk_folderId (res_chunk r) = 1 /\ chunk_userId (res_chunk r) = "alice".
Proof.
  assert (exists r rest,
            searchSimilarContent (Examples.twoScopes false) 1 "alice"
              "total amount due" (Examples.draw384 0.4 0) 5 = r :: rest)
    as (r & rest & E) by (vm_compute; eauto).
  exists r. split; [rewrite E; left|].
  apply (searchSimilarContent_scoped (Examples.twoScopes false) 1 "alice"
           "total amount due" (Examples.draw384 0.4 0) 5 r).
  - apply twoScopes_reachable.
  - rewrite E. left.
Defined.

Lemma sort_insert_length x l : length (sort_insert x l) = S (length l).
Proof. induction l as [|y l IH]; simpl; [done|]. destruct (comesAfter x y); simpl; lia. Qed.

Lemma sortBySimilarity_length l : length (sortBySimilarity l) = length l.
Proof.
  induction l as [|x l IH]; simpl; [done|].
  unfold sortBySimilarity in *. simpl. by rewrite sort_insert_length, IH.
Qed.

Lemma slice_to_negative {A} (l : list A) k :
  k < 0 -> slice_to l k = slice_to l (Z.max (Z.of_nat (length l) + k) 0).
Proof.
  intros Hk. unfold slice_to.
  destruct (k <? 0) eqn:E; [|apply Z.ltb_ge in E; lia].
  destruct (Z.max _ _ <? 0) eqn:E'; [apply Z.ltb_lt in E'; lia|done].
Qed.

(** C8, as amended. A search with limit 0 returns nothing, and so does a
    search in a scope without stored embeddings, whatever the limit. A
    negative limit [k] is read by [slice] from the end: the search returns
    what the limit [n + k] returns (0 when that is negative), [n] being the
    number of embeddings stored for the scope. *)
Theorem searchSimilarContent_limits s folderId userId query queryDraw :
  searchSimilarContent s folderId userId query queryDraw 0 = []
  /\ (forall k, getEmbeddings s folderId userId = [] ->
                searchSimilarContent s folderId userId query queryDraw k = [])
  /\ (forall k, k < 0 ->
        searchSimilarContent s folderId userId query queryDraw k
        = searchSimilarContent s folderId userId query queryDraw
            (Z.max (Z.of_nat (length (getEmbeddings s folderId userId)) + k) 0)).
Proof.
  split; [done|]. split.
  - intros k E. unfold searchSimilarContent. rewrite E. simpl.
    unfold slice_to. by destruct (k <? 0); simpl; rewrite take_nil.
  - intros k Hk. unfold searchSimilarContent.
    rewrite slice_to_negative by done.
    by rewrite sortBySimilarity_length, length_map.
Qed.

Lemma searchSimilarContent_limits_witness :
  searchSimilarContent (Examples.threeDocuments false) 1 "alice" "amount"
    (Examples.draw384 0.4 0) (-1)
  = searchSimilarContent (Examples.threeDocuments false) 1 "alice" "amount"
      (Examples.draw384 0.4 0) 2.
Proof.
  pose proof (searchSimilarContent_limits (Examples.threeDocuments false) 1 "alice"
                "amount" (Examples.draw384 0.4 0)) as (_ & _ & H).
  rewrite (H (-1)) by lia. f_equal.
Defined.

(** C8 as stated fails for a negative limit: in a folder with three
    embedded chunks, the limit -1 returns the two best ranked chunks, in
    memory and in IndexedDB alike. *)
Lemma searchSimilarContent_negative_limit_counterexample :
  map (fun r => chunk_documentId (res_chunk r))
      (searchSimilarContent (Examples.threeDocuments false) 1 "alice" "amount"
         (Examples.draw384 0.4 0) (-1))
  = ["doc-a"; "doc-b"]
  /\ length (searchSimilarContent (Examples.threeDocuments true) 1 "alice" "amount"
               (Examples.draw384 0.4 0) (-1)) = 2%nat.
Proof. vm_compute. split; reflexivity. Qed.


(** *** The knowledge graph *)

Lemma twoDocuments_reachable a : reachable (Examples.twoDocuments a).
Proof. unfold Examples.twoDocuments. repeat apply ingest_reachable. constructor. Qed.

(** After [updateKnowledgeGraph], the graph read back for the scope of the
    document is the graph built from that document alone. *)
Lemma updateKnowledgeGraph_get s document cs s' :
  graphs_keyed s ->
  updateKnowledgeGraph s document cs = Some s' ->
  getKnowledgeGraph s' (doc_folderId document) (doc_userId document)
  = Some (graphOf document cs).
Proof.
  intros Hkeyed E.
  unfold updateKnowledgeGraph, storeKnowledgeGraph, getKnowledgeGraph in *.
  destruct (fallbackToMemory s) eqn:Hfb.
  - simplify_eq. simpl. rewrite Hfb. by rewrite lookup_insert_eq.
  - destruct (database s) as [db|] eqn:Hdb; simplify_option_eq.
    rewrite Hfb.
    set (g := graphOf document cs).
    set (m' := <[_ := g]> (folderKnowledgeGraphs db)).
    set (l := getAllFromIndex m' _).
    assert (Hin : g ∈ l).
    { subst l. unfold getAllFromIndex. rewrite list_elem_of_In, filter_In. split.
      - rewrite <- list_elem_of_In, list_elem_of_fmap. exists (graph_id g, g).
        split; [done|]. apply elem_of_recordsByKey. subst m'. by rewrite lookup_insert_eq.
      - unfold in_scope. simpl. by rewrite Z.eqb_refl, String.eqb_refl. }
    assert (Hall : forall g', g' ∈ l -> g' = g).
    { intros g'. subst l. unfold getAllFromIndex.
      rewrite list_elem_of_In, filter_In, <- list_elem_of_In, list_elem_of_fmap.
      intros [([k g''] & -> & Hk) Hscope]. simpl in *.
      apply elem_of_recordsByKey in Hk. subst m'.
      apply lookup_insert_Some in Hk as [[_ ?]|[Hne Hk]]; [done|].
      exfalso. apply Hne. apply (Hkeyed db) in Hk; [|done]. subst k.
      unfold in_scope in Hscope. apply andb_prop in Hscope as [->%Z.eqb_eq _]. done. }
    destruct l as [|g0 l']; [by apply not_elem_of_nil in Hin|].
    simpl. f_equal. apply Hall. left.
Qed.

(** C7, as amended. The knowledge graph of a scope is replaced, not
    merged: after the graph update of a document A and then of a document B
    of the same folder and user, the graph stored for the scope is the one
    built from B alone, that is the document node of B, the concept nodes of
    the chunks of B and their contains-edges. *)
Theorem updateKnowledgeGraph_replaces s docA csA docB csB s1 s2 :
  reachable s ->
  doc_folderId docA = doc_folderId docB ->
  doc_userId docA = doc_userId docB ->
  updateKnowledgeGraph s docA csA = Some s1 ->
  updateKnowledgeGraph s1 docB csB = Some s2 ->
  getKnowledgeGraph s2 (doc_folderId docB) (doc_userId docB)
  = Some (graphOf docB csB).
Proof.
  intros Hs _ _ EA EB.
  assert (Hs1 : reachable s1).
  { eapply reachable_step; [done|]. by eapply step_updateKnowledgeGraph. }
  apply reachable_wf in Hs1 as [_ Hkeyed].
  by eapply updateKnowledgeGraph_get.
Qed.

Lemma updateKnowledgeGraph_replaces_witness :
  exists s1 s2,
    updateKnowledgeGraph (Examples.twoScopes true) Examples.invoiceDocument [] = Some s1
    /\ updateKnowledgeGraph s1 Examples.minutesDocument [] = Some s2
    /\ getKnowledgeGraph s2 1 "alice" = Some (graphOf Examples.minutesDocument []).
Proof.
  destruct (updateKnowledgeGraph (Examples.twoScopes true) Examples.invoiceDocument [])
    as [s1|] eqn:E1; [|by vm_compute in E1].
  destruct (updateKnowledgeGraph s1 Examples.minutesDocument []) as [s2|] eqn:E2.
  2:{ vm_compute in E1. injection E1 as <-. by vm_compute in E2. }
  exists s1, s2. split; [done|]. split; [done|].
  exact (updateKnowledgeGraph_replaces (Examples.twoScopes true)
           Examples.invoiceDocument [] Examples.minutesDocument [] s1 s2
           (twoScopes_reachable true) eq_refl eq_refl E1 E2).
Defined.

(** C7 as stated fails: after the invoice and then the recipe were ingested
    into the folder 1 of alice, both documents are stored, but the graph of
    the folder holds the nodes and edges of the recipe only; the document
    node [doc-a] of the invoice is gone. In memory and in IndexedDB alike. *)
Lemma knowledge_graph_not_merged_counterexample :
  map doc_id (getDocuments (Examples.twoDocuments false) 1 "alice") = ["doc-a"; "doc-b"]
  /\ option_map (fun g => map node_id (graph_nodes g))
       (getKnowledgeGraph (Examples.twoDocuments false) 1 "alice")
     = Some ["doc-b"; "doc-b-chunk-0-concept-flour"; "doc-b-chunk-0-concept-sugar"]
  /\ option_map (fun g => map edge_id (graph_edges g))
       (getKnowledgeGraph (Examples.twoDocuments false) 1 "alice")
     = Some ["doc-b-contains-doc-b-chunk-0-concept-flour";
             "doc-b-contains-doc-b-chunk-0-concept-sugar"]
  /\ option_map (fun g => map node_id (graph_nodes g))
       (getKnowledgeGraph (Examples.twoDocuments true) 1 "alice")
     = Some ["doc-b"; "doc-b-chunk-0-concept-flour"; "doc-b-chunk-0-concept-sugar"].
Proof. vm_compute. repeat split. Qed.

End FolderRAGFacts.

(** ** The folder context manager *)

Module FolderContextFacts.
Import JS JSFacts ContextManager FolderRAG FolderContext.

(** The threshold handed to [buildRAGContext] is never read. *)
Lemma buildRAGContext_threshold_unused svc folderId userId query queryDraw maxTokens t1 t2 :
  buildRAGContext svc folderId userId query queryDraw maxTokens t1
  = buildRAGContext svc folderId userId query queryDraw maxTokens t2.
Proof. reflexivity. Qed.

(** C6, at the failing input. Folder 1 is configured with a similarity
    threshold of 0.9; the only chunk of the folder, the invoice, has
    similarity 0.8 to the query, below the threshold; the RAG context built
    for the folder contains the chunk all the same, because the retrieval
    compares with the constant 0.7. *)
Theorem buildRAGContext_below_configured_threshold :
  let config := getFolderConfig Examples.strictManager 1 in
  let results :=
    searchSimilarContent (Examples.twoScopes false) 1 "alice" "total amount due"
      (Examples.draw384 0.4 0) 10 in
  includeRAGData config = true
  /\ ragSimilarityThreshold config = 0.9%float
  /\ map res_similarity results = [0.8%float]
  /\ forallb (fun r => (res_similarity r <? ragSimilarityThreshold config)%float) results = true
  /\ buildRAGContext (Examples.twoScopes false) 1 "alice" "total amount due"
       (Examples.draw384 0.4 0) (maxRAGTokens config) (ragSimilarityThreshold config)
     = newline +:+ "--- FOLDER CONTEXT (Folder ID: 1) ---" +:+ newline
       +:+ "--- invoice.txt ---" +:+ newline +:+ trim Examples.invoiceText +:+ newline
       +:+ "--- END FOLDER CONTEXT ---" +:+ newline.
Proof. vm_compute. repeat split. Qed.

End FolderContextFacts.
(** ** The chunker *)

Module ChunkerFacts.
Import JS JSFacts FolderRAG Statements.

Lemma str_app_assoc a b c : (a +:+ b) +:+ c = a +:+ b +:+ c.
Proof. apply chars_inj. by rewrite !chars_app, app_assoc. Qed.

Lemma nonempty_app_r a b : nonempty b = true -> nonempty (a +:+ b) = true.
Proof. destruct a; [done|]. by destruct b. Qed.

Lemma nonempty_app_l a b : nonempty a = true -> nonempty (a +:+ b) = true.
Proof. by destruct a. Qed.

Lemma join_snoc seg s :
  seg <> [] -> join " " (seg ++ [s]) = join " " seg +:+ " " +:+ s.
Proof.
  induction seg as [|x seg IH]; [done|]. intros _.
  destruct seg as [|y seg]; [done|].
  change (join " " ((x :: y :: seg) ++ [s]))
    with (x +:+ " " +:+ join " " ((y :: seg) ++ [s])).
  rewrite IH by done.
  change (join " " (x :: y :: seg)) with (x +:+ " " +:+ join " " (y :: seg)).
  by rewrite !str_app_assoc.
Qed.

Lemma join_nonempty seg :
  seg <> [] -> Forall (fun s => nonempty s = true) seg ->
  nonempty (join " " seg) = true.
Proof.
  destruct seg as [|x seg]; [done|]. intros _ Hall.
  apply Forall_cons in Hall as [Hx _].
  destruct seg; [done|]. by apply nonempty_app_l.
Qed.

Lemma splitIntoSentences_nonempty text :
  Forall (fun s => nonempty s = true) (splitIntoSentences text).
Proof.
  unfold splitIntoSentences. apply Forall_forall. intros s.
  rewrite list_elem_of_In, filter_In. intros [_ Hs]. by destruct s.
Qed.

Lemma buffersOf_snoc seed segs seg :
  buffersOf seed (segs ++ [seg])
  = buffersOf seed segs
    ++ [match segs with
        | [] => join " " seg
        | _ => seed +:+ " " +:+ join " " seg
        end].
Proof. destruct segs as [|g segs]; [done|]. simpl. by rewrite map_app. Qed.

Section Segments.
Variable cfg : ChunkConfig.
Variable document : FolderDocument.
Variable uuid : Z -> string.
Variable sentences : list string.

Let seed : string := join " " (slice_from sentences (- overlap cfg)).

Lemma chunkStep_inv segsDone seg st sentence :
  loop_inv seed segsDone seg st -> nonempty sentence = true ->
  exists segsDone' seg',
    loop_inv seed segsDone' seg' (chunkStep cfg document uuid sentences st sentence)
    /\ concat segsDone' ++ seg' = concat segsDone ++ seg ++ [sentence].
Proof.
  intros (Hchunks & Hcur & Hseg & Hdone & Hne & Hidx & Hidxs) Hs.
  assert (Hcur_ne : nonempty (currentChunk st) = true -> seg <> []).
  { destruct segsDone; [|by auto]. rewrite Hcur. by intros ? ->. }
  assert (Hne_cur : seg <> [] -> nonempty (currentChunk st) = true).
  { intros Hseg'. rewrite Hcur. destruct segsDone.
    - by apply join_nonempty.
    - by apply nonempty_app_r, nonempty_app_l. }
  unfold chunkStep.
  destruct ((maxTokens cfg <? _) && nonempty (currentChunk st)) eqn:Hemit.
  - (* the buffer is closed *)
    apply andb_prop in Hemit as [_ Hcur_nonempty].
    exists (segsDone ++ [seg]), [sentence]. split.
    + unfold loop_inv. cbn [chunks currentChunk chunkIndex].
      split; [|split; [|split; [|split; [|split; [|split]]]]].
      * rewrite map_app, buffersOf_snoc, map_app, Hchunks. cbn [map makeChunk chunk_content].
        by rewrite Hcur.
      * fold seed. by destruct segsDone.
      * done.
      * apply Forall_app. split; [done|]. apply Forall_singleton. auto.
      * by apply Forall_singleton.
      * rewrite length_app. cbn [length]. lia.
      * intros i c Hi. apply lookup_app_Some in Hi as [Hi|[Hlen Hi]]; [by apply Hidxs|].
        apply list_lookup_singleton_Some in Hi as [Hi <-].
        cbn [makeChunk chunk_chunkIndex]. lia.
    + by rewrite concat_app, <- app_assoc; simpl; rewrite app_nil_r.
  - (* the sentence is added to the buffer *)
    exists segsDone, (seg ++ [sentence]). split; [|by rewrite app_assoc].
    unfold loop_inv. cbn [chunks currentChunk chunkIndex].
    split; [done|]. split; [|split; [|split; [|split; [|split]]]]; try done.
    + destruct seg as [|x seg'] eqn:Eseg.
      * (* first sentence of the document *)
        destruct segsDone; [|by destruct Hseg]. by rewrite Hcur.
      * rewrite Hne_cur by done. rewrite <- Eseg in *.
        rewrite join_snoc by (by rewrite Eseg). rewrite Hcur.
        destruct segsDone; [done|]. by rewrite !str_app_assoc.
    + intros _. by destruct seg.
    + apply Forall_app. split; [done|]. by apply Forall_singleton.
Qed.

Lemma chunkLoop_inv todo :
  forall segsDone seg st,
  loop_inv seed segsDone seg st -> Forall (fun s => nonempty s = true) todo ->
  exists segsDone' seg',
    loop_inv seed segsDone' seg' (chunkLoop cfg document uuid sentences todo st)
    /\ concat segsDone' ++ seg' = concat segsDone ++ seg ++ todo.
Proof.
  induction todo as [|sentence todo IH]; intros segsDone seg st Hinv Htodo.
  { exists segsDone, seg. by rewrite app_nil_r. }
  apply Forall_cons in Htodo as [Hs Htodo].
  destruct (chunkStep_inv _ _ _ sentence Hinv Hs) as (segs1 & seg1 & Hinv1 & E1).
  destruct (IH _ _ _ Hinv1 Htodo) as (segs2 & seg2 & Hinv2 & E2).
  exists segs2, seg2. split; [done|].
  rewrite E2, app_assoc, E1. by rewrite <- !app_assoc.
Qed.

End Segments.


Lemma loop_inv_start seed :
  loop_inv seed [] [] (mkChunkerState "" 0 0 []).
Proof. unfold loop_inv. simpl. repeat split; done. Qed.

(** C3, as amended. The chunks of a document are, in the order of their
    [chunkIndex], the trimmed buffers of consecutive non-empty runs of its
    sentences (the non-blank pieces between runs of terminal punctuation).
    The buffer of the first run is its sentences joined by single spaces;
    the buffer of every later run is the seeded overlap text, a space, and
    its sentences joined by single spaces. The runs cover all the sentences
    in order, and the buffer of the last run is a chunk only when it is not
    blank and its estimate reaches [minChunkSize]. The chunks therefore
    give back the sentences joined by spaces, short of a dropped last run;
    the terminal punctuation and the trimmed white space are not kept. *)
Theorem chunkDocument_segments cfg document uuid :
  let sentences := splitIntoSentences (doc_content document) in
  let seed := join " " (slice_from sentences (- overlap cfg)) in
  let cs := chunkDocumentWith cfg document uuid in
  exists segs : list (list string),
    concat segs = sentences
    /\ Forall (fun seg => seg <> []) segs
    /\ map chunk_content cs = map trim (keepFlushed cfg (buffersOf seed segs))
    /\ (forall i c, cs !! i = Some c -> chunk_chunkIndex c = Z.of_nat i).
Proof.
  intros sentences seed cs. subst cs. unfold chunkDocumentWith. fold sentences.
  destruct (chunkLoop_inv cfg document uuid sentences sentences [] []
              (mkChunkerState "" 0 0 []) (loop_inv_start seed)
              (splitIntoSentences_nonempty _))
    as (segsDone & seg & Hinv & Hcover).
  simpl in Hcover. fold seed in Hinv.
  set (st := chunkLoop cfg document uuid sentences sentences _) in *.
  destruct Hinv as (Hchunks & Hcur & Hseg & Hdone & Hne & Hidx & Hidxs).
  fold seed in Hchunks, Hcur.
  destruct (decide (seg = [])) as [->|Hseg_ne].
  - (* nothing was read into the last buffer: the document has no sentence *)
    assert (segsDone = []) as -> by (destruct segsDone; [done|by destruct Hseg]).
    exists []. simpl in *. split; [done|]. split; [done|].
    unfold chunkFinish, flushes. rewrite Hcur. simpl.
    destruct (chunks st); [|done]. split; [done|]. by intros [].
  - exists (segsDone ++ [seg]).
    split; [by rewrite concat_app; simpl; rewrite app_nil_r|].
    split; [apply Forall_app; split; [done|]; by apply Forall_singleton|].
    rewrite buffersOf_snoc. unfold keepFlushed. rewrite last_snoc, <- Hcur.
    unfold chunkFinish, flushes.
    destruct (nonempty (trim (currentChunk st)) && _) eqn:Hflush.
    + split.
      * by rewrite !map_app, Hchunks.
      * intros i c Hi. apply lookup_app_Some in Hi as [Hi|[Hlen Hi]]; [by apply Hidxs|].
        apply list_lookup_singleton_Some in Hi as [Hi <-].
        cbn [makeChunk chunk_chunkIndex]. lia.
    + rewrite removelast_last. split; [done|]. apply Hidxs.
Qed.

(** C3 as stated fails. A short document gives no chunk at all, so nothing
    of its content can be put together again; and the single chunk of a
    document of twenty sentences (480 characters) holds the sentences
    without their full stops, each followed by two spaces (478
    characters), so that no part of it is the content. *)
Lemma chunkDocument_reconstruction_counterexample :
  (doc_content Examples.helloDocument = "Hello world."
   /\ chunkDocument Examples.helloDocument (fun i => pretty i) = []
   /\ ~ reconstructs (doc_content Examples.helloDocument)
                     (chunkDocument Examples.helloDocument (fun i => pretty i)))
  /\ (doc_content Examples.sentencesDocument
      = Examples.repeatText 20 "Total amount due: $500. "
      /\ map chunk_content (chunkDocument Examples.sentencesDocument (fun i => pretty i))
         = [Examples.repeatText 19 "Total amount due: $500  " +:+ "Total amount due: $500"]
      /\ ~ reconstructs (doc_content Examples.sentencesDocument)
                        (chunkDocument Examples.sentencesDocument (fun i => pretty i))).
Proof.
  split.
  - split; [reflexivity|]. split; [by vm_compute|].
    intros (rests & Hsplit & Hcontent).
    assert (E : chunkDocument Examples.helloDocument (fun i => pretty i) = [])
      by (by vm_compute).
    rewrite E in Hsplit. apply Forall2_nil_inv_l in Hsplit as ->. discriminate.
  - split; [reflexivity|]. split; [by vm_compute|].
    intros (rests & Hsplit & Hcontent).
    destruct (chunkDocument Examples.sentencesDocument (fun i => pretty i))
      as [|c [|c' cs]] eqn:E; try (by vm_compute in E).
    assert (Hlen : strlen (chunk_content c) = 478).
    { assert (E' : map (fun c => strlen (chunk_content c))
                     (chunkDocument Examples.sentencesDocument (fun i => pretty i))
                   = [478]) by (by vm_compute).
      rewrite E in E'. by injection E'. }
    apply Forall2_cons_inv_l in Hsplit as (rest & rests' & (prefix & Hc) & Hnil & ->).
    apply Forall2_nil_inv_l in Hnil as ->. simpl in Hcontent.
    assert (Hlen' : strlen rest = 480) by (rewrite Hcontent; by vm_compute).
    rewrite Hc, strlen_app in Hlen. pose proof (strlen_nonneg prefix). lia.
Qed.

(** C2, at the failing input. The document has the sentences a...a, b...b
    (1100 characters each) and then 51 sentences c. The second sentence
    overflows the buffer, which is closed as the first chunk (a...a). The
    next buffer is not seeded from that chunk: it starts with the last 50
    sentences of the whole document, c c ... c, which the first chunk does
    not contain, followed by the triggering sentence; seeded from the chunk
    just closed it would be a...a followed by the triggering sentence. *)
Theorem chunkDocument_overlap_from_document_tail :
  let sentences := splitIntoSentences (doc_content Examples.overlapDocument) in
  let seeded :=
    currentChunk (chunkLoop CHUNK_CONFIG Examples.overlapDocument (fun i => pretty i)
                    sentences (take 2 sentences) (mkChunkerState "" 0 0 [])) in
  sentences
  = Examples.repeatText 1100 "a" :: Examples.repeatText 1100 "b" :: replicate 51 "c"
  /\ seeded = join " " (replicate 50 "c") +:+ " " +:+ Examples.repeatText 1100 "b"
  /\ seeded <> Examples.repeatText 1100 "a" +:+ " " +:+ Examples.repeatText 1100 "b"
  /\ map chunk_content (chunkDocument Examples.overlapDocument (fun i => pretty i))
     = [Examples.repeatText 1100 "a";
        join " " (replicate 50 "c") +:+ " " +:+ Examples.repeatText 1100 "b"
        +:+ Examples.repeatText 51 " c"]
  /\ map chunk_startOffset (chunkDocument Examples.overlapDocument (fun i => pretty i))
     = [0; 1001].
Proof. vm_compute. repeat split. discriminate. Qed.

(** The seed of every buffer after the first is the end of the sentence
    array of the document, whatever the buffer just closed contains. *)
Lemma chunkStep_seed cfg document uuid sentences st sentence :
  (maxTokens cfg <? estimateTokens
     (currentChunk st +:+ (if nonempty (currentChunk st) then " " else "") +:+ sentence))
  && nonempty (currentChunk st) = true ->
  currentChunk (chunkStep cfg document uuid sentences st sentence)
  = join " " (slice_from sentences (- overlap cfg)) +:+ " " +:+ sentence.
Proof. intros H. unfold chunkStep. by rewrite H. Qed.

End ChunkerFacts.
(** ** The similarity function *)

Module CosineFacts.
Import FolderRAG Statements.

Section Generic.
Context {T : Type} `{Number T}.
Hypothesis mul_comm : forall x y : T, num_mul x y = num_mul y x.

Lemma dot_from_comm (a : list T) :
  forall b sum, length a = length b -> dot_from sum a b = dot_from sum b a.
Proof.
  induction a as [|x a IH]; intros [|y b] sum Hlen; simpl in *; try done.
  rewrite (mul_comm y x). apply IH. lia.
Qed.

Lemma cosineSimilarity_comm (a b : list T) :
  length a = length b -> cosineSimilarity a b = cosineSimilarity b a.
Proof.
  intros Hlen. unfold cosineSimilarity.
  by rewrite (dot_from_comm a b), (mul_comm (magnitude a)).
Qed.

End Generic.

(** The dot product of a vector with itself is the sum of its squares, in
    any arithmetic. *)
Lemma dot_from_self {T} `{Number T} (a : list T) :
  forall sum, dot_from sum a a = sumSquares_from sum a.
Proof. induction a as [|x a IH]; intros sum; simpl; [done|]. apply IH. Qed.

(** *** Binary64 arithmetic *)

Lemma SF64mul_comm x y : SF64mul x y = SF64mul y x.
Proof.
  unfold SF64mul, SFmul.
  destruct x as [sx|sx| |sx mx ex], y as [sy|sy| |sy my ey];
    try reflexivity; rewrite ?(xorb_comm sx sy); try reflexivity.
  by rewrite (Pos.mul_comm mx my), (Z.add_comm ex ey).
Qed.

Lemma float_mul_comm (x y : float) : (x * y = y * x)%float.
Proof. apply Prim2SF_inj. by rewrite !mul_spec, SF64mul_comm. Qed.

(** *** Real arithmetic: what the binary64 computation approximates *)

Import Reals Lra.

Lemma sumSquares_from_ge (a : list R) :
  forall sum : R, (sum <= sumSquares_from sum a)%R.
Proof.
  induction a as [|x a IH]; intros sum; simpl; [lra|].
  etrans; [|apply IH]. pose proof (Rle_0_sqr x) as Hx. unfold Rsqr in Hx. lra.
Qed.

Lemma sumSquares_from_pos (a : list R) :
  forall sum : R, (0 <= sum)%R -> (exists x, x ∈ a /\ x <> 0%R) ->
  (0 < sumSquares_from sum a)%R.
Proof.
  induction a as [|y a IH]; intros sum Hsum (x & Hin & Hx).
  { by apply not_elem_of_nil in Hin. }
  simpl. pose proof (Rle_0_sqr y) as Hy. unfold Rsqr in Hy.
  apply elem_of_cons in Hin as [->|Hin].
  - eapply Rlt_le_trans; [|apply sumSquares_from_ge].
    assert (0 < y * y)%R by (apply Rsqr_pos_lt in Hx; by unfold Rsqr in Hx). lra.
  - apply IH; [lra|]. by exists x.
Qed.

Lemma cosineSimilarity_self_R (a : list R) :
  (exists x, x ∈ a /\ x <> 0%R) -> cosineSimilarity a a = 1%R.
Proof.
  intros Hnz. unfold cosineSimilarity, magnitude. rewrite dot_from_self. simpl.
  pose proof (sumSquares_from_pos a 0%R ltac:(lra) Hnz) as Hpos.
  rewrite sqrt_sqrt by lra. field. lra.
Qed.

(** *** Binary64 vectors of norm close to 1 *)

Lemma cosineSimilarity_self_float (a : list float) :
  cosineSimilarity a a = selfSimilarityOf (sumSquares_from 0%float a).
Proof. unfold cosineSimilarity, magnitude. by rewrite dot_from_self. Qed.

Lemma selfSimilarityOf_nearOne k :
  0 <= k <= 4096 ->
  nearOne (selfSimilarityOf (ulpsAbove k)) = true
  /\ nearOne (selfSimilarityOf (ulpsBelow k)) = true.
Proof.
  intros Hk.
  assert (Hall : forallb (fun k => nearOne (selfSimilarityOf (ulpsAbove k))
                                   && nearOne (selfSimilarityOf (ulpsBelow k)))
                         (seqZ 0 4097) = true) by (vm_compute; reflexivity).
  rewrite forallb_forall in Hall.
  specialize (Hall k). apply andb_prop. apply Hall.
  apply list_elem_of_In, elem_of_seqZ. lia.
Qed.

(** C9. The similarity is symmetric: on two binary64 vectors of the same
    length, [cosineSimilarity a b] and [cosineSimilarity b a] are the same
    number (the same NaN when a magnitude is zero), and they compare equal
    with the IEEE equality whenever the number is not NaN. The similarity
    of a normalized binary64 vector with itself is within 2^-52 of 1. And
    in the real arithmetic that the binary64 computation rounds, the
    similarity of a non-zero vector with itself, normalized or not, is 1. *)
Theorem cosineSimilarity_symmetric_and_self :
  (forall a b : list float,
     length a = length b ->
     cosineSimilarity a b = cosineSimilarity b a
     /\ (is_nan (cosineSimilarity a b) = false ->
         (cosineSimilarity a b =? cosineSimilarity b a)%float = true))
  /\ (forall a : list float,
        normalized a -> nearOne (cosineSimilarity a a) = true)
  /\ (forall a : list R,
        (exists x, x ∈ a /\ x <> 0%R) -> cosineSimilarity a a = 1%R).
Proof.
  split; [|split].
  - intros a b Hlen.
    assert (E : cosineSimilarity a b = cosineSimilarity b a).
    { apply cosineSimilarity_comm; [apply float_mul_comm|done]. }
    split; [done|]. rewrite <- E. unfold is_nan.
    by intros ->%negb_false_iff.
  - intros a (k & Hk & Hs). rewrite cosineSimilarity_self_float.
    destruct (selfSimilarityOf_nearOne k Hk) as [Habove Hbelow].
    by destruct Hs as [-> | ->].
  - apply cosineSimilarity_self_R.
Qed.

Lemma cosineSimilarity_symmetric_and_self_witness :
  cosineSimilarity [0.6; 0.8]%float [1; 0]%float
  = cosineSimilarity [1; 0]%float [0.6; 0.8]%float
  /\ nearOne (cosineSimilarity (generateEmbedding "" Examples.unevenDraw)
                               (generateEmbedding "" Examples.unevenDraw)) = true
  /\ cosineSimilarity [3 / 5; 4 / 5]%R [3 / 5; 4 / 5]%R = 1%R.
Proof.
  destruct cosineSimilarity_symmetric_and_self as (Hsym & Hnear & Hself).
  split; [|split].
  - apply (Hsym [0.6; 0.8]%float [1; 0]%float). reflexivity.
  - apply Hnear. exists 1. split; [lia|]. left. vm_compute. reflexivity.
  - apply Hself. exists (3 / 5)%R. split; [left|lra].
Defined.

(** With a zero vector both orders give NaN, which the IEEE equality, the
    [===] of JavaScript, does not hold equal to itself. *)
Lemma cosineSimilarity_zero_vector_example :
  cosineSimilarity [0; 0]%float [1; 0]%float = nan
  /\ cosineSimilarity [1; 0]%float [0; 0]%float = nan
  /\ (nan =? nan)%float = false.
Proof. vm_compute. repeat split. Qed.

(** On binary64, the similarity of a normalized vector with itself is the
    number 1 itself for the first three vectors, and the next number above
    1 for the last. *)
Lemma cosineSimilarity_self_float_examples :
  cosineSimilarity [0.6; 0.8]%float [0.6; 0.8]%float = 1%float
  /\ cosineSimilarity (generateEmbedding "" (Examples.draw384 0.4 0.3))
                      (generateEmbedding "" (Examples.draw384 0.4 0.3)) = 1%float
  /\ cosineSimilarity (generateEmbedding "" (Examples.draw384 0.1 (-0.4)))
                      (generateEmbedding "" (Examples.draw384 0.1 (-0.4))) = 1%float
  /\ cosineSimilarity (generateEmbedding "" Examples.unevenDraw)
                      (generateEmbedding "" Examples.unevenDraw) = ulpsAbove 1.
Proof. vm_compute. repeat split. Qed.

End CosineFacts.
(** ** The context window: further properties *)

Module ContextManagerMore.
Import JS JSFacts ContextManager Statements ContextManagerFacts.

Lemma sumTokens_app l1 l2 : sumTokens (l1 ++ l2) = sumTokens l1 + sumTokens l2.
Proof.
  induction l1 as [|m l1 IH]; simpl; [lia|].
  unfold sumTokens in *. simpl. rewrite IH. lia.
Qed.

(** The pair walk in full: what it takes is a prefix of even length of the
    reversed history; it keeps the token sum of the selection; and when it
    ends without raising the flag, at most one message is left. *)
Lemma addPairs_walk avail mm rest :
  forall sel used tr sel' used' tr',
  addPairs avail mm rest (sel, used, tr) = (sel', used', tr') ->
  exists taken left,
    rest = taken ++ left /\ sel' = rev taken ++ sel
    /\ (exists n, length taken = (2 * n)%nat)
    /\ used' = sumTokens (rev taken) + used
    /\ (tr' = false -> tr = false /\ (length left <= 1)%nat).
Proof.
  induction rest as [| x | a u rest IH] using pair_ind; intros sel used tr sel' used' tr' E.
  - simpl in E. simplify_eq. exists [], [].
    split; [done|]. split; [done|]. split; [by exists 0%nat|].
    split; [simpl; lia|]. intros ->. split; [done|simpl; lia].
  - simpl in E. simplify_eq. exists [], [x].
    split; [done|]. split; [done|]. split; [by exists 0%nat|].
    split; [simpl; lia|]. intros ->. split; [done|simpl; lia].
  - simpl in E.
    destruct ((used + _ <=? avail) && _) eqn:Hfits.
    + apply IH in E as (taken & left & -> & -> & [n Hn] & -> & Hflag).
      exists (a :: u :: taken), left. split; [done|].
      split; [simpl; by rewrite <- !app_assoc|].
      split; [exists (S n); simpl; lia|]. split; [|done].
      simpl. rewrite !sumTokens_app.
      change (sumTokens [u]) with (estimateMessageTokens u + 0).
      change (sumTokens [a]) with (estimateMessageTokens a + 0). lia.
    + simplify_eq. exists [], (a :: u :: rest).
      split; [done|]. split; [done|]. split; [by exists 0%nat|].
      split; [simpl; lia|]. done.
Qed.

Lemma selectLatest_sum avail reversed sel used tr :
  selectLatest avail reversed = (sel, used, tr) -> used = sumTokens sel.
Proof.
  unfold selectLatest. destruct reversed as [|latest rest]; [intros; by simplify_eq|].
  destruct (Role_eqb _ _); [|intros; by simplify_eq].
  destruct (_ <=? _); intros; simplify_eq;
    unfold sumTokens, estimateMessageTokens; cbn [foldr content]; lia.
Qed.

(** X1. The [totalTokens] of a context is the sum of the estimates of the
    messages it holds, the system message and a truncated latest message
    included. *)
Theorem buildContext_totalTokens_sum msgs sys limits :
  totalTokens (buildContext msgs sys limits)
  = sumTokens (messages (buildContext msgs sys limits)).
Proof.
  destruct msgs as [|latest pre _] using rev_ind.
  { unfold buildContext, sumTokens. simpl. lia. }
  rewrite buildContext_snoc. cbv zeta.
  destruct (selectLatest _ _) as [[sel0 used0] tr0] eqn:E0.
  apply selectLatest_sum in E0 as ->.
  destruct (addPairs _ _ _ _) as [[sel used] tr] eqn:E.
  apply addPairs_walk in E as (taken & left & _ & -> & _ & -> & _).
  cbn [messages totalTokens].
  change (systemMessageOf sys :: rev taken ++ sel0)
    with ([systemMessageOf sys] ++ rev taken ++ sel0).
  rewrite !sumTokens_app. unfold sumTokens at 3. simpl. lia.
Qed.

(** X2. [truncateText] returns at most 3 characters more than its budget
    of [4 * maxTokens] characters (of 0 when negative), so that the
    estimate of its result exceeds [maxTokens] by one token at most. *)
Theorem truncateText_bound text maxTokens :
  strlen (truncateText text maxTokens) <= Z.max (4 * maxTokens) 0 + 3
  /\ estimateTokens (truncateText text maxTokens) <= Z.max maxTokens 0 + 1.
Proof.
  assert (Hlen : strlen (truncateText text maxTokens) <= Z.max (4 * maxTokens) 0 + 3).
  { destruct (decide (strlen text <= maxTokens * 4)) as [Hfit|Hlong].
    - unfold truncateText. apply Z.leb_le in Hfit as Hfit'. rewrite Hfit'. lia.
    - destruct (truncateText_cut text maxTokens) as (kept & rest & -> & _ & Hwhere); [lia|].
      rewrite strlen_app. change (strlen "...") with 3.
      destruct Hwhere as [(_ & ? & _)|[? _]]; lia. }
  split; [done|].
  unfold estimateTokens. pose proof (ceil_div4_spec (strlen (truncateText text maxTokens))). lia.
Qed.

(** X3. When the most recent message is a user message that fits, the
    history kept is a suffix of the history given, in its order and ending
    with that message; and when [truncated] is false, at most one message,
    the oldest, is missing from it. *)
Theorem buildContext_suffix pre latest sys limits :
  role latest = user ->
  let availableTokens := availableTokensOf (spread DEFAULT_LIMITS limits) sys in
  let ctx := buildContext (pre ++ [latest]) sys limits in
  estimateMessageTokens latest <= availableTokens ->
  exists sel,
    messages ctx = systemMessageOf sys :: sel
    /\ sel `suffix_of` (pre ++ [latest])
    /\ last sel = Some latest
    /\ (truncated ctx = false -> (length (pre ++ [latest]) <= length sel + 1)%nat).
Proof.
  intros Hrole avail ctx Hfit. subst ctx. rewrite buildContext_snoc. cbv zeta. fold avail.
  rewrite selectLatest_user by done.
  apply Z.leb_le in Hfit. rewrite Hfit.
  destruct (addPairs _ _ _ _) as [[sel used] tr] eqn:E.
  apply addPairs_walk in E as (taken & left & Hrev & -> & _ & _ & Hflag).
  cbn [messages truncated].
  assert (Hpre : pre = rev left ++ rev taken).
  { by rewrite <- rev_app_distr, <- Hrev, rev_involutive. }
  exists (rev taken ++ [latest]). split; [done|]. split; [|split].
  - exists (rev left). by rewrite Hpre, <- app_assoc.
  - apply last_snoc.
  - intros ->. destruct Hflag as [_ Hleft]; [done|].
    rewrite Hpre, !length_app, !length_rev. simpl. lia.
Qed.

Lemma buildContext_suffix_witness :
  exists sel,
    messages (buildContext (Examples.conversation 1 ++ [mkMessage user "question"])
                "sys" no_limits) = systemMessageOf "sys" :: sel
    /\ sel `suffix_of` (Examples.conversation 1 ++ [mkMessage user "question"])
    /\ last sel = Some (mkMessage user "question")
    /\ (truncated (buildContext (Examples.conversation 1 ++ [mkMessage user "question"])
                     "sys" no_limits) = false ->
        (length (Examples.conversation 1 ++ [mkMessage user "question"])
         <= length sel + 1)%nat).
Proof.
  apply (buildContext_suffix (Examples.conversation 1) (mkMessage user "question")
           "sys" no_limits eq_refl).
  vm_compute. discriminate.
Defined.

(** *** The limits of a model *)

Lemma spread_asPartial base limits : spread base (asPartial limits) = limits.
Proof. by destruct limits. Qed.

(** Whatever the model, at most 20 messages, a reserve of at least 1000
    tokens, and at least 3000 tokens left beside the reserve. *)
Lemma getModelLimits_range model :
  maxMessages (getModelLimits model) = 20
  /\ 1000 <= reserveTokens (getModelLimits model)
  /\ 3000 <= maxTokens (getModelLimits model) - reserveTokens (getModelLimits model).
Proof.
  unfold getModelLimits, modelLimits.
  repeat (destruct (String.eqb model _); [vm_compute; repeat split; discriminate|]).
  vm_compute. repeat split; discriminate.
Qed.

(** X4. A context built with the limits of a model, for a history that
    ends with a user message and a system prompt that leaves at least 10
    tokens, passes [validateContext] for that model, whatever the model. *)
Theorem buildContext_validates model pre latest sys :
  role latest = user ->
  10 <= availableTokensOf (getModelLimits model) sys ->
  validateContextFor
    (buildContext (pre ++ [latest]) sys (asPartial (getModelLimits model))) model
  = mkValidation true None.
Proof.
  intros Hrole Havail.
  destruct (getModelLimits_range model) as (Hmm & Hreserve & _).
  set (limits := getModelLimits model) in *.
  set (avail := availableTokensOf limits sys) in *.
  assert (Htotal : totalTokens (buildContext (pre ++ [latest]) sys (asPartial limits))
                   <= maxTokens limits - reserveTokens limits + 1).
  { destruct (decide (estimateMessageTokens latest <= avail)) as [Hfit|Hover].
    - rewrite buildContext_snoc. cbv zeta. rewrite spread_asPartial. fold avail.
      rewrite selectLatest_user by done.
      apply Z.leb_le in Hfit as Hfit'. rewrite Hfit'.
      destruct (addPairs _ _ _ _) as [[sel used] tr] eqn:E.
      apply addPairs_tokens in E. cbn [totalTokens].
      subst avail. unfold availableTokensOf in *. lia.
    - pose proof (buildContext_forced_overflow pre latest sys (asPartial limits) Hrole) as H.
      cbv zeta in H. rewrite spread_asPartial in H. apply H. fold avail. lia. }
  assert (Hcount : (length (messages (buildContext (pre ++ [latest]) sys (asPartial limits)))
                    <= 20)%nat).
  { rewrite buildContext_snoc. cbv zeta. rewrite spread_asPartial. fold avail.
    destruct (selectLatest avail (latest :: rev pre)) as [[sel0 used0] tr0] eqn:E0.
    assert (Hone : length sel0 = 1%nat).
    { rewrite selectLatest_user in E0 by done.
      destruct (_ <=? _); by simplify_eq. }
    destruct (addPairs _ _ _ _) as [[sel used] tr] eqn:E.
    pose proof (addPairs_count _ _ _ _ _ _ _ _ _ E) as Hcnt.
    apply addPairs_walk in E as (taken & left & _ & -> & [n Hn] & _ & _).
    cbn [messages length]. rewrite Hmm in Hcnt.
    rewrite length_app, length_rev, Hone, Hn in *. lia. }
  unfold validateContextFor. fold limits.
  destruct (maxTokens limits <? _) eqn:E1; [apply Z.ltb_lt in E1; lia|].
  destruct (maxMessages limits <? _) eqn:E2; [apply Z.ltb_lt in E2; lia|].
  done.
Qed.

Lemma buildContext_validates_witness :
  validateContextFor
    (buildContext (Examples.conversation 11 ++ [mkMessage user "question"]) "sys"
                  (asPartial (getModelLimits "gpt-4"))) "gpt-4"
  = mkValidation true None.
Proof.
  apply (buildContext_validates "gpt-4" (Examples.conversation 11)
           (mkMessage user "question") "sys" eq_refl).
  vm_compute. discriminate.
Defined.

End ContextManagerMore.
(** ** The chunker: further properties *)

Module ChunkerMore.
Import JS JSFacts FolderRAG Statements ChunkerFacts.

Lemma trimStart_chars_length l : (length (trimStart_chars l) <= length l)%nat.
Proof. induction l as [|c l IH]; simpl; [done|]. destruct (is_white c); simpl; lia. Qed.

Lemma strlen_trim s : strlen (trim s) <= strlen s.
Proof.
  unfold trim, trimEnd, trimStart. rewrite chars_str, !strlen_str, strlen_chars, length_rev.
  pose proof (trimStart_chars_length (rev (trimStart_chars (chars s)))) as H1.
  pose proof (trimStart_chars_length (chars s)) as H2.
  rewrite length_rev in H1. lia.
Qed.

Section Loop.
Variable cfg : ChunkConfig.
Variable document : FolderDocument.
Variable uuid : Z -> string.
Variable sentences : list string.

Let seed : string := join " " (slice_from sentences (- overlap cfg)).

(** What the loop keeps true of a state: every chunk pushed was built from
    a state that satisfied [P], and the current state satisfies [P]. *)
Lemma chunkLoop_preserves (P : ChunkerState -> Prop) (Q : FolderChunk -> Prop) :
  (forall st sentence, sentence ∈ sentences -> P st -> Forall Q (chunks st) ->
     let st' := chunkStep cfg document uuid sentences st sentence in
     P st' /\ Forall Q (chunks st')) ->
  forall todo st,
    todo ⊆ sentences -> P st -> Forall Q (chunks st) ->
    P (chunkLoop cfg document uuid sentences todo st)
    /\ Forall Q (chunks (chunkLoop cfg document uuid sentences todo st)).
Proof.
  intros Hstep. induction todo as [|sentence todo IH]; intros st Hsub HP HQ; [done|].
  simpl. destruct (Hstep st sentence) as [HP' HQ']; try done.
  { apply Hsub. left. }
  apply IH; try done. intros x Hx. apply Hsub. by right.
Qed.

End Loop.

(** X5. Every chunk of a document carries the identifiers of the document
    (document, folder and user), its name and its type, and the identifier
    drawn for its index. *)
Theorem chunkDocument_fields cfg document uuid c :
  c ∈ chunkDocumentWith cfg document uuid ->
  chunk_documentId c = doc_id document
  /\ chunk_folderId c = doc_folderId document
  /\ chunk_userId c = doc_userId document
  /\ chunk_documentName c = doc_name document
  /\ chunk_documentType c = doc_type document
  /\ chunk_id c = uuid (chunk_chunkIndex c).
Proof.
  set (Q := fun c : FolderChunk =>
    chunk_documentId c = doc_id document
    /\ chunk_folderId c = doc_folderId document
    /\ chunk_userId c = doc_userId document
    /\ chunk_documentName c = doc_name document
    /\ chunk_documentType c = doc_type document
    /\ chunk_id c = uuid (chunk_chunkIndex c)).
  unfold chunkDocumentWith.
  set (sentences := splitIntoSentences (doc_content document)).
  destruct (chunkLoop_preserves cfg document uuid sentences (fun _ => True) Q)
    with (todo := sentences) (st := mkChunkerState "" 0 0 []) as [_ HQ]; try done.
  { intros st s _ _ HQ. split; [done|]. unfold chunkStep.
    destruct (_ && _); simpl; [|done].
    apply Forall_app. split; [done|]. by apply Forall_singleton. }
  intros Hc. unfold chunkFinish in Hc.
  destruct (flushes _ _).
  - apply elem_of_app in Hc as [Hc|Hc%list_elem_of_singleton].
    + by eapply (proj1 (Forall_forall _ _) HQ).
    + by subst c.
  - by eapply (proj1 (Forall_forall _ _) HQ).
Qed.

Lemma chunkDocument_fields_witness :
  exists c,
    c ∈ chunkDocumentWith CHUNK_CONFIG Examples.sentencesDocument (fun i => pretty i)
    /\ chunk_folderId c = 1 /\ chunk_userId c = "alice" /\ chunk_documentId c = "doc-s".
Proof.
  assert (exists c rest,
            chunkDocumentWith CHUNK_CONFIG Examples.sentencesDocument (fun i => pretty i)
            = c :: rest)
    as (c & rest & E) by (vm_compute; eauto).
  assert (Hin : c ∈ chunkDocumentWith CHUNK_CONFIG Examples.sentencesDocument
                      (fun i => pretty i)) by (rewrite E; left).
  exists c. split; [exact Hin|].
  destruct (chunkDocument_fields CHUNK_CONFIG Examples.sentencesDocument
              (fun i => pretty i) c Hin) as (H1 & H2 & H3 & _).
  rewrite H1, H2, H3. repeat split.
Defined.




Lemma ends_increase_snoc cs c :
  ends_increase cs ->
  (forall c', c' ∈ cs -> chunk_endOffset c' < chunk_endOffset c) ->
  ends_increase (cs ++ [c]).
Proof.
  intros Hinc Hlast i j ci cj Hij Hi Hj.
  apply lookup_app_Some in Hj as [Hj|[Hlen Hj]].
  - apply lookup_app_Some in Hi as [Hi|[Hlen' _]].
    + by eapply Hinc.
    + apply lookup_lt_Some in Hj. lia.
  - apply list_lookup_singleton_Some in Hj as [Hj0 <-].
    apply lookup_app_Some in Hi as [Hi|[Hlen' Hi]].
    + apply Hlast. by eapply list_elem_of_lookup_2.
    + lia.
Qed.

(** X7. The offsets of the chunks of a document: the first chunk starts at
    0; the token count of a chunk is the estimate of a text as long as the
    span of its offsets, and its content, trimmed, is not longer than that
    span; and the end offsets increase strictly from chunk to chunk. *)
Theorem chunkDocument_offsets cfg document uuid :
  let cs := chunkDocumentWith cfg document uuid in
  (forall c, cs !! 0%nat = Some c -> chunk_startOffset c = 0)
  /\ (forall c, c ∈ cs ->
        chunk_tokenCount c = ceil_div4 (chunk_endOffset c - chunk_startOffset c)
        /\ strlen (chunk_content c) <= chunk_endOffset c - chunk_startOffset c)
  /\ ends_increase cs.
Proof.
  intros cs. subst cs. unfold chunkDocumentWith.
  set (sentences := splitIntoSentences (doc_content document)).
  set (P := fun st : ChunkerState =>
    ends_increase (chunks st)
    /\ (forall c, c ∈ chunks st ->
          chunk_endOffset c < startOffset st + strlen (currentChunk st))
    /\ (chunks st = [] -> startOffset st = 0)
    /\ (forall c, chunks st !! 0%nat = Some c -> chunk_startOffset c = 0)).
  set (Q := fun c : FolderChunk =>
    chunk_tokenCount c = ceil_div4 (chunk_endOffset c - chunk_startOffset c)
    /\ strlen (chunk_content c) <= chunk_endOffset c - chunk_startOffset c).
  assert (Hmade : forall st, Q (makeChunk document uuid st)).
  { intros st. unfold Q. cbn [makeChunk chunk_tokenCount chunk_endOffset
                              chunk_startOffset chunk_content].
    replace (startOffset st + strlen (currentChunk st) - startOffset st)
      with (strlen (currentChunk st)) by lia.
    split; [done|]. apply strlen_trim. }
  destruct (chunkLoop_preserves cfg document uuid sentences P Q)
    with (todo := sentences) (st := mkChunkerState "" 0 0 [])
    as [(Hinc & Hlast & Hstart & Hfirst) HQ]; try done.
  { intros st s _ (Hinc & Hlast & Hstart & Hfirst) HQ. unfold chunkStep.
    destruct (_ && _) eqn:Hemit; unfold P; cbn [chunks currentChunk startOffset].
    - split; [|apply Forall_app; split; [done|]; by apply Forall_singleton].
      split; [|split; [|split]].
      + apply ends_increase_snoc; [done|]. intros c' Hc'.
        cbn [makeChunk chunk_endOffset]. by apply Hlast.
      + intros c' Hc'. cbn [makeChunk chunk_endOffset].
        rewrite !strlen_app. change (strlen " ") with 1.
        pose proof (strlen_nonneg s).
        apply elem_of_app in Hc' as [Hc'|Hc'%list_elem_of_singleton].
        * apply Hlast in Hc'. lia.
        * subst c'. cbn [makeChunk chunk_endOffset]. lia.
      + intros [_ ?]%app_eq_nil. done.
      + intros c' Hc'. destruct (chunks st) as [|c0 cs0] eqn:Ecs.
        * simpl in Hc'. simplify_eq. cbn [makeChunk chunk_startOffset]. by apply Hstart.
        * simpl in Hc'. simplify_eq. by apply Hfirst.
    - split; [|done]. split; [done|]. split; [|done].
      intros c' Hc'. apply Hlast in Hc'. rewrite !strlen_app.
      pose proof (strlen_nonneg s).
      pose proof (strlen_nonneg (if nonempty (currentChunk st) then " " else "")). lia. }
  { unfold P. simpl.
    split. { intros i j ci cj _ Hi. by rewrite lookup_nil in Hi. }
    split. { intros c Hc. by apply not_elem_of_nil in Hc. }
    split; done. }
  set (st := chunkLoop cfg document uuid sentences sentences _) in *.
  unfold chunkFinish. destruct (flushes cfg st).
  - split; [|split].
    + intros c Hc. destruct (chunks st) as [|c0 cs0] eqn:Ecs.
      * simpl in Hc. simplify_eq. cbn [makeChunk chunk_startOffset]. by apply Hstart.
      * simpl in Hc. simplify_eq. by apply Hfirst.
    + intros c [Hc|Hc%list_elem_of_singleton]%elem_of_app.
      * by eapply (proj1 (Forall_forall _ _) HQ).
      * subst c. apply Hmade.
    + apply ends_increase_snoc; [done|]. intros c' Hc'.
      cbn [makeChunk chunk_endOffset]. by apply Hlast.
  - split; [done|]. split; [|done].
    intros c Hc. by eapply (proj1 (Forall_forall _ _) HQ).
Qed.

End ChunkerMore.
(** ** Sentences, concepts and document types *)

Module TextMore.
Import JS JSFacts FolderRAG Statements.



(** The characters of the pieces of a split are characters of the text that
    are not separators. *)
Lemma split_go_chars sep (P : ascii -> Prop) l :
  forall cur inrun piece,
  Forall P cur -> (forall c, c ∈ l -> sep c = false -> P c) ->
  piece ∈ split_go sep cur inrun l -> Forall P (chars piece).
Proof.
  induction l as [|c l IH]; intros cur inrun piece Hcur Hl; simpl.
  { intros ->%list_elem_of_singleton. by rewrite chars_str. }
  assert (Hl' : forall c', c' ∈ l -> sep c' = false -> P c').
  { intros c' Hc'. apply Hl. by right. }
  destruct (sep c) eqn:Hc.
  - destruct inrun.
    + by apply IH.
    + intros [->|Hin]%elem_of_cons; [by rewrite chars_str|].
      apply (IH [] true piece); [constructor|done|done].
  - apply IH; [|done]. apply Forall_app. split; [done|].
    apply Forall_singleton. apply Hl; [left|done].
Qed.



(** *** Concepts *)

Lemma existsb_eqb_elem x l : existsb (String.eqb x) l = true <-> x ∈ l.
Proof.
  rewrite existsb_exists, list_elem_of_In. split.
  - intros (y & Hy & ->%String.eqb_eq). done.
  - intros Hx. exists x. split; [done|]. apply String.eqb_refl.
Qed.

Lemma dedupe_from_spec l :
  forall seen,
  NoDup (dedupe_from seen l)
  /\ forall x, x ∈ dedupe_from seen l -> x ∈ l /\ x ∉ seen.
Proof.
  induction l as [|y l IH]; intros seen; simpl.
  { split; [constructor|]. intros x Hx. by apply not_elem_of_nil in Hx. }
  destruct (existsb (String.eqb y) seen) eqn:Hseen.
  - destruct (IH seen) as [Hnd Hin]. split; [done|].
    intros x Hx. apply Hin in Hx as [? ?]. split; [by right|done].
  - destruct (IH (y :: seen)) as [Hnd Hin]. split.
    + constructor; [|done]. intros Hy. apply Hin in Hy as [_ Hy]. apply Hy. left.
    + intros x [->|Hx]%elem_of_cons.
      * split; [left|]. intros Hy%existsb_eqb_elem. congruence.
      * apply Hin in Hx as [? Hx]. split; [by right|].
        intros ?. apply Hx. by right.
Qed.

Lemma toLowerCase_char_concept c :
  is_nonword (toLowerCase_char c) = false -> is_concept_char (toLowerCase_char c) = true.
Proof. destruct c as [[] [] [] [] [] [] [] []]; vm_compute; done. Qed.

Lemma toLowerCase_char_idemp c :
  toLowerCase_char (toLowerCase_char c) = toLowerCase_char c.
Proof. destruct c as [[] [] [] [] [] [] [] []]; vm_compute; done. Qed.

(** X9. [extractConcepts] returns at most 5 concepts, all different; a
    concept has more than 4 characters, each a lower-case letter, a digit or
    an underscore, and is no stop word. *)
Theorem extractConcepts_concepts text :
  (length (extractConcepts text) <= 5)%nat
  /\ NoDup (extractConcepts text)
  /\ (forall w, w ∈ extractConcepts text ->
        4 < strlen w
        /\ (w ∉ stopWords)
        /\ Forall (fun c => is_concept_char c = true) (chars w)).
Proof.
  unfold extractConcepts. cbv zeta.
  set (words := split_runs is_nonword (toLowerCase text)).
  set (concepts := List.filter _ words).
  change (slice_to ?l 5) with (take 5 l).
  destruct (dedupe_from_spec concepts []) as [Hnd Hin].
  split; [rewrite length_take; lia|]. split.
  - eapply sublist_NoDup; [exact Hnd|apply sublist_take].
  - intros w Hw. apply elem_of_take in Hw as (i & Hw & _).
    apply list_elem_of_lookup_2 in Hw. apply Hin in Hw as [Hw _].
    subst concepts. rewrite list_elem_of_In, filter_In, <- list_elem_of_In in Hw.
    destruct Hw as [Hword [Hlong Hstop]%andb_prop].
    split; [by apply Z.ltb_lt|]. split.
    + intros Hin'%existsb_eqb_elem. by rewrite Hin' in Hstop.
    + subst words. unfold split_runs in Hword.
      eapply split_go_chars; [| |exact Hword]; [done|].
      intros c Hc. unfold toLowerCase in Hc. rewrite chars_str in Hc.
      apply list_elem_of_fmap in Hc as (c0 & -> & _).
      apply toLowerCase_char_concept.
Qed.

(** *** Document types *)

Lemma toLowerCase_idemp s : toLowerCase (toLowerCase s) = toLowerCase s.
Proof.
  unfold toLowerCase. rewrite chars_str. f_equal.
  rewrite <- list_fmap_compose. apply list_fmap_ext.
  intros _ c _. apply toLowerCase_char_idemp.
Qed.

Lemma toLowerCase_app s1 s2 :
  toLowerCase (s1 +:+ s2) = toLowerCase s1 +:+ toLowerCase s2.
Proof. unfold toLowerCase. by rewrite chars_app, map_app, str_app. Qed.

Lemma lastPiece_go_dot l1 :
  forall cur l2, lastPiece_go cur (l1 ++ "."%char :: l2) = lastPiece_go [] l2.
Proof.
  induction l1 as [|c l1 IH]; intros cur l2; simpl; [done|].
  destruct (Ascii.eqb c "."); apply IH.
Qed.

(** X10. The type of a document is read off the part of the file name
    after its last dot, whatever its case and whatever the content: a name
    and the name in lower case have the same type, a name [prefix.rest] has
    the type of the name [rest], and the type is never [url]. *)
Theorem getDocumentType_extension fileName content :
  getDocumentType (toLowerCase fileName) content = getDocumentType fileName content
  /\ (forall prefix content',
        getDocumentType (prefix +:+ "." +:+ fileName) content'
        = getDocumentType fileName content)
  /\ getDocumentType fileName content <> url.
Proof.
  split; [|split].
  - unfold getDocumentType. by rewrite toLowerCase_idemp.
  - intros prefix content'. unfold getDocumentType.
    rewrite !toLowerCase_app, !chars_app.
    change (chars (toLowerCase ".")) with ["."%char].
    change (["."%char] ++ ?l) with ("."%char :: l).
    by rewrite lastPiece_go_dot.
  - unfold getDocumentType. repeat case_match; done.
Qed.

End TextMore.
(** ** The configuration of the folders *)

Module FolderContextMore.
Import JS JSFacts ContextManager FolderRAG FolderContext Statements ContextManagerFacts.

Lemma getFolderConfig_set_other m f g p :
  g <> f -> getFolderConfig (setFolderConfig m f p) g = getFolderConfig m g.
Proof.
  intros Hg. unfold getFolderConfig, setFolderConfig. simpl.
  by rewrite lookup_insert_ne.
Qed.

Lemma getFolderConfig_clear_other m f g :
  g <> f -> getFolderConfig (clearFolderContext m f) g = getFolderConfig m g.
Proof.
  intros Hg. unfold getFolderConfig, clearFolderContext. simpl.
  by rewrite lookup_delete_ne.
Qed.

Lemma buildFolderContext_config m m' svc f userId msgs q qd base limits :
  getFolderConfig m' f = getFolderConfig m f ->
  buildFolderContext m' svc f userId msgs q qd base limits
  = buildFolderContext m svc f userId msgs q qd base limits.
Proof. intros E. unfold buildFolderContext. by rewrite E. Qed.

(** X11. The settings are kept per folder: setting or clearing the
    configuration of one folder changes neither the configuration read for
    another folder nor the context built for it. *)
Theorem folder_config_isolated m f g p svc userId msgs q qd base limits :
  g <> f ->
  getFolderConfig (setFolderConfig m f p) g = getFolderConfig m g
  /\ getFolderConfig (clearFolderContext m f) g = getFolderConfig m g
  /\ buildFolderContext (setFolderConfig m f p) svc g userId msgs q qd base limits
     = buildFolderContext m svc g userId msgs q qd base limits
  /\ buildFolderContext (clearFolderContext m f) svc g userId msgs q qd base limits
     = buildFolderContext m svc g userId msgs q qd base limits.
Proof.
  intros Hg.
  pose proof (getFolderConfig_set_other m f g p Hg) as Hset.
  pose proof (getFolderConfig_clear_other m f g Hg) as Hclear.
  repeat split; auto using buildFolderContext_config.
Qed.

Lemma folder_config_isolated_witness :
  getFolderConfig
    (setFolderConfig Examples.strictManager 2
       (mkPartialConfig (Some false) (Some 500) None None None)) 1
  = getFolderConfig Examples.strictManager 1
  /\ ragSimilarityThreshold
       (getFolderConfig
          (setFolderConfig Examples.strictManager 2
             (mkPartialConfig (Some false) (Some 500) None None None)) 1)
     = 0.9%float.
Proof.
  destruct (folder_config_isolated Examples.strictManager 2 1
              (mkPartialConfig (Some false) (Some 500) None None None)
              (newService false true) "alice" [] "" [] "" no_limits)
    as (H & _); [lia|].
  rewrite H. split; reflexivity.
Defined.

(** X12. [setFolderConfig] accumulates: after a second call on the same
    folder, each of the five fields has the value that the second call
    gives, and the value it had after the first call when the second call
    does not give it; giving the same fields twice changes nothing.
    [clearFolderContext] forgets them all: the folder reads the default
    configuration again and a later [setFolderConfig] starts from the
    defaults. *)
Theorem setFolderConfig_accumulates m f p q :
  let first := getFolderConfig (setFolderConfig m f p) f in
  let second := getFolderConfig (setFolderConfig (setFolderConfig m f p) f q) f in
  getFolderConfig (setFolderConfig (setFolderConfig m f p) f p) f = first
  /\ includeRAGData second = default (includeRAGData first) (includeRAGData_opt q)
  /\ maxRAGTokens second = default (maxRAGTokens first) (maxRAGTokens_opt q)
  /\ ragSimilarityThreshold second
     = default (ragSimilarityThreshold first) (ragSimilarityThreshold_opt q)
  /\ preserveConversationContext second
     = default (preserveConversationContext first) (preserveConversationContext_opt q)
  /\ maxConversationTokens second
     = default (maxConversationTokens first) (maxConversationTokens_opt q)
  /\ getFolderConfig (clearFolderContext (setFolderConfig m f p) f) f
     = DEFAULT_FOLDER_CONFIG
  /\ getFolderConfig (setFolderConfig (clearFolderContext (setFolderConfig m f p) f) f q) f
     = getFolderConfig (setFolderConfig (mkManager ∅) f q) f.
Proof.
  assert (Hget : forall m' c, folderConfigs m' !! f = c ->
            getFolderConfig m' f = default DEFAULT_FOLDER_CONFIG c).
  { intros m' c <-. reflexivity. }
  assert (Hset : forall m' r,
            folderConfigs (setFolderConfig m' f r) !! f
            = Some {| includeRAGData :=
                        default (includeRAGData (getFolderConfig m' f)) (includeRAGData_opt r);
                      maxRAGTokens :=
                        default (maxRAGTokens (getFolderConfig m' f)) (maxRAGTokens_opt r);
                      ragSimilarityThreshold :=
                        default (ragSimilarityThreshold (getFolderConfig m' f))
                                (ragSimilarityThreshold_opt r);
                      preserveConversationContext :=
                        default (preserveConversationContext (getFolderConfig m' f))
                                (preserveConversationContext_opt r);
                      maxConversationTokens :=
                        default (maxConversationTokens (getFolderConfig m' f))
                                (maxConversationTokens_opt r) |}).
  { intros m' r. unfold setFolderConfig. cbn [folderConfigs].
    apply lookup_insert_eq. }
  assert (Hclear : forall m', getFolderConfig (clearFolderContext m' f) f = DEFAULT_FOLDER_CONFIG).
  { intros m'. erewrite Hget; [|apply lookup_delete_eq]. reflexivity. }
  assert (Hnew : getFolderConfig (mkManager ∅) f = DEFAULT_FOLDER_CONFIG).
  { erewrite Hget; [|apply lookup_empty]. reflexivity. }
  intros first second.
  assert (Hsecond : second
            = {| includeRAGData := default (includeRAGData first) (includeRAGData_opt q);
                 maxRAGTokens := default (maxRAGTokens first) (maxRAGTokens_opt q);
                 ragSimilarityThreshold :=
                   default (ragSimilarityThreshold first) (ragSimilarityThreshold_opt q);
                 preserveConversationContext :=
                   default (preserveConversationContext first)
                           (preserveConversationContext_opt q);
                 maxConversationTokens :=
                   default (maxConversationTokens first) (maxConversationTokens_opt q) |}).
  { subst second. by rewrite (Hget _ _ (Hset _ q)). }
  split; [|rewrite Hsecond; do 5 (split; [done|]); split].
  - subst first. rewrite (Hget _ _ (Hset _ p)), (Hget _ _ (Hset m p)). cbn.
    destruct p as [[] [] [] [] []]; reflexivity.
  - apply Hclear.
  - rewrite (Hget _ _ (Hset _ q)), (Hget _ _ (Hset (mkManager ∅) q)).
    by rewrite Hclear, Hnew.
Qed.

(** X13. A folder whose configuration turns the folder data off never
    reads the store: the context built for it is the same whatever the
    service holds, namely the plain context of the conversation under the
    folder prompt without resources, with [reserveTokens] as given (0 when
    absent). *)
Theorem buildFolderContext_without_rag m svc svc' f userId msgs q qd base limits :
  includeRAGData (getFolderConfig m f) = false ->
  buildFolderContext m svc f userId msgs q qd base limits
  = buildFolderContext m svc' f userId msgs q qd base limits
  /\ buildFolderContext m svc f userId msgs q qd base limits
     = buildContext msgs (buildFolderSystemPrompt base f "")
         (mkPartial (maxTokens_opt limits) (maxMessages_opt limits)
                    (Some (default 0 (reserveTokens_opt limits)))).
Proof.
  intros Hoff. unfold buildFolderContext, applyFolderLimits. rewrite Hoff.
  by rewrite Z.add_0_r.
Qed.

Lemma buildFolderContext_without_rag_witness :
  let m := setFolderConfig (mkManager ∅) 1
             (mkPartialConfig (Some false) None None None None) in
  buildFolderContext m (Examples.twoScopes false) 1 "alice"
    (Examples.conversation 3) "total amount due" (Examples.draw384 0.4 0.3)
    "You are a helpful assistant." no_limits
  = buildFolderContext m (newService false true) 1 "alice"
      (Examples.conversation 3) "total amount due" (Examples.draw384 0.4 0.3)
      "You are a helpful assistant." no_limits.
Proof.
  cbv zeta.
  apply (buildFolderContext_without_rag
           (setFolderConfig (mkManager ∅) 1
              (mkPartialConfig (Some false) None None None None))
           (Examples.twoScopes false) (newService false true)).
  reflexivity.
Defined.

(** X23. [testRAGRetrieval] answers with one entry per search result, in
    the order in which the search returns them and with the same
    similarity: the content is the first 200 characters of the chunk
    followed by an ellipsis, also when the chunk is shorter, hence 203
    characters at most, and the source is the name of the document, or
    [Unknown] when the name is empty. *)
Theorem testRAGRetrieval_samples svc folderId userId query queryDraw limit :
  Forall2 (fun x r =>
             sample_similarity x = res_similarity r
             /\ chars (sample_content x)
                = take 200 (chars (chunk_content (res_chunk r))) ++ chars "..."
             /\ strlen (sample_content x) <= 203
             /\ (chunk_documentName (res_chunk r) = "" -> sample_source x = "Unknown")
             /\ (chunk_documentName (res_chunk r) <> "" ->
                 sample_source x = chunk_documentName (res_chunk r)))
          (testRAGRetrieval svc folderId userId query queryDraw limit)
          (searchSimilarContent svc folderId userId query queryDraw limit).
Proof.
  unfold testRAGRetrieval. cbv zeta.
  induction (searchSimilarContent svc folderId userId query queryDraw limit)
    as [|r rs IH]; [constructor|].
  cbn [map]. constructor; [|exact IH]. cbn [sample_content sample_similarity sample_source].
  split; [done|].
  assert (Hchars : chars (substring (chunk_content (res_chunk r)) 0 200 +:+ "...")
                   = take 200 (chars (chunk_content (res_chunk r))) ++ chars "...").
  { by rewrite chars_app, chars_substring_0. }
  split; [exact Hchars|]. split.
  - rewrite strlen_chars, Hchars, length_app, length_take.
    change (length (chars "...")) with 3%nat. lia.
  - destruct (chunk_documentName (res_chunk r)); simpl; split; done.
Qed.

(** For a history that ends with a user message, the context stays within
    one token of the budget when the system message leaves 10 tokens. *)
Lemma buildContext_user_total pre latest sys limits :
  role latest = user ->
  10 <= availableTokensOf (spread DEFAULT_LIMITS limits) sys ->
  totalTokens (buildContext (pre ++ [latest]) sys limits)
  <= ContextManager.maxTokens (spread DEFAULT_LIMITS limits)
     - reserveTokens (spread DEFAULT_LIMITS limits) + 1.
Proof.
  intros Hrole Havail.
  set (avail := availableTokensOf (spread DEFAULT_LIMITS limits) sys) in *.
  destruct (decide (estimateMessageTokens latest <= avail)) as [Hfit|Hover].
  - rewrite buildContext_snoc. cbv zeta. fold avail.
    rewrite selectLatest_user by done.
    apply Z.leb_le in Hfit as Hfit'. rewrite Hfit'.
    destruct (addPairs _ _ _ _) as [[sel used] tr] eqn:E.
    apply addPairs_tokens in E. cbn [totalTokens].
    subst avail. unfold availableTokensOf in *. lia.
  - pose proof (buildContext_forced_overflow pre latest sys limits Hrole) as H.
    cbv zeta in H. apply H. fold avail. lia.
Qed.

(** X24. A folder context leaves free both the reserve of the caller and
    the reserve for the folder data: for a history that ends with a user
    message, its [totalTokens], the system message with the folder
    resources included, exceeds [maxTokens - reserveTokens - maxRAGTokens]
    by one token at most, provided the system message leaves 10 tokens of
    that budget. An absent [reserveTokens] counts as 0 here, not as the
    default reserve. *)
Theorem buildFolderContext_reserve m svc f userId pre latest q qd base limits :
  role latest = user ->
  let config := getFolderConfig m f in
  let ctx := buildFolderContext m svc f userId (pre ++ [latest]) q qd base limits in
  let sysMessage := default (mkMessage system "") (head (messages ctx)) in
  let budget :=
    ContextManager.maxTokens (spread DEFAULT_LIMITS limits)
    - default 0 (reserveTokens_opt limits)
    - (if includeRAGData config then maxRAGTokens config else 0) in
  10 <= budget - estimateMessageTokens sysMessage ->
  role sysMessage = system /\ totalTokens ctx <= budget + 1.
Proof.
  intros Hrole config ctx sysMessage budget.
  subst sysMessage ctx. unfold buildFolderContext. cbv zeta. fold config.
  set (prompt := buildFolderSystemPrompt _ _ _).
  set (folderLimits := applyFolderLimits limits config).
  assert (Hhead : head (messages (buildContext (pre ++ [latest]) prompt folderLimits))
                  = Some (systemMessageOf prompt)).
  { rewrite buildContext_snoc. cbv zeta. by destruct (addPairs _ _ _ _) as [[? ?] ?]. }
  rewrite Hhead. cbn [default]. intros Hroom. split; [done|].
  pose proof (buildContext_user_total pre latest prompt folderLimits Hrole) as H.
  unfold availableTokensOf in H. subst folderLimits budget.
  unfold applyFolderLimits, spread, id in *. cbn in Hroom, H |- *. lia.
Qed.

Lemma buildFolderContext_reserve_witness :
  totalTokens
    (buildFolderContext (mkManager ∅) (Examples.twoScopes false) 1 "alice"
       (Examples.conversation 3 ++ [mkMessage user "What is the total amount due?"])
       "total amount due" (Examples.draw384 0.4 0.3)
       "You are a helpful assistant." no_limits)
  <= 6001.
Proof.
  destruct (buildFolderContext_reserve (mkManager ∅) (Examples.twoScopes false) 1 "alice"
              (Examples.conversation 3) (mkMessage user "What is the total amount due?")
              "total amount due" (Examples.draw384 0.4 0.3)
              "You are a helpful assistant." no_limits eq_refl) as [_ H].
  - vm_compute. discriminate.
  - exact H.
Defined.

End FolderContextMore.
(** ** The store: ingestion, deletion and clean-up *)

Module StoreMore.
Import JS JSFacts FolderRAG Statements KeyFacts FolderRAGFacts.

Local Ltac unfold_store :=
  unfold storeDocument, storeChunk, storeEmbedding, updateKnowledgeGraph,
    storeKnowledgeGraph, withMemory, withDatabase in *.

(** *** Records sit under their id *)

Lemma lookup_foldr_delete_Some {V} (m : gmap string V) ks k v :
  foldr delete m ks !! k = Some v <-> (k ∉ ks) /\ m !! k = Some v.
Proof.
  induction ks as [|k' ks IH]; simpl.
  { split; [intros ?; split; [apply not_elem_of_nil|done]|by intros [_ ?]]. }
  rewrite lookup_delete_Some, IH, not_elem_of_cons.
  split.
  - intros (? & ? & ?). split; [split|]; done.
  - intros ((? & ?) & ?). split; [|split]; done.
Qed.

Lemma elem_of_getAllFromIndex {V} (m : gmap string V) matches x :
  x ∈ getAllFromIndex m matches <-> (exists k, m !! k = Some x) /\ matches x = true.
Proof.
  unfold getAllFromIndex.
  rewrite list_elem_of_In, filter_In, <- list_elem_of_In, list_elem_of_fmap.
  split.
  - intros [([k y] & -> & Hin%elem_of_recordsByKey) ?]. eauto.
  - intros [[k Hk] ?]. split; [|done]. exists (k, x). split; [done|].
    by apply elem_of_recordsByKey.
Qed.

Lemma getAllFromIndex_nil {V} (m : gmap string V) matches :
  (forall k x, m !! k = Some x -> matches x = false) ->
  getAllFromIndex m matches = [].
Proof.
  intros H. destruct (getAllFromIndex m matches) as [|x l] eqn:E; [done|].
  assert (Hx : x ∈ getAllFromIndex m matches) by (rewrite E; left).
  apply elem_of_getAllFromIndex in Hx as [[k Hk] Hm].
  apply H in Hk. congruence.
Qed.

Lemma db_keyed_deleteDocument s documentId :
  db_keyed s -> db_keyed (deleteDocument s documentId).
Proof.
  intros Hk. unfold deleteDocument.
  destruct (fallbackToMemory s); [done|].
  destruct (database s) as [db|] eqn:Hdb; [|done].
  destruct (Hk db Hdb) as (Hd & Hc & He & Hg).
  intros db' E. unfold withDatabase in E. simpl in E. simplify_eq. simpl.
  repeat split; [intros k d H|intros k c H|intros k e H|done].
  - apply lookup_delete_Some in H as [_ H]. auto.
  - apply lookup_foldr_delete in H. auto.
  - apply lookup_foldr_delete in H. auto.
Qed.

Lemma db_keyed_deleteDocuments (ds : list FolderDocument) :
  forall s, db_keyed s ->
  db_keyed (fold_left (fun s d => deleteDocument s (doc_id d)) ds s).
Proof.
  induction ds as [|d ds IH]; intros s Hk; simpl; [done|].
  apply IH. by apply db_keyed_deleteDocument.
Qed.

Lemma db_add_Some {V} (m : gmap string V) key v m' :
  db_add m key v = Some m' -> m !! key = None /\ m' = <[key := v]> m.
Proof. unfold db_add. destruct (m !! key); [done|]. by intros [= <-]. Qed.

Lemma db_keyed_step s s' : step s s' -> db_keyed s -> db_keyed s'.
Proof.
  intros Hstep Hk.
  destruct Hstep as [s d s' E|s c s' E|s e s' E|s d cs s' E|s i|s f u].
  1-4: unfold_store;
       destruct (fallbackToMemory s) eqn:Hfb;
       [simplify_eq; intros db' Hdb'; simpl in Hdb'; by apply Hk|];
       destruct (database s) as [db|] eqn:Hdb; [|done]; simpl in E;
       destruct (Hk db Hdb) as (Hd & Hc & He & Hg).
  1-3: match type of E with context [db_add ?m ?k ?v] =>
         destruct (db_add m k v) as [m'|] eqn:Eadd; [|done];
         apply db_add_Some in Eadd as [_ ->] end.
  1-4: simpl in E; simplify_eq;
       intros db' Hdb'; simpl in Hdb'; simplify_eq; simpl;
       repeat split; try done;
       intros k x [[<- <-]|[_ Hx]]%lookup_insert_Some; auto.
  - by apply db_keyed_deleteDocument.
  - unfold cleanupFolder. destruct (fallbackToMemory s) eqn:Hfb.
    + intros db' Hdb'. simpl in Hdb'. by apply Hk.
    + destruct (database s) as [db|] eqn:Hdb; [|done].
      pose proof (db_keyed_deleteDocuments (getDocuments s f u) s Hk) as Hk1.
      set (s1 := fold_left _ _ s) in *.
      destruct (database s1) as [db1|] eqn:Hdb1; [|done].
      destruct (Hk1 db1 Hdb1) as (Hd & Hc & He & Hg).
      intros db' Hdb'. simpl in Hdb'. simplify_eq. simpl.
      repeat split; try done.
      intros k g H. apply lookup_foldr_delete in H. auto.
Qed.

Lemma reachable_db_keyed s : reachable s -> db_keyed s.
Proof.
  induction 1 as [a b|s s' _ IH Hstep]; [|by eapply db_keyed_step].
  intros db Hdb. simpl in Hdb. destruct b; simplify_eq. simpl.
  repeat split; intros k x H; by rewrite lookup_empty in H.
Qed.

(** *** Deletion *)

Lemma in_scope_true folderId userId f u :
  in_scope folderId userId f u = true <-> f = folderId /\ u = userId.
Proof.
  unfold in_scope. rewrite andb_true_iff, Z.eqb_eq, String.eqb_eq. done.
Qed.

(** X14. With IndexedDB, [deleteDocument] removes the document and its
    chunks and nothing else: in every folder, the documents listed
    afterwards are those listed before whose id is not the deleted one, the
    chunks are those of the other documents, and no search returns a chunk
    of the deleted document. In the memory fallback it deletes nothing. *)
Theorem deleteDocument_removes s documentId :
  reachable s ->
  (fallbackToMemory s = true -> deleteDocument s documentId = s)
  /\ (fallbackToMemory s = false ->
      forall folderId userId,
        (forall d, d ∈ getDocuments (deleteDocument s documentId) folderId userId
                   <-> d ∈ getDocuments s folderId userId /\ doc_id d <> documentId)
        /\ (forall c, c ∈ getChunks (deleteDocument s documentId) folderId userId
                      <-> c ∈ getChunks s folderId userId
                          /\ chunk_documentId c <> documentId)
        /\ (forall query queryDraw limit r,
              r ∈ searchSimilarContent (deleteDocument s documentId)
                    folderId userId query queryDraw limit ->
              chunk_documentId (res_chunk r) <> documentId)).
Proof.
  intros Hs. apply reachable_db_keyed in Hs.
  split; [intros Hfb; unfold deleteDocument; by rewrite Hfb|].
  intros Hfb folderId userId.
  assert (Hchunks : forall c,
            c ∈ getChunks (deleteDocument s documentId) folderId userId
            <-> c ∈ getChunks s folderId userId /\ chunk_documentId c <> documentId).
  { intros c. unfold getChunks, deleteDocument. rewrite Hfb.
    destruct (database s) as [db|] eqn:Hdb; simpl; rewrite ?Hfb, ?Hdb.
    2: { split; [by intros ?%not_elem_of_nil|by intros [?%not_elem_of_nil _]]. }
    destruct (Hs db Hdb) as (_ & Hc & _).
    rewrite !elem_of_getAllFromIndex. split.
    - intros [[k Hk] Hscope]. apply lookup_foldr_delete_Some in Hk as [Hnot Hk].
      split; [eauto|]. intros Hdoc. apply Hnot.
      rewrite (Hc _ _ Hk). apply list_elem_of_fmap. exists c. split; [done|].
      apply elem_of_getAllFromIndex. split; [eauto|]. by apply String.eqb_eq.
    - intros [[[k Hk] Hscope] Hdoc]. split; [|done]. exists k.
      apply lookup_foldr_delete_Some. split; [|done].
      intros (c' & Hid & Hc')%list_elem_of_fmap.
      apply elem_of_getAllFromIndex in Hc' as [[k' Hk'] Hdoc'%String.eqb_eq].
      pose proof (Hc _ _ Hk') as Hid'. rewrite <- Hid in Hid'. subst k'.
      congruence. }
  split; [|split; [done|]].
  - intros d. unfold getDocuments, deleteDocument. rewrite Hfb.
    destruct (database s) as [db|] eqn:Hdb; simpl; rewrite ?Hfb, ?Hdb.
    2: { split; [by intros ?%not_elem_of_nil|by intros [?%not_elem_of_nil _]]. }
    destruct (Hs db Hdb) as (Hd & _).
    rewrite !elem_of_getAllFromIndex. split.
    + intros [[k Hk] Hscope]. apply lookup_delete_Some in Hk as [Hne Hk].
      split; [eauto|]. intros Hid. apply Hne. rewrite <- Hid. symmetry. by apply Hd.
    + intros [[[k Hk] Hscope] Hne]. split; [|done]. exists k.
      apply lookup_delete_Some. split; [|done].
      intros Hid. apply Hne. rewrite Hid. symmetry. by apply Hd.
  - intros query queryDraw limit r Hr.
    apply searchSimilarContent_from_chunks in Hr.
    by apply Hchunks in Hr as [_ ?].
Qed.

Lemma deleteDocument_removes_witness :
  fallbackToMemory (Examples.twoDocuments true) = false
  /\ (exists d, d ∈ getDocuments (Examples.twoDocuments true) 1 "alice"
                /\ doc_id d = "doc-a")
  /\ (forall d, d ∈ getDocuments (deleteDocument (Examples.twoDocuments true) "doc-a")
                      1 "alice"
                <-> d ∈ getDocuments (Examples.twoDocuments true) 1 "alice"
                    /\ doc_id d <> "doc-a").
Proof.
  split; [reflexivity|]. split.
  - exists Examples.invoiceDocument. split; [|reflexivity].
    apply list_elem_of_In. vm_compute. tauto.
  - destruct (deleteDocument_removes (Examples.twoDocuments true) "doc-a"
                (twoDocuments_reachable true)) as [_ H].
    apply (H eq_refl 1 "alice").
Defined.

(** *** Clean-up of a folder *)

Lemma deleteDocuments_database (ds : list FolderDocument) :
  forall s db,
  fallbackToMemory s = false -> database s = Some db -> db_keyed s ->
  let s1 := fold_left (fun s d => deleteDocument s (doc_id d)) ds s in
  fallbackToMemory s1 = false
  /\ exists db1,
       database s1 = Some db1
       /\ (forall k d, folderDocuments db1 !! k = Some d
                       <-> folderDocuments db !! k = Some d /\ (k ∉ map doc_id ds))
       /\ (forall k c, folderChunks db1 !! k = Some c ->
                       folderChunks db !! k = Some c
                       /\ (chunk_documentId c ∉ map doc_id ds)).
Proof.
  induction ds as [|d ds IH]; intros s db Hfb Hdb Hk; simpl.
  { split; [done|]. exists db. split; [done|]. split.
    - intros k x. split; [intros ?; split; [done|apply not_elem_of_nil]|by intros [? _]].
    - intros k c ?. split; [done|apply not_elem_of_nil]. }
  destruct (Hk db Hdb) as (_ & Hc & _).
  set (s0 := deleteDocument s (doc_id d)).
  assert (Hfb0 : fallbackToMemory s0 = false).
  { subst s0. unfold deleteDocument. rewrite Hfb, Hdb. done. }
  assert (exists db0, database s0 = Some db0
            /\ folderDocuments db0 = delete (doc_id d) (folderDocuments db)
            /\ folderChunks db0
               = foldr delete (folderChunks db)
                   (map chunk_id
                      (getAllFromIndex (folderChunks db)
                         (fun c => String.eqb (chunk_documentId c) (doc_id d)))))
    as (db0 & Hdb0 & Hdocs0 & Hchunks0).
  { subst s0. unfold deleteDocument. rewrite Hfb, Hdb. simpl. eauto. }
  destruct (IH s0 db0 Hfb0 Hdb0 (db_keyed_deleteDocument _ _ Hk))
    as (Hfb1 & db1 & Hdb1 & Hdocs1 & Hchunks1).
  split; [done|]. exists db1. split; [done|]. split.
  - intros k x. rewrite Hdocs1, Hdocs0, lookup_delete_Some, not_elem_of_cons.
    split.
    + intros ((? & ?) & ?). done.
    + intros (? & ? & ?). done.
  - intros k c Hk1. apply Hchunks1 in Hk1 as [Hk0 Hnot].
    rewrite Hchunks0 in Hk0. apply lookup_foldr_delete_Some in Hk0 as [Hnot0 Hk0].
    split; [done|]. apply not_elem_of_cons. split; [|done].
    intros Hdoc. apply Hnot0. rewrite (Hc _ _ Hk0).
    apply list_elem_of_fmap. exists c. split; [done|].
    apply elem_of_getAllFromIndex. split; [eauto|]. by apply String.eqb_eq.
Qed.

(** X15. After [cleanupFolder], the folder of the user lists no document
    and has no knowledge graph, and none of its remaining chunks belongs to
    a document that the folder listed; in the memory fallback it has no
    chunk and no embedding left at all, so that a search finds nothing. *)
Theorem cleanupFolder_clears s folderId userId :
  reachable s ->
  getDocuments (cleanupFolder s folderId userId) folderId userId = []
  /\ getKnowledgeGraph (cleanupFolder s folderId userId) folderId userId = None
  /\ (forall c, c ∈ getChunks (cleanupFolder s folderId userId) folderId userId ->
        chunk_documentId c ∉ map doc_id (getDocuments s folderId userId))
  /\ (fallbackToMemory s = true ->
      getChunks (cleanupFolder s folderId userId) folderId userId = []
      /\ getEmbeddings (cleanupFolder s folderId userId) folderId userId = []
      /\ forall query queryDraw limit,
           searchSimilarContent (cleanupFolder s folderId userId)
             folderId userId query queryDraw limit = []).
Proof.
  intros Hs. apply reachable_db_keyed in Hs.
  unfold cleanupFolder. destruct (fallbackToMemory s) eqn:Hfb.
  - (* memory *)
    set (m' := foldr delete (memoryStore s) _).
    assert (Hgone : forall prefix,
              In prefix ["docs-"; "chunks-"; "embeddings-"; "graph-"] ->
              m' !! scopeKey prefix folderId userId = None).
    { intros prefix Hp. destruct (m' !! _) eqn:E; [|done].
      apply lookup_foldr_delete_Some in E as [Hnot _]. exfalso. apply Hnot.
      apply list_elem_of_In. simpl in Hp. simpl.
      destruct Hp as [<-|[<-|[<-|[<-|[]]]]]; auto. }
    assert (Hc : getChunks (withMemory s m') folderId userId = []).
    { unfold getChunks, storedChunks, withMemory. cbn [fallbackToMemory memoryStore].
      rewrite Hfb, Hgone; [done|simpl; auto]. }
    assert (He : getEmbeddings (withMemory s m') folderId userId = []).
    { unfold getEmbeddings, storedEmbeddings, withMemory.
      cbn [fallbackToMemory memoryStore].
      rewrite Hfb, Hgone; [done|simpl; auto]. }
    split; [|split; [|split; [|intros _; split; [done|split; [done|]]]]].
    + unfold getDocuments, storedDocuments, withMemory.
      cbn [fallbackToMemory memoryStore].
      rewrite Hfb, Hgone; [done|simpl; auto].
    + unfold getKnowledgeGraph, withMemory. cbn [fallbackToMemory memoryStore].
      rewrite Hfb, Hgone; [done|simpl; auto].
    + intros c. rewrite Hc. by intros ?%not_elem_of_nil.
    + intros query queryDraw limit. unfold searchSimilarContent.
      rewrite He. cbn [map sortBySimilarity foldr].
      unfold slice_to. destruct (limit <? 0); by rewrite take_nil.
  - (* IndexedDB *)
    destruct (database s) as [db|] eqn:Hdb.
    2: { unfold getDocuments, getKnowledgeGraph, getChunks. rewrite Hfb, Hdb.
         repeat split; try done. by intros c ?%not_elem_of_nil. }
    destruct (deleteDocuments_database (getDocuments s folderId userId) s db Hfb Hdb Hs)
      as (Hfb1 & db1 & Hdb1 & Hdocs1 & Hchunks1).
    pose proof (db_keyed_deleteDocuments (getDocuments s folderId userId) s Hs) as Hk1.
    set (s1 := fold_left _ _ s) in *.
    rewrite Hdb1.
    destruct (Hs db Hdb) as (Hd & _).
    destruct (Hk1 db1 Hdb1) as (_ & _ & _ & Hg1).
    split; [|split; [|split; [|done]]].
    + unfold getDocuments. simpl. rewrite Hfb1.
      apply getAllFromIndex_nil. intros k d Hk.
      apply Hdocs1 in Hk as [Hk Hnot].
      destruct (in_scope _ _ _ _) eqn:Hscope; [|done].
      exfalso. apply Hnot. rewrite (Hd _ _ Hk).
      apply list_elem_of_fmap. exists d. split; [done|].
      unfold getDocuments. rewrite Hfb, Hdb.
      apply elem_of_getAllFromIndex. eauto.
    + unfold getKnowledgeGraph. simpl. rewrite Hfb1.
      rewrite getAllFromIndex_nil; [done|]. intros k g Hk.
      apply lookup_foldr_delete_Some in Hk as [Hnot Hk].
      destruct (in_scope _ _ _ _) eqn:Hscope; [|done].
      exfalso. apply Hnot. rewrite (Hg1 _ _ Hk).
      apply list_elem_of_fmap. exists g. split; [done|].
      apply elem_of_getAllFromIndex. eauto.
    + intros c. unfold getChunks. simpl. rewrite Hfb1.
      intros [[k Hk] _]%elem_of_getAllFromIndex.
      by apply Hchunks1 in Hk as [_ ?].
Qed.

Lemma cleanupFolder_clears_witness :
  getDocuments (Examples.twoScopes true) 1 "alice" <> []
  /\ getDocuments (cleanupFolder (Examples.twoScopes true) 1 "alice") 1 "alice" = []
  /\ getKnowledgeGraph (cleanupFolder (Examples.twoScopes true) 1 "alice") 1 "alice"
     = None.
Proof.
  split; [by vm_compute|].
  destruct (cleanupFolder_clears (Examples.twoScopes true) 1 "alice"
              (twoScopes_reachable true)) as (H1 & H2 & _).
  split; [exact H1|exact H2].
Defined.

(** *** Ingestion *)

(** X16. [addDocument] fails exactly when the service uses IndexedDB and
    either the database cannot be opened or a document is already stored
    under the new id; in the memory fallback it never fails. *)
Theorem addDocument_fails_iff s folderId userId file docId uuid draw :
  addDocument s folderId userId file docId uuid draw = None
  <-> fallbackToMemory s = false
      /\ (database s = None
          \/ exists db d, database s = Some db
                          /\ folderDocuments db !! docId = Some d).
Proof.
  unfold addDocument, storeDocument. cbv zeta.
  destruct (fallbackToMemory s); simpl.
  { split; [done|]. by intros [? _]. }
  destruct (database s) as [db|]; simpl.
  2: { split; [|done]. intros _. split; [done|]. by left. }
  unfold db_add. destruct (folderDocuments db !! docId) as [d|] eqn:E; simpl.
  - split; [|done]. intros _. split; [done|]. right. eauto.
  - split; [done|]. intros [_ [?|(db' & d & ? & ?)]]; [done|]. congruence.
Qed.

Lemma docs_key_ne_chunks f u g v : scopeKey "chunks-" f u <> scopeKey "docs-" g v.
Proof. rewrite !scopeKey_head. discriminate. Qed.
Lemma docs_key_ne_embeddings f u g v : scopeKey "embeddings-" f u <> scopeKey "docs-" g v.
Proof. rewrite !scopeKey_head. discriminate. Qed.
Lemma docs_key_ne_graph f u g v : scopeKey "graph-" f u <> scopeKey "docs-" g v.
Proof. rewrite !scopeKey_head. discriminate. Qed.

(** The steps of the processing of a document leave the documents alone. *)
Lemma storeChunk_getDocuments s chunk s' g v :
  storeChunk s chunk = Some s' -> getDocuments s' g v = getDocuments s g v.
Proof.
  unfold storeChunk, getDocuments, storedDocuments, withMemory, withDatabase.
  destruct (fallbackToMemory s) eqn:Hfb.
  - intros [= <-]. simpl. by rewrite lookup_insert_ne by apply docs_key_ne_chunks.
  - destruct (database s) as [db|]; [|done]. simpl.
    destruct (db_add _ _ _); [|done]. simpl. by intros [= <-].
Qed.

Lemma storeEmbedding_getDocuments s embedding s' g v :
  storeEmbedding s embedding = Some s' -> getDocuments s' g v = getDocuments s g v.
Proof.
  unfold storeEmbedding, getDocuments, storedDocuments, withMemory, withDatabase.
  destruct (fallbackToMemory s) eqn:Hfb.
  - intros [= <-]. simpl. by rewrite lookup_insert_ne by apply docs_key_ne_embeddings.
  - destruct (database s) as [db|]; [|done]. simpl.
    destruct (db_add _ _ _); [|done]. simpl. by intros [= <-].
Qed.

Lemma storeKnowledgeGraph_getDocuments s graph s' g v :
  storeKnowledgeGraph s graph = Some s' -> getDocuments s' g v = getDocuments s g v.
Proof.
  unfold storeKnowledgeGraph, getDocuments, storedDocuments, withMemory, withDatabase.
  destruct (fallbackToMemory s) eqn:Hfb.
  - intros [= <-]. simpl. by rewrite lookup_insert_ne by apply docs_key_ne_graph.
  - destruct (database s) as [db|]; [|done]. simpl. by intros [= <-].
Qed.

Lemma processDocumentAsync_getDocuments s document uuid draw g v :
  getDocuments (processDocumentAsync s document uuid draw) g v = getDocuments s g v.
Proof.
  assert (Hchunks : forall cs s s' ok,
            storeChunks s cs = (s', ok) -> getDocuments s' g v = getDocuments s g v).
  { induction cs as [|c cs IH]; intros s0 s' ok E; simpl in E; [by simplify_eq|].
    destruct (storeChunk s0 c) as [s1|] eqn:E1; [|by simplify_eq].
    rewrite (IH _ _ _ E). by eapply storeChunk_getDocuments. }
  assert (Hembs : forall cs s,
            getDocuments (generateEmbeddingsForChunks s cs draw) g v = getDocuments s g v).
  { unfold generateEmbeddingsForChunks.
    induction cs as [|c cs IH]; intros s0; simpl; [done|]. rewrite IH.
    destruct (storeEmbedding s0 _) as [s1|] eqn:E1; simpl; [|done].
    by eapply storeEmbedding_getDocuments. }
  unfold processDocumentAsync, updateKnowledgeGraph.
  destruct (storeChunks s _) as [s1 [|]] eqn:E1; [|by eapply Hchunks].
  destruct (storeKnowledgeGraph _ _) as [s3|] eqn:E3; simpl.
  - rewrite (storeKnowledgeGraph_getDocuments _ _ _ _ _ E3), Hembs. by eapply Hchunks.
  - rewrite Hembs. by eapply Hchunks.
Qed.

(** X17. A document that [addDocument] returns is listed in its folder
    afterwards, with the folder, the user, the name and the content it was
    given, and every document listed before is still listed. *)
Theorem addDocument_listed s folderId userId file docId uuid draw s' document :
  addDocument s folderId userId file docId uuid draw = Some (s', document) ->
  document = documentOf folderId userId file docId
  /\ document ∈ getDocuments s' folderId userId
  /\ forall g v d, d ∈ getDocuments s g v -> d ∈ getDocuments s' g v.
Proof.
  unfold addDocument. cbv zeta.
  set (doc := documentOf folderId userId file docId).
  destruct (storeDocument s doc) as [s1|] eqn:E1; [|done]. simpl.
  intros [= <- <-]. split; [done|].
  assert (H1 : doc ∈ getDocuments s1 folderId userId
               /\ forall g v d, d ∈ getDocuments s g v -> d ∈ getDocuments s1 g v).
  { revert E1. unfold storeDocument, getDocuments, storedDocuments, withMemory, withDatabase.
    destruct (fallbackToMemory s) eqn:Hfb.
    - intros [= <-]. simpl. split.
      + rewrite lookup_insert_eq. apply elem_of_app. right. left.
      + intros g v d.
        destruct (decide (scopeKey "docs-" g v
                          = scopeKey "docs-" (doc_folderId doc) (doc_userId doc)))
          as [->|Hne].
        * rewrite lookup_insert_eq. intros ?. apply elem_of_app. by left.
        * by rewrite lookup_insert_ne.
    - destruct (database s) as [db|]; [|done]. simpl.
      destruct (db_add _ _ _) as [docs|] eqn:Eadd; [|done].
      apply db_add_Some in Eadd as [Hfresh ->]. simpl. intros [= <-]. simpl.
      split.
      + apply elem_of_getAllFromIndex. split.
        * exists docId. apply lookup_insert_eq.
        * simpl. apply in_scope_true. done.
      + intros g v d [[k Hk] Hscope]%elem_of_getAllFromIndex.
        apply elem_of_getAllFromIndex. split; [|done]. exists k.
        rewrite lookup_insert_ne; [done|]. simpl. intros <-. congruence. }
  destruct H1 as [Hin Hkeep].
  split; [by rewrite processDocumentAsync_getDocuments|].
  intros g v d Hd. rewrite processDocumentAsync_getDocuments. by apply Hkeep.
Qed.

Lemma addDocument_listed_witness :
  exists s' document,
    addDocument (Examples.twoScopes true) 1 "alice"
      (mkFile "minutes.txt" Examples.minutesText "text/plain") "doc-c"
      (fun i => pretty i) (fun _ => Examples.draw384 0.1 0.2) = Some (s', document)
    /\ document ∈ getDocuments s' 1 "alice"
    /\ Examples.invoiceDocument ∈ getDocuments s' 1 "alice".
Proof.
  destruct (addDocument (Examples.twoScopes true) 1 "alice"
              (mkFile "minutes.txt" Examples.minutesText "text/plain") "doc-c"
              (fun i => pretty i) (fun _ => Examples.draw384 0.1 0.2))
    as [[s' document]|] eqn:E.
  - exists s', document. split; [done|].
    destruct (addDocument_listed _ _ _ _ _ _ _ _ _ E) as (_ & Hin & Hkeep).
    split; [exact Hin|]. apply Hkeep.
    apply list_elem_of_In. vm_compute. tauto.
  - exfalso. revert E. vm_compute. discriminate.
Defined.

(** *** Ingestion in the memory fallback *)

Lemma chunkDocument_scope document uuid c :
  c ∈ chunkDocument document uuid ->
  chunk_folderId c = doc_folderId document /\ chunk_userId c = doc_userId document.
Proof.
  unfold chunkDocument, chunkDocumentWith.
  set (sentences := splitIntoSentences (doc_content document)).
  set (Q := fun c : FolderChunk =>
    chunk_folderId c = doc_folderId document /\ chunk_userId c = doc_userId document).
  assert (HQ : forall todo st, Forall Q (chunks st) ->
            Forall Q (chunks (chunkLoop CHUNK_CONFIG document uuid sentences todo st))).
  { induction todo as [|sentence todo IH]; intros st Hst; [done|].
    simpl. apply IH. unfold chunkStep.
    destruct (_ && _); simpl; [|done].
    apply Forall_app. split; [done|]. by apply Forall_singleton. }
  specialize (HQ sentences (mkChunkerState "" 0 0 []) (Forall_nil_2 _)).
  intros Hc. unfold chunkFinish in Hc.
  destruct (flushes _ _).
  - apply elem_of_app in Hc as [Hc|Hc%list_elem_of_singleton].
    + by eapply (proj1 (Forall_forall _ _) HQ).
    + by subst c.
  - by eapply (proj1 (Forall_forall _ _) HQ).
Qed.

Lemma scopeKey_eq_dec prefix f u g v :
  scopeKey prefix g v = scopeKey prefix f u <-> g = f /\ v = u.
Proof. split; [apply scopeKey_inj|by intros [-> ->]]. Qed.

Section Memory.
Variables (f : Z) (u : string).

(** What the four reads of a scope answer. *)
Let reads (s : Service) (g : Z) (v : string) :=
  (getDocuments s g v, getChunks s g v, getEmbeddings s g v, getKnowledgeGraph s g v).

Let here (g : Z) (v : string) {A} (l : list A) : list A :=
  if decide (g = f /\ v = u) then l else [].

Local Ltac memory_reads Hfb :=
  unfold getDocuments, getChunks, getEmbeddings, getKnowledgeGraph,
    storedDocuments, storedChunks, storedEmbeddings, withMemory;
  cbn [fallbackToMemory memoryStore]; rewrite ?Hfb.

Local Ltac reads_of H g v :=
  let Hr := fresh "Hr" in
  pose proof (H g v) as Hr; unfold reads in Hr; injection Hr as -> -> -> ->.

Local Ltac other_kind :=
  rewrite lookup_insert_ne by (rewrite !scopeKey_head; discriminate).

Lemma storeDocument_memory s d :
  fallbackToMemory s = true -> doc_folderId d = f -> doc_userId d = u ->
  exists s', storeDocument s d = Some s' /\ fallbackToMemory s' = true
    /\ forall g v, reads s' g v
         = (getDocuments s g v ++ here g v [d], getChunks s g v,
            getEmbeddings s g v, getKnowledgeGraph s g v).
Proof.
  intros Hfb <- <-. unfold storeDocument. rewrite Hfb.
  eexists. split; [done|]. split; [done|].
  intros g v. unfold reads, here. memory_reads Hfb.
  repeat match goal with |- (_, _) = (_, _) => f_equal end; try (by other_kind).
  destruct (decide _) as [[-> ->]|Hne].
  - by rewrite lookup_insert_eq.
  - rewrite lookup_insert_ne, app_nil_r; [done|].
    intros E. apply Hne. symmetry in E. by apply scopeKey_eq_dec in E.
Qed.

Lemma storeChunk_memory s c :
  fallbackToMemory s = true -> chunk_folderId c = f -> chunk_userId c = u ->
  exists s', storeChunk s c = Some s' /\ fallbackToMemory s' = true
    /\ forall g v, reads s' g v
         = (getDocuments s g v, getChunks s g v ++ here g v [c],
            getEmbeddings s g v, getKnowledgeGraph s g v).
Proof.
  intros Hfb <- <-. unfold storeChunk. rewrite Hfb.
  eexists. split; [done|]. split; [done|].
  intros g v. unfold reads, here. memory_reads Hfb.
  repeat match goal with |- (_, _) = (_, _) => f_equal end; try (by other_kind).
  destruct (decide _) as [[-> ->]|Hne].
  - by rewrite lookup_insert_eq.
  - rewrite lookup_insert_ne, app_nil_r; [done|].
    intros E. apply Hne. symmetry in E. by apply scopeKey_eq_dec in E.
Qed.

Lemma storeEmbedding_memory s e :
  fallbackToMemory s = true -> emb_folderId e = f -> emb_userId e = u ->
  exists s', storeEmbedding s e = Some s' /\ fallbackToMemory s' = true
    /\ forall g v, reads s' g v
         = (getDocuments s g v, getChunks s g v,
            getEmbeddings s g v ++ here g v [e], getKnowledgeGraph s g v).
Proof.
  intros Hfb <- <-. unfold storeEmbedding. rewrite Hfb.
  eexists. split; [done|]. split; [done|].
  intros g v. unfold reads, here. memory_reads Hfb.
  repeat match goal with |- (_, _) = (_, _) => f_equal end; try (by other_kind).
  destruct (decide _) as [[-> ->]|Hne].
  - by rewrite lookup_insert_eq.
  - rewrite lookup_insert_ne, app_nil_r; [done|].
    intros E. apply Hne. symmetry in E. by apply scopeKey_eq_dec in E.
Qed.

Lemma storeKnowledgeGraph_memory s graph :
  fallbackToMemory s = true -> graph_folderId graph = f -> graph_userId graph = u ->
  exists s', storeKnowledgeGraph s graph = Some s' /\ fallbackToMemory s' = true
    /\ forall g v, reads s' g v
         = (getDocuments s g v, getChunks s g v, getEmbeddings s g v,
            if decide (g = f /\ v = u) then Some graph else getKnowledgeGraph s g v).
Proof.
  intros Hfb <- <-. unfold storeKnowledgeGraph. rewrite Hfb.
  eexists. split; [done|]. split; [done|].
  intros g v. unfold reads. memory_reads Hfb.
  repeat match goal with |- (_, _) = (_, _) => f_equal end; try (by other_kind).
  destruct (decide _) as [[-> ->]|Hne].
  - by rewrite lookup_insert_eq.
  - rewrite lookup_insert_ne; [done|].
    intros E. apply Hne. symmetry in E. by apply scopeKey_eq_dec in E.
Qed.

Lemma here_app g v {A} (l1 l2 : list A) : here g v (l1 ++ l2) = here g v l1 ++ here g v l2.
Proof. unfold here. by destruct (decide _). Qed.

Lemma storeChunks_memory cs :
  forall s,
  fallbackToMemory s = true ->
  Forall (fun c => chunk_folderId c = f /\ chunk_userId c = u) cs ->
  exists s', storeChunks s cs = (s', true) /\ fallbackToMemory s' = true
    /\ forall g v, reads s' g v
         = (getDocuments s g v, getChunks s g v ++ here g v cs,
            getEmbeddings s g v, getKnowledgeGraph s g v).
Proof.
  induction cs as [|c cs IH]; intros s Hfb Hcs; simpl.
  { exists s. split; [done|]. split; [done|]. intros g v. unfold reads, here.
    destruct (decide _); by rewrite app_nil_r. }
  apply Forall_cons in Hcs as [[Hf Hu] Hcs].
  destruct (storeChunk_memory s c Hfb Hf Hu) as (s1 & -> & Hfb1 & H1).
  destruct (IH s1 Hfb1 Hcs) as (s' & -> & Hfb' & H').
  exists s'. split; [done|]. split; [done|]. intros g v.
  rewrite H'. reads_of H1 g v.
  by rewrite <- app_assoc, <- here_app.
Qed.

Lemma generateEmbeddingsForChunks_memory draw cs :
  forall s,
  fallbackToMemory s = true ->
  Forall (fun c => chunk_folderId c = f /\ chunk_userId c = u) cs ->
  let s' := generateEmbeddingsForChunks s cs draw in
  fallbackToMemory s' = true
  /\ forall g v, reads s' g v
       = (getDocuments s g v, getChunks s g v,
          getEmbeddings s g v ++ here g v (map (embeddingOf draw) cs),
          getKnowledgeGraph s g v).
Proof.
  unfold generateEmbeddingsForChunks.
  induction cs as [|c cs IH]; intros s Hfb Hcs; simpl.
  { split; [done|]. intros g v. unfold reads, here.
    destruct (decide _); by rewrite app_nil_r. }
  apply Forall_cons in Hcs as [[Hf Hu] Hcs].
  destruct (storeEmbedding_memory s (embeddingOf draw c) Hfb Hf Hu)
    as (s1 & -> & Hfb1 & H1). simpl.
  destruct (IH s1 Hfb1 Hcs) as (Hfb' & H').
  split; [done|]. intros g v.
  rewrite H'. reads_of H1 g v.
  change (embeddingOf draw c :: ?l) with ([embeddingOf draw c] ++ l).
  by rewrite <- app_assoc, <- here_app.
Qed.

Lemma addDocument_memory_reads s file docId uuid draw :
  fallbackToMemory s = true ->
  let document := documentOf f u file docId in
  let cs := chunkDocument document uuid in
  exists s',
    addDocument s f u file docId uuid draw = Some (s', document)
    /\ forall g v, reads s' g v
         = (getDocuments s g v ++ here g v [document],
            getChunks s g v ++ here g v cs,
            getEmbeddings s g v ++ here g v (map (embeddingOf draw) cs),
            if decide (g = f /\ v = u) then Some (graphOf document cs)
            else getKnowledgeGraph s g v).
Proof.
  intros Hfb document cs. unfold addDocument. cbv zeta. fold document.
  destruct (storeDocument_memory s document Hfb eq_refl eq_refl)
    as (s1 & -> & Hfb1 & H1). simpl.
  assert (Hcs : Forall (fun c => chunk_folderId c = f /\ chunk_userId c = u) cs).
  { apply Forall_forall. intros c Hc. by apply chunkDocument_scope in Hc. }
  unfold processDocumentAsync. fold cs.
  destruct (storeChunks_memory cs s1 Hfb1 Hcs) as (s2 & -> & Hfb2 & H2).
  destruct (generateEmbeddingsForChunks_memory draw cs s2 Hfb2 Hcs) as (Hfb3 & H3).
  set (s3 := generateEmbeddingsForChunks s2 cs draw) in *.
  unfold updateKnowledgeGraph.
  destruct (storeKnowledgeGraph_memory s3 (graphOf document cs) Hfb3 eq_refl eq_refl)
    as (s4 & -> & Hfb4 & H4). simpl.
  eexists. split; [done|]. intros g v.
  rewrite H4. reads_of H3 g v. reads_of H2 g v. reads_of H1 g v. done.
Qed.

End Memory.

(** X18. In the memory fallback [addDocument] always succeeds and, once
    the processing is over, the folder lists the new document after the
    former ones, its chunks are the former chunks followed by those of
    [chunkDocument], every chunk has one embedding stored under its id, and
    the knowledge graph of the folder is the graph of the new document.
    Every other folder, and the same folder of every other user, reads and
    searches as before. *)
Theorem addDocument_memory s f u file docId uuid draw :
  fallbackToMemory s = true ->
  let document := documentOf f u file docId in
  let cs := chunkDocument document uuid in
  exists s',
    addDocument s f u file docId uuid draw = Some (s', document)
    /\ getDocuments s' f u = getDocuments s f u ++ [document]
    /\ getChunks s' f u = getChunks s f u ++ cs
    /\ getEmbeddings s' f u = getEmbeddings s f u ++ map (embeddingOf draw) cs
    /\ map emb_id (map (embeddingOf draw) cs) = map chunk_id cs
    /\ getKnowledgeGraph s' f u = Some (graphOf document cs)
    /\ forall g v, ~ (g = f /\ v = u) ->
         getDocuments s' g v = getDocuments s g v
         /\ getChunks s' g v = getChunks s g v
         /\ getEmbeddings s' g v = getEmbeddings s g v
         /\ getKnowledgeGraph s' g v = getKnowledgeGraph s g v
         /\ forall query queryDraw limit,
              searchSimilarContent s' g v query queryDraw limit
              = searchSimilarContent s g v query queryDraw limit.
Proof.
  intros Hfb document cs.
  destruct (addDocument_memory_reads f u s file docId uuid draw Hfb) as (s' & E & H).
  exists s'. split; [exact E|].
  pose proof (H f u) as Hhere. cbv zeta in Hhere.
  rewrite !decide_True in Hhere by done. injection Hhere as -> -> -> ->.
  do 3 (split; [done|]). split; [|split; [done|]].
  - rewrite map_map. by apply map_ext.
  - intros g v Hother. pose proof (H g v) as Hthere. cbv zeta in Hthere.
    rewrite !decide_False in Hthere by done. rewrite !app_nil_r in Hthere.
    injection Hthere as Hd Hc He Hg.
    do 4 (split; [done|]).
    intros query queryDraw limit. unfold searchSimilarContent. by rewrite Hc, He.
Qed.

Lemma addDocument_memory_witness :
  exists s',
    addDocument (Examples.twoScopes false) 1 "alice"
      (mkFile "minutes.txt" Examples.minutesText "text/plain") "doc-c"
      (fun i => pretty i) (fun _ => Examples.draw384 0.1 0.2)
    = Some (s', Examples.minutesDocument)
    /\ getDocuments s' 1 "alice"
       = getDocuments (Examples.twoScopes false) 1 "alice" ++ [Examples.minutesDocument]
    /\ getChunks s' 2 "bob" = getChunks (Examples.twoScopes false) 2 "bob".
Proof.
  destruct (addDocument_memory (Examples.twoScopes false) 1 "alice"
              (mkFile "minutes.txt" Examples.minutesText "text/plain") "doc-c"
              (fun i => pretty i) (fun _ => Examples.draw384 0.1 0.2) eq_refl)
    as (s' & E & Hd & _ & _ & _ & _ & Hother).
  exists s'. split; [exact E|]. split; [exact Hd|].
  destruct (Hother 2 "bob") as (_ & Hc & _); [|exact Hc].
  intros [? _]. discriminate.
Defined.

(** *** Ingestion leaves the other folders alone *)

Lemma same_reads_refl s g v : same_reads s s g v.
Proof. by repeat split. Qed.

Lemma same_reads_trans s1 s2 s3 g v :
  same_reads s1 s2 g v -> same_reads s2 s3 g v -> same_reads s1 s3 g v.
Proof.
  intros (Hd & Hc & He) (Hd' & Hc' & He').
  split; [|split]; intros x; [rewrite Hd'|rewrite Hc'|rewrite He']; auto.
Qed.

Lemma elem_of_getAllFromIndex_insert {V} (m : gmap string V) k new matches x :
  m !! k = None -> matches new = false ->
  x ∈ getAllFromIndex (<[k := new]> m) matches <-> x ∈ getAllFromIndex m matches.
Proof.
  intros Hfresh Hnew. rewrite !elem_of_getAllFromIndex. split.
  - intros [[k' Hk'] Hx]. split; [|done].
    apply lookup_insert_Some in Hk' as [[_ <-]|[_ Hk']]; [congruence|eauto].
  - intros [[k' Hk'] Hx]. split; [|done]. exists k'.
    rewrite lookup_insert_ne; [done|]. intros <-. congruence.
Qed.

Lemma in_scope_false g v f u : ~ (g = f /\ v = u) -> in_scope g v f u = false.
Proof.
  intros Hne. destruct (in_scope g v f u) eqn:E; [|done].
  apply in_scope_true in E as [-> ->]. by destruct Hne.
Qed.

Local Ltac unfold_reads Hfb :=
  unfold same_reads, getDocuments, getChunks, getEmbeddings,
    storedDocuments, storedChunks, storedEmbeddings, withMemory, withDatabase;
  cbn [fallbackToMemory memoryStore database folderDocuments folderChunks
       folderEmbeddings];
  rewrite ?Hfb.

Local Ltac key_ne Hne :=
  first [ by (rewrite !scopeKey_head; discriminate)
        | by (intros [<- <-]%scopeKey_inj; apply Hne) ].

Lemma storeDocument_other s d s' g v :
  storeDocument s d = Some s' -> ~ (g = doc_folderId d /\ v = doc_userId d) ->
  same_reads s s' g v.
Proof.
  intros E Hne. unfold storeDocument in E. destruct (fallbackToMemory s) eqn:Hfb.
  - injection E as <-. unfold_reads Hfb.
    rewrite !lookup_insert_ne by key_ne Hne. by repeat split.
  - destruct (database s) as [db|] eqn:Hdb; [|done]. simpl in E.
    destruct (db_add _ _ _) as [docs|] eqn:Eadd; [|done].
    apply db_add_Some in Eadd as [Hfresh ->]. injection E as <-.
    unfold_reads Hfb. rewrite Hdb. split; [|by split].
    intros x. apply elem_of_getAllFromIndex_insert; [done|]. by apply in_scope_false.
Qed.

Lemma storeChunk_other s c s' g v :
  storeChunk s c = Some s' -> ~ (g = chunk_folderId c /\ v = chunk_userId c) ->
  same_reads s s' g v.
Proof.
  intros E Hne. unfold storeChunk in E. destruct (fallbackToMemory s) eqn:Hfb.
  - injection E as <-. unfold_reads Hfb.
    rewrite !lookup_insert_ne by key_ne Hne. by repeat split.
  - destruct (database s) as [db|] eqn:Hdb; [|done]. simpl in E.
    destruct (db_add _ _ _) as [docs|] eqn:Eadd; [|done].
    apply db_add_Some in Eadd as [Hfresh ->]. injection E as <-.
    unfold_reads Hfb. rewrite Hdb. split; [done|]. split; [|done].
    intros x. apply elem_of_getAllFromIndex_insert; [done|]. by apply in_scope_false.
Qed.

Lemma storeEmbedding_other s e s' g v :
  storeEmbedding s e = Some s' -> ~ (g = emb_folderId e /\ v = emb_userId e) ->
  same_reads s s' g v.
Proof.
  intros E Hne. unfold storeEmbedding in E. destruct (fallbackToMemory s) eqn:Hfb.
  - injection E as <-. unfold_reads Hfb.
    rewrite !lookup_insert_ne by key_ne Hne. by repeat split.
  - destruct (database s) as [db|] eqn:Hdb; [|done]. simpl in E.
    destruct (db_add _ _ _) as [docs|] eqn:Eadd; [|done].
    apply db_add_Some in Eadd as [Hfresh ->]. injection E as <-.
    unfold_reads Hfb. rewrite Hdb. split; [done|]. split; [done|].
    intros x. apply elem_of_getAllFromIndex_insert; [done|]. by apply in_scope_false.
Qed.

Lemma storeKnowledgeGraph_other s graph s' g v :
  storeKnowledgeGraph s graph = Some s' -> same_reads s s' g v.
Proof.
  intros E. unfold storeKnowledgeGraph in E. destruct (fallbackToMemory s) eqn:Hfb.
  - injection E as <-. unfold_reads Hfb.
    rewrite !lookup_insert_ne by (rewrite !scopeKey_head; discriminate).
    by repeat split.
  - destruct (database s) as [db|] eqn:Hdb; [|done]. simpl in E.
    injection E as <-. unfold_reads Hfb. rewrite Hdb. by repeat split.
Qed.

Lemma processDocumentAsync_other s document uuid draw g v :
  ~ (g = doc_folderId document /\ v = doc_userId document) ->
  same_reads s (processDocumentAsync s document uuid draw) g v.
Proof.
  intros Hne.
  assert (Hscope : forall cs : list FolderChunk,
            cs ⊆ chunkDocument document uuid ->
            Forall (fun c => ~ (g = chunk_folderId c /\ v = chunk_userId c)) cs).
  { intros cs Hcs. apply Forall_forall. intros c Hc%Hcs.
    apply chunkDocument_scope in Hc as [-> ->]. done. }
  assert (Hchunks : forall cs s s' ok,
            Forall (fun c => ~ (g = chunk_folderId c /\ v = chunk_userId c)) cs ->
            storeChunks s cs = (s', ok) -> same_reads s s' g v).
  { induction cs as [|c cs IH]; intros s0 s' ok Hcs E; simpl in E.
    { simplify_eq. apply same_reads_refl. }
    apply Forall_cons in Hcs as [Hc Hcs].
    destruct (storeChunk s0 c) as [s1|] eqn:E1.
    - eapply same_reads_trans; [by eapply storeChunk_other|by eapply IH].
    - simplify_eq. apply same_reads_refl. }
  assert (Hembs : forall cs s,
            Forall (fun c => ~ (g = chunk_folderId c /\ v = chunk_userId c)) cs ->
            same_reads s (generateEmbeddingsForChunks s cs draw) g v).
  { unfold generateEmbeddingsForChunks.
    induction cs as [|c cs IH]; intros s0 Hcs; simpl; [apply same_reads_refl|].
    apply Forall_cons in Hcs as [Hc Hcs].
    destruct (storeEmbedding s0 _) as [s1|] eqn:E1; simpl; [|by apply IH].
    eapply same_reads_trans; [by eapply storeEmbedding_other|by apply IH]. }
  unfold processDocumentAsync, updateKnowledgeGraph.
  destruct (storeChunks s _) as [s1 [|]] eqn:E1.
  2: { eapply Hchunks; [|done]. by apply Hscope. }
  eapply same_reads_trans; [eapply Hchunks; [|done]; by apply Hscope|].
  destruct (storeKnowledgeGraph _ _) as [s3|] eqn:E3; simpl.
  - eapply same_reads_trans; [apply Hembs; by apply Hscope|].
    by eapply storeKnowledgeGraph_other.
  - apply Hembs. by apply Hscope.
Qed.

(** X22. With IndexedDB as in the memory fallback, [addDocument] into one
    folder of one user changes nothing of what any other folder, or the
    same folder of another user, reads: the same documents, chunks and
    embeddings before and after, and a search there returns only chunks
    that were there before. *)
Theorem addDocument_isolated s f u file docId uuid draw s' document g v :
  addDocument s f u file docId uuid draw = Some (s', document) ->
  ~ (g = f /\ v = u) ->
  same_reads s s' g v
  /\ forall query queryDraw limit r,
       r ∈ searchSimilarContent s' g v query queryDraw limit ->
       res_chunk r ∈ getChunks s g v.
Proof.
  unfold addDocument. cbv zeta. intros E Hne.
  destruct (storeDocument s _) as [s1|] eqn:E1; [|done]. simpl in E.
  injection E as <- <-.
  assert (Hsame : same_reads s
            (processDocumentAsync s1 (documentOf f u file docId) uuid draw) g v).
  { eapply same_reads_trans; [by eapply storeDocument_other|].
    by apply processDocumentAsync_other. }
  split; [done|]. intros query queryDraw limit r Hr.
  apply searchSimilarContent_from_chunks in Hr. by apply Hsame.
Qed.

Lemma addDocument_isolated_witness :
  exists s' document,
    addDocument (Examples.twoScopes true) 1 "alice"
      (mkFile "minutes.txt" Examples.minutesText "text/plain") "doc-c"
      (fun i => pretty i) (fun _ => Examples.draw384 0.1 0.2) = Some (s', document)
    /\ same_reads (Examples.twoScopes true) s' 2 "bob".
Proof.
  destruct (addDocument (Examples.twoScopes true) 1 "alice"
              (mkFile "minutes.txt" Examples.minutesText "text/plain") "doc-c"
              (fun i => pretty i) (fun _ => Examples.draw384 0.1 0.2))
    as [[s' document]|] eqn:E.
  - exists s', document. split; [done|].
    destruct (addDocument_isolated _ _ _ _ _ _ _ _ _ 2 "bob" E) as [H _]; [|exact H].
    intros [? _]. discriminate.
  - exfalso. revert E. vm_compute. discriminate.
Defined.

End StoreMore.
(** ** Search, the context of a query and the knowledge graph *)

Module SearchMore.
Import JS JSFacts FolderRAG Statements FolderRAGFacts.

Lemma elem_of_sort_insert x y l : x ∈ sort_insert y l <-> x = y \/ x ∈ l.
Proof.
  induction l as [|z l IH]; simpl.
  { rewrite list_elem_of_singleton. split; [by left|]. intros [?|?%not_elem_of_nil]; done. }
  destruct (comesAfter y z).
  - rewrite !elem_of_cons, IH. tauto.
  - rewrite !elem_of_cons. tauto.
Qed.

Lemma elem_of_sortBySimilarity x l : x ∈ sortBySimilarity l <-> x ∈ l.
Proof.
  unfold sortBySimilarity. induction l as [|y l IH]; simpl; [done|].
  rewrite elem_of_sort_insert, elem_of_cons, IH. tauto.
Qed.

Lemma slice_to_sublist {A} (l : list A) stop : slice_to l stop `sublist_of` l.
Proof. unfold slice_to. destruct (stop <? 0); apply sublist_take. Qed.

Lemma length_omap_le {A B} (f : A -> option B) (l : list A) :
  (length (omap f l) <= length l)%nat.
Proof.
  induction l as [|x l IH]; [done|].
  cbn. destruct (f x); cbn; fold (omap f l); lia.
Qed.

(** X19. A search result is a chunk of the folder for which an embedding
    is stored under the id of the chunk, and its similarity is the cosine
    of the query vector and the vector of that embedding; there are at most
    as many results as embeddings, and at most [limit] when [limit] is not
    negative. The text of the query is never read: two queries with the
    same random draw get the same results. *)
Theorem searchSimilarContent_results s folderId userId query queryDraw limit :
  Forall (fun r =>
            res_chunk r ∈ getChunks s folderId userId
            /\ exists e, e ∈ getEmbeddings s folderId userId
                 /\ emb_id e = chunk_id (res_chunk r)
                 /\ res_similarity r
                    = cosineSimilarity (generateEmbedding query queryDraw)
                                       (emb_vector e))
         (searchSimilarContent s folderId userId query queryDraw limit)
  /\ (length (searchSimilarContent s folderId userId query queryDraw limit)
      <= length (getEmbeddings s folderId userId))%nat
  /\ (0 <= limit ->
      Z.of_nat (length (searchSimilarContent s folderId userId query queryDraw limit))
      <= limit)
  /\ (forall query',
        searchSimilarContent s folderId userId query' queryDraw limit
        = searchSimilarContent s folderId userId query queryDraw limit).
Proof.
  split; [|split; [|split]].
  - apply Forall_forall. intros r Hr. split; [by eapply searchSimilarContent_from_chunks|].
    unfold searchSimilarContent in Hr. apply list_elem_of_omap in Hr as (result & Hin & Hfind).
    destruct (find _ _) as [chunk|] eqn:E; [|done]. simplify_eq. simpl.
    apply find_some in E as [_ Hid%String.eqb_eq].
    eapply elem_of_sublist in Hin; [|apply slice_to_sublist].
    apply elem_of_sortBySimilarity, list_elem_of_fmap in Hin as (e & -> & He).
    exists e. simpl in Hid. done.
  - unfold searchSimilarContent. etrans; [apply length_omap_le|].
    etrans; [apply sublist_length, slice_to_sublist|].
    by rewrite sortBySimilarity_length, length_map.
  - intros Hlimit. unfold searchSimilarContent.
    pose proof (length_omap_le
      (fun result =>
         match List.find (fun c => String.eqb (chunk_id c) (sim_chunkId result))
                 (getChunks s folderId userId) with
         | Some chunk => Some (mkResult chunk (similarity result))
         | None => None
         end)
      (slice_to (sortBySimilarity
         (map (fun embedding =>
                 mkSimilarity (emb_id embedding)
                   (cosineSimilarity (generateEmbedding query queryDraw)
                                     (emb_vector embedding)))
              (getEmbeddings s folderId userId))) limit)) as Hle.
    unfold slice_to in Hle at 2. destruct (limit <? 0) eqn:Hneg; [lia|].
    rewrite length_take in Hle. lia.
  - done.
Qed.

(** *** Ranking *)

Lemma consistentComparator_spec l :
  consistentComparator (map similarity l) = true ->
  (forall a b, a ∈ l -> b ∈ l -> comesAfter a b = true -> comesAfter b a = false)
  /\ (forall a b c, a ∈ l -> b ∈ l -> c ∈ l ->
        comesAfter a b = false -> comesAfter b c = false -> comesAfter a c = false).
Proof.
  unfold consistentComparator. rewrite forallb_forall. intros H.
  assert (Hin : forall a, a ∈ l -> In (similarity a) (map similarity l)).
  { intros a Ha. apply in_map. by apply list_elem_of_In. }
  split.
  - intros a b Ha Hb Hab.
    specialize (H _ (Hin a Ha)). rewrite forallb_forall in H.
    specialize (H _ (Hin b Hb)). apply andb_prop in H as [H _].
    unfold comesAfter in *. rewrite Hab in H. simpl in H.
    by apply negb_true_iff in H.
  - intros a b c Ha Hb Hc Hab Hbc.
    specialize (H _ (Hin a Ha)). rewrite forallb_forall in H.
    specialize (H _ (Hin b Hb)). apply andb_prop in H as [_ H].
    rewrite forallb_forall in H. specialize (H _ (Hin c Hc)).
    unfold comesAfter in *. rewrite Hab, Hbc in H. simpl in H.
    by apply negb_true_iff in H.
Qed.

Lemma sort_insert_perm x l : sort_insert x l ≡ₚ x :: l.
Proof.
  induction l as [|y l IH]; simpl; [done|].
  destruct (comesAfter x y); [|done].
  rewrite IH. apply Permutation_swap.
Qed.

Lemma sortBySimilarity_perm l : sortBySimilarity l ≡ₚ l.
Proof.
  unfold sortBySimilarity. induction l as [|x l IH]; simpl; [done|].
  by rewrite sort_insert_perm, IH.
Qed.

(** Inserting into a ranking gives a ranking, where the comparator is
    consistent. *)
Lemma sort_insert_descending x l :
  (forall y, y ∈ l -> comesAfter x y = true -> comesAfter y x = false) ->
  (forall y z, y ∈ l -> z ∈ l ->
     comesAfter x y = false -> comesAfter y z = false -> comesAfter x z = false) ->
  descending (map similarity l) ->
  descending (map similarity (sort_insert x l)).
Proof.
  intros Hasym Htrans.
  induction l as [|y l IH]; intros Hl; simpl.
  { split; [constructor|done]. }
  destruct Hl as [Hy Hl]. simpl in Hy, Hl.
  destruct (comesAfter x y) eqn:Hxy; simpl.
  - split.
    + apply Forall_forall. intros v Hv.
      apply list_elem_of_fmap in Hv as (z & -> & Hz).
      apply elem_of_sort_insert in Hz as [->|Hz].
      * apply (Hasym y); [left|done].
      * apply (proj1 (Forall_forall _ _) Hy). apply list_elem_of_fmap. eauto.
    + apply IH; [| |done].
      * intros z Hz. apply Hasym. by right.
      * intros z w Hz Hw. apply Htrans; by right.
  - split; [|by split].
    constructor; [exact Hxy|].
    apply Forall_forall. intros v Hv.
    apply list_elem_of_fmap in Hv as (z & -> & Hz).
    apply (Htrans y z); [left|by right|done|].
    apply (proj1 (Forall_forall _ _) Hy). apply list_elem_of_fmap. eauto.
Qed.

Lemma sortBySimilarity_descending l :
  consistentComparator (map similarity l) = true ->
  descending (map similarity (sortBySimilarity l)).
Proof.
  intros [Hasym Htrans]%consistentComparator_spec.
  assert (H : forall l', l' ⊆ l -> descending (map similarity (sortBySimilarity l'))).
  { induction l' as [|x l' IH]; intros Hsub; [done|].
    change (sortBySimilarity (x :: l')) with (sort_insert x (sortBySimilarity l')).
    assert (Hx : x ∈ l) by (apply Hsub; left).
    assert (Hl' : l' ⊆ l) by (intros y Hy; apply Hsub; by right).
    apply sort_insert_descending; [| |by apply IH].
    - intros y Hy. apply (proj1 (elem_of_sortBySimilarity y l')) in Hy.
      apply Hasym; auto.
    - intros y z Hy Hz.
      apply (proj1 (elem_of_sortBySimilarity y l')) in Hy.
      apply (proj1 (elem_of_sortBySimilarity z l')) in Hz.
      apply Htrans; auto. }
  by apply H.
Qed.

Lemma descending_sublist l1 l2 :
  l1 `sublist_of` l2 -> descending l2 -> descending l1.
Proof.
  induction 1 as [|x l1 l2 Hsub IH|x l1 l2 Hsub IH]; simpl; [done| |].
  - intros [Hx Hl]. split; [|by apply IH].
    apply Forall_forall. intros y Hy.
    apply (proj1 (Forall_forall _ _) Hx). by eapply elem_of_sublist.
  - intros [_ Hl]. by apply IH.
Qed.

Lemma omap_chunkOfSimilarity_sublist cs l :
  map res_similarity (omap (chunkOfSimilarity cs) l) `sublist_of` map similarity l.
Proof.
  induction l as [|a l IH]; [done|].
  cbn. unfold chunkOfSimilarity at 1.
  destruct (find _ cs); cbn; fold (omap (chunkOfSimilarity cs) l).
  - by apply sublist_skip.
  - by apply sublist_cons.
Qed.

(** X25. Where the comparator of the sort is consistent on the
    similarities of the folder, [searchSimilarContent] returns the chunks of
    the best embeddings in descending order of similarity: the similarities
    of the folder, ranked, split into the first [limit] and the rest, no
    entry comes after one that is more similar, and the results are the
    chunks found for the first entries, in that order. *)
Theorem searchSimilarContent_ranked s folderId userId query queryDraw limit :
  let similarities :=
    map (fun embedding =>
           mkSimilarity (emb_id embedding)
             (cosineSimilarity (generateEmbedding query queryDraw)
                               (emb_vector embedding)))
        (getEmbeddings s folderId userId) in
  consistentComparator (map similarity similarities) = true ->
  exists top rest,
    top ++ rest ≡ₚ similarities
    /\ descending (map similarity (top ++ rest))
    /\ (0 <= limit ->
        length top = Nat.min (Z.to_nat limit) (length (getEmbeddings s folderId userId)))
    /\ searchSimilarContent s folderId userId query queryDraw limit
       = omap (chunkOfSimilarity (getChunks s folderId userId)) top
    /\ descending (map res_similarity
                     (searchSimilarContent s folderId userId query queryDraw limit)).
Proof.
  intros similarities Hcons.
  pose proof (sortBySimilarity_descending similarities Hcons) as Hdesc.
  pose proof (sortBySimilarity_perm similarities) as Hperm.
  set (sorted := sortBySimilarity similarities) in *.
  assert (Hsearch : searchSimilarContent s folderId userId query queryDraw limit
                    = omap (chunkOfSimilarity (getChunks s folderId userId))
                           (slice_to sorted limit)) by reflexivity.
  assert (exists n, slice_to sorted limit = take n sorted
                    /\ (0 <= limit -> n = Z.to_nat limit)) as (n & Hslice & Hn).
  { unfold slice_to. destruct (limit <? 0) eqn:Hneg.
    - eexists. split; [done|]. apply Z.ltb_lt in Hneg. lia.
    - eexists. split; [done|]. done. }
  exists (take n sorted), (drop n sorted).
  rewrite take_drop. split; [done|]. split; [done|]. split; [|split].
  - intros Hlimit. rewrite length_take, (Hn Hlimit), Hperm.
    subst similarities. by rewrite length_map.
  - by rewrite Hsearch, Hslice.
  - rewrite Hsearch, Hslice.
    eapply descending_sublist; [apply omap_chunkOfSimilarity_sublist|].
    eapply descending_sublist; [|exact Hdesc].
    apply fmap_sublist, sublist_take.
Qed.

Lemma searchSimilarContent_ranked_witness :
  descending
    (map res_similarity
       (searchSimilarContent (Examples.threeDocuments true) 1 "alice"
          "total amount due" (Examples.draw384 0.4 0.3) 2))
  /\ length (searchSimilarContent (Examples.threeDocuments true) 1 "alice"
               "total amount due" (Examples.draw384 0.4 0.3) 2) = 2%nat.
Proof.
  destruct (searchSimilarContent_ranked (Examples.threeDocuments true) 1 "alice"
              "total amount due" (Examples.draw384 0.4 0.3) 2)
    as (top & rest & _ & _ & _ & _ & H).
  { vm_compute. reflexivity. }
  split; [exact H|]. vm_compute. reflexivity.
Defined.

(** *** The context of a query *)

Lemma append_nil_r s : s +:+ "" = s.
Proof.
  induction s as [|c s IH]; [done|].
  change (String c s +:+ "") with (String c (s +:+ "")). by rewrite IH.
Qed.

Lemma join_empty_cons x l : join "" (x :: l) = x +:+ join "" l.
Proof. destruct l; simpl; [by rewrite append_nil_r|done]. Qed.

Lemma contextLoop_cons maxTokens r rs context totalTokens :
  contextLoop maxTokens (r :: rs) context totalTokens
  = if maxTokens <? totalTokens + chunk_tokenCount (res_chunk r) then context
    else if (0.7 <? res_similarity r)%float
    then contextLoop maxTokens rs (context +:+ contextBlock r)
           (totalTokens + chunk_tokenCount (res_chunk r))
    else contextLoop maxTokens rs context totalTokens.
Proof. reflexivity. Qed.

Lemma contextLoop_picks maxTokens rs :
  forall context totalTokens,
  exists picked,
    picked `sublist_of` rs
    /\ Forall (fun r => (0.7 <? res_similarity r)%float = true) picked
    /\ (picked = [] \/ totalTokens + chunkTokens picked <= maxTokens)
    /\ contextLoop maxTokens rs context totalTokens
       = context +:+ join "" (map contextBlock picked).
Proof.
  induction rs as [|r rs IH]; intros context totalTokens.
  { exists []. split; [done|]. split; [done|]. split; [by left|].
    simpl. by rewrite append_nil_r. }
  rewrite contextLoop_cons.
  destruct (maxTokens <? _) eqn:Hover.
  { exists []. split; [apply sublist_nil_l|]. split; [done|]. split; [by left|].
    simpl. by rewrite append_nil_r. }
  apply Z.ltb_ge in Hover.
  destruct (0.7 <? res_similarity r)%float eqn:Hsim.
  - destruct (IH (context +:+ contextBlock r)
                 (totalTokens + chunk_tokenCount (res_chunk r)))
      as (picked & Hsub & Hthr & Hsum & ->).
    exists (r :: picked). split; [by apply sublist_skip|].
    split; [by constructor|]. split.
    + right. destruct Hsum as [->|Hsum]; simpl; lia.
    + cbn [map]. by rewrite join_empty_cons, ChunkerFacts.str_app_assoc.
  - destruct (IH context totalTokens) as (picked & Hsub & Hthr & Hsum & ->).
    exists picked. split; [by apply sublist_cons|]. done.
Qed.

(** X20. The context of a query is made of the blocks of some of the
    results of the search with limit 10, in the order in which the search
    returns them: each of them has a similarity above 0.7, whatever
    threshold the folder asks for, and together they have at most
    [maxTokens] tokens. *)
Theorem buildContextForQuery_budget s folderId userId query queryDraw maxTokens :
  exists picked,
    picked `sublist_of` searchSimilarContent s folderId userId query queryDraw 10
    /\ Forall (fun r => (0.7 <? res_similarity r)%float = true) picked
    /\ (picked = [] \/ chunkTokens picked <= maxTokens)
    /\ buildContextForQuery s folderId userId query queryDraw maxTokens
       = trim (join "" (map contextBlock picked)).
Proof.
  unfold buildContextForQuery.
  destruct (contextLoop_picks maxTokens
              (searchSimilarContent s folderId userId query queryDraw 10) "" 0)
    as (picked & Hsub & Hthr & Hsum & ->).
  exists picked. split; [done|]. split; [done|]. split; [|done].
  destruct Hsum as [?|?]; [by left|right; lia].
Qed.

(** *** The knowledge graph of a document *)

Lemma extractConcepts_length text : (length (extractConcepts text) <= 5)%nat.
Proof.
  unfold extractConcepts. cbv zeta. change (slice_to ?l 5) with (take 5 l).
  rewrite length_take. lia.
Qed.

Lemma conceptNodesOf_spec document cs :
  forall index,
  (length (conceptNodesOf document cs index) <= 5 * length cs)%nat
  /\ Forall (fun n =>
               node_type n = node_concept
               /\ node_documentIds n = [doc_id document]
               /\ exists c, c ∈ cs
                    /\ node_chunkIds n = [chunk_id c]
                    /\ node_label n ∈ extractConcepts (chunk_content c)
                    /\ node_id n = chunk_id c +:+ "-concept-" +:+ node_label n)
            (conceptNodesOf document cs index).
Proof.
  induction cs as [|c cs IH]; intros index; simpl; [done|].
  destruct (IH (index + 1)) as [Hlen Hall]. split.
  - rewrite length_app, length_map.
    pose proof (extractConcepts_length (chunk_content c)). lia.
  - apply Forall_app. split.
    + apply Forall_forall. intros n (concept & -> & Hin)%list_elem_of_fmap. simpl.
      split; [done|]. split; [done|]. exists c. split; [left|]. done.
    + eapply Forall_impl; [exact Hall|]. simpl.
      intros n (? & ? & c' & ? & ?). split; [done|]. split; [done|].
      exists c'. split; [by right|done].
Qed.

(** X21. The knowledge graph built for a document belongs to the scope of
    the document and starts with the node of the document, which lists the
    ids of all its chunks; every other node is a concept of one chunk, at
    most 5 per chunk, and for every concept node there is exactly one edge,
    a [contains] edge from the document to that node. *)
Theorem graphOf_shape document cs :
  graph_folderId (graphOf document cs) = doc_folderId document
  /\ graph_userId (graphOf document cs) = doc_userId document
  /\ (exists concepts,
        graph_nodes (graphOf document cs) = documentNodeOf document cs :: concepts
        /\ node_chunkIds (documentNodeOf document cs) = map chunk_id cs
        /\ (length concepts <= 5 * length cs)%nat
        /\ Forall (fun n =>
                     node_type n = node_concept
                     /\ node_documentIds n = [doc_id document]
                     /\ exists c, c ∈ cs
                          /\ node_chunkIds n = [chunk_id c]
                          /\ node_label n ∈ extractConcepts (chunk_content c)
                          /\ node_id n = chunk_id c +:+ "-concept-" +:+ node_label n)
                  concepts
        /\ map edge_targetId (graph_edges (graphOf document cs)) = map node_id concepts
        /\ Forall (fun e => edge_sourceId e = doc_id document /\ edge_type e = contains)
                  (graph_edges (graphOf document cs))).
Proof.
  split; [done|]. split; [done|].
  exists (conceptNodesOf document cs 0).
  destruct (conceptNodesOf_spec document cs 0) as [Hlen Hall].
  split; [done|]. split; [done|]. split; [done|]. split; [done|].
  simpl. split.
  - rewrite map_map. done.
  - apply Forall_forall. by intros e (n & -> & _)%list_elem_of_fmap.
Qed.

End SearchMore.
